(** * jot: note repository and retrieval engine

    A shallow embedding of the non-UI core of the application
    (src/lib/fileSystem.ts, src/store/noteStore.ts,
    src/hooks/useMarkdownHeadings.ts, src/hooks/useWordCount.ts, the
    auto-save logic of src/components/Editor/MarkdownEditor.tsx and the
    views of the tree in the side bar, the move menu and the preview)
    together with the properties the specification states about it and
    further properties of the code.

    Conventions.
    - A JavaScript string is a sequence of code units.  The model covers the
      strings whose code units are below 256 (ISO 8859-1), so that a code unit
      is an [ascii] and a string a [list ascii]; within that range the
      character classes of the regular expressions, [trim] and the case
      mappings are the ECMAScript ones.
    - Promises are run to completion: an asynchronous function is a state
      transformer that either resolves with a value or rejects. *)

From Stdlib Require Import String Ascii.
From Stdlib Require Import List Bool Arith Lia ZArith Sorted Permutation.
Import ListNotations.

Set Implicit Arguments.
Local Open Scope list_scope.

(* ===================================================================== *)
(** ** JavaScript strings *)
(* ===================================================================== *)

Module Js.

Definition jsstring := list ascii.

(** String literal. *)
Definition str (s : string) : jsstring := list_ascii_of_string s.
Arguments str s%_string : simpl never.

Definition code (c : ascii) : nat := nat_of_ascii c.

Definition chr (n : nat) : ascii := ascii_of_nat n.

Fixpoint eqb (a b : jsstring) : bool :=
  match a, b with
  | [], [] => true
  | x :: a', y :: b' => Ascii.eqb x y && eqb a' b'
  | _, _ => false
  end.

(** [s.startsWith(p)] *)
Fixpoint startsWith (s p : jsstring) {struct p} : bool :=
  match p, s with
  | [], _ => true
  | x :: p', y :: s' => Ascii.eqb x y && startsWith s' p'
  | _ :: _, [] => false
  end.

(** [s.endsWith(p)] *)
Definition endsWith (s p : jsstring) : bool :=
  startsWith (rev s) (rev p).

(** [s.includes(p)] *)
Fixpoint includes (s p : jsstring) : bool :=
  startsWith s p ||
  match s with
  | [] => false
  | _ :: s' => includes s' p
  end.

(** [xs.includes(x)] on an array of strings. *)
Fixpoint arrayIncludes (xs : list jsstring) (x : jsstring) : bool :=
  match xs with
  | [] => false
  | y :: ys => eqb y x || arrayIncludes ys x
  end.

(** White space and line terminators: what [\s] matches and what [trim]
    strips (TAB, LF, VT, FF, CR, SP, NBSP below 256). *)
Definition isSpace (c : ascii) : bool :=
  let n := code c in
  ((9 <=? n) && (n <=? 13)) || (n =? 32) || (n =? 160).

(** Line terminators: what [.] does not match (LF and CR below 256). *)
Definition isLineTerminator (c : ascii) : bool :=
  let n := code c in (n =? 10) || (n =? 13).

(** [\w]: ASCII letters, digits and the underscore. *)
Definition isLetter (c : ascii) : bool :=
  let n := code c in
  ((65 <=? n) && (n <=? 90)) || ((97 <=? n) && (n <=? 122)).

Definition isDigit (c : ascii) : bool :=
  let n := code c in (48 <=? n) && (n <=? 57).

Definition isWord (c : ascii) : bool :=
  isLetter c || isDigit c || (code c =? 95).

Fixpoint trimStart (s : jsstring) : jsstring :=
  match s with
  | [] => []
  | c :: s' => if isSpace c then trimStart s' else s
  end.

Definition trimEnd (s : jsstring) : jsstring := rev (trimStart (rev s)).

(** [s.trim()] *)
Definition trim (s : jsstring) : jsstring := trimEnd (trimStart s).

(** Lower-case mapping of one code unit: A-Z, and in the upper half
    U+00C0-U+00DE without the multiplication sign U+00D7. *)
Definition lowerChar (c : ascii) : ascii :=
  let n := code c in
  if ((65 <=? n) && (n <=? 90))
     || ((192 <=? n) && (n <=? 222) && negb (n =? 215))
  then chr (n + 32) else c.

(** [s.toLowerCase()] *)
Definition toLowerCase (s : jsstring) : jsstring := map lowerChar s.

(** [s.split(LF)]: always at least one piece. *)
Fixpoint splitLines (s : jsstring) : list jsstring :=
  match s with
  | [] => [[]]
  | c :: s' =>
      if code c =? 10 then [] :: splitLines s'
      else match splitLines s' with
           | [] => [[c]]
           | l :: ls => (c :: l) :: ls
           end
  end.

(** [s.lastIndexOf(c)] for a single code unit [c]; [None] stands for -1. *)
Fixpoint lastIndexOf (s : jsstring) (c : ascii) : option nat :=
  match s with
  | [] => None
  | x :: s' =>
      match lastIndexOf s' c with
      | Some i => Some (S i)
      | None => if Ascii.eqb x c then Some 0 else None
      end
  end.

(** [s.substring(i)] and [s.substring(0, i)] *)
Definition substringFrom (s : jsstring) (i : nat) : jsstring := skipn i s.
Definition substringTo (s : jsstring) (i : nat) : jsstring := firstn i s.

(** [s.slice(0, n)] *)
Definition sliceTo {A} (n : nat) (l : list A) : list A := firstn n l.
Arguments sliceTo : simpl never.

(** [s.replace(/[class]/g, empty)]: delete every code unit of a class. *)
Definition removeAll (cls : ascii -> bool) (s : jsstring) : jsstring :=
  filter (fun c => negb (cls c)) s.

(** Truthiness of a value of type [string | null]: [null] and the empty
    string are falsy. *)
Definition truthy (v : option jsstring) : bool :=
  match v with
  | Some (_ :: _) => true
  | _ => false
  end.

Fixpoint takeWhile (p : ascii -> bool) (s : jsstring) : jsstring :=
  match s with
  | [] => []
  | c :: s' => if p c then c :: takeWhile p s' else []
  end.

(** [xs.sort(cmp)].  ECMAScript fixes the result when the comparator is
    consistent: the permutation of [xs] that is ordered by [cmp] and keeps
    the input order of elements that compare equal (the sort is stable).
    An insertion sort that puts each element before the first one it does
    not follow computes exactly that list. *)
Section Sort.
Variable A : Type.
Variable cmp : A -> A -> Z.

Fixpoint insertSorted (x : A) (l : list A) : list A :=
  match l with
  | [] => [x]
  | y :: l' =>
      if (cmp x y <=? 0)%Z then x :: l else y :: insertSorted x l'
  end.

Definition arraySort (l : list A) : list A :=
  fold_right insertSorted [] l.
End Sort.

(** The body of a [for (const x of xs)] loop that either pushes one value or
    skips the element. *)
Section FilterMap.
Variables A B : Type.
Variable f : A -> option B.

Fixpoint filterMap (l : list A) : list B :=
  match l with
  | [] => []
  | x :: l' =>
      match f x with
      | Some y => y :: filterMap l'
      | None => filterMap l'
      end
  end.
End FilterMap.

End Js.

Import Js.

(* ===================================================================== *)
(** ** The node tree (interface FileNode of src/store/noteStore.ts) *)
(* ===================================================================== *)

(** [children] and [isFavorite] are optional properties. *)
Local Unset Elimination Schemes.
Inductive FileNode : Type :=
  mkFileNode (name path : jsstring) (isDirectory : bool)
             (children : option (list FileNode))
             (isFavorite : option bool).
Local Set Elimination Schemes.

Definition name (n : FileNode) : jsstring :=
  match n with mkFileNode x _ _ _ _ => x end.
Definition path (n : FileNode) : jsstring :=
  match n with mkFileNode _ x _ _ _ => x end.
Definition isDirectory (n : FileNode) : bool :=
  match n with mkFileNode _ _ x _ _ => x end.
Definition children (n : FileNode) : option (list FileNode) :=
  match n with mkFileNode _ _ _ x _ => x end.
Definition isFavorite (n : FileNode) : option bool :=
  match n with mkFileNode _ _ _ _ x => x end.

(** Induction over a tree: the children of a node come first. *)
Section FileNodeInduction.
Variable P : FileNode -> Prop.
Hypothesis leaf : forall n p d fav, P (mkFileNode n p d None fav).
Hypothesis inner :
  forall n p d kids fav, Forall P kids -> P (mkFileNode n p d (Some kids) fav).

Fixpoint FileNode_induction (node : FileNode) : P node :=
  match node with
  | mkFileNode n p d None fav => leaf n p d fav
  | mkFileNode n p d (Some kids) fav =>
      inner n p d fav
        ((fix all (l : list FileNode) : Forall P l :=
            match l with
            | [] => Forall_nil P
            | x :: l' => Forall_cons x (FileNode_induction x) (all l')
            end) kids)
  end.
End FileNodeInduction.

(** A node with all the nodes below it, in document order. *)
Fixpoint nodesOf (node : FileNode) : list FileNode :=
  node ::
  match children node with
  | Some kids => flat_map nodesOf kids
  | None => []
  end.

Definition allNodes (tree : list FileNode) : list FileNode :=
  flat_map nodesOf tree.

(** A tree without its favorite marks: names, paths, kinds, shape and order
    of the nodes. *)
Fixpoint unmarked (node : FileNode) : FileNode :=
  match node with
  | mkFileNode n p d ch _ =>
      mkFileNode n p d
        (match ch with
         | Some kids => Some (map unmarked kids)
         | None => None
         end)
        None
  end.

(* ===================================================================== *)
(** ** The storage collaborator (plugin-fs and plugin-store) *)
(* ===================================================================== *)

Module Storage.

(** How a promise settles. *)
Inductive Outcome (A : Type) : Type :=
| Resolved (a : A)
| Rejected.
Arguments Rejected {A}.

(** Code that runs against a state [S] and may throw: the state reached is
    kept in both cases, as in JavaScript. *)
Definition M (S A : Type) : Type := S -> Outcome A * S.

Definition ret {S A} (a : A) : M S A := fun s => (Resolved a, s).

Definition throw {S A} : M S A := fun s => (Rejected, s).

Definition bind {S A B} (m : M S A) (k : A -> M S B) : M S B :=
  fun s =>
    match m s with
    | (Resolved a, s') => k a s'
    | (Rejected, s') => (Rejected, s')
    end.

(** [try { m } catch { h }] *)
Definition tryCatch {S A} (m : M S A) (h : M S A) : M S A :=
  fun s =>
    match m s with
    | (Resolved a, s') => (Resolved a, s')
    | (Rejected, s') => h s'
    end.

Definition gets {S A} (f : S -> A) : M S A := fun s => (Resolved (f s), s).

Definition modify {S} (f : S -> S) : M S unit := fun s => (Resolved tt, f s).

(** Run code written against a part [T] of the state [S]. *)
Definition zoom {S T A} (proj : S -> T) (inj : T -> S -> S) (m : M T A)
  : M S A :=
  fun s => let (r, t) := m (proj s) in (r, inj t s).

(** [for (const x of xs) { await body(x) }] *)
Section ForEach.
Variables S A : Type.
Variable body : A -> M S unit.

Fixpoint forEach (xs : list A) : M S unit :=
  match xs with
  | [] => ret tt
  | x :: xs' => bind (body x) (fun _ => forEach xs')
  end.
End ForEach.

Declare Scope js_scope.
Delimit Scope js_scope with js.
Notation "x <- m ;; k" := (bind m (fun x => k))
  (at level 61, m at next level, right associativity) : js_scope.
Notation "m ;; k" := (bind m (fun _ => k))
  (at level 61, right associativity) : js_scope.

(** The calls made to the storage back end. *)
Inductive StorageOp : Type :=
| OpReadTextFile (p : jsstring)
| OpWriteTextFile (p content : jsstring)
| OpExists (p : jsstring)
| OpRename (oldPath newPath : jsstring)
| OpStoreLoad
| OpStoreSet (key : jsstring) (value : list jsstring)
| OpStoreSave.

(** The world outside the application: the text files by path, which paths
    exist, the key-value document [notes-meta.json] (as held by the plugin
    and as last saved), the calls the back end refuses, and the journal of
    the calls made so far. *)
Record World : Type := mkWorld {
  textFiles : jsstring -> option jsstring;
  present : jsstring -> bool;
  refused : StorageOp -> bool;
  storeLoaded : bool;
  storeEntries : jsstring -> option (list jsstring);
  storeSaved : jsstring -> option (list jsstring);
  journal : list StorageOp
}.

Definition update {V} (f : jsstring -> V) (k : jsstring) (v : V)
  : jsstring -> V :=
  fun x => if Js.eqb x k then v else f x.

Definition record (op : StorageOp) (w : World) : World :=
  mkWorld (textFiles w) (present w) (refused w) (storeLoaded w)
          (storeEntries w) (storeSaved w) (journal w ++ [op]).

Definition withFiles (t : jsstring -> option jsstring)
  (p : jsstring -> bool) (w : World) : World :=
  mkWorld t p (refused w) (storeLoaded w) (storeEntries w) (storeSaved w)
          (journal w).

Definition withStore (l : bool) (e s : jsstring -> option (list jsstring))
  (w : World) : World :=
  mkWorld (textFiles w) (present w) (refused w) l e s (journal w).

(** Every call is journalled, then refused or carried out. *)
Definition call {A} (op : StorageOp) (run : World -> Outcome A * World)
  : M World A :=
  fun w =>
    let w' := record op w in
    if refused w op then (Rejected, w') else run w'.

Definition readTextFile (p : jsstring) : M World jsstring :=
  call (OpReadTextFile p) (fun w =>
    match textFiles w p with
    | Some body => (Resolved body, w)
    | None => (Rejected, w)
    end).

Definition writeTextFile (p content : jsstring) : M World unit :=
  call (OpWriteTextFile p content) (fun w =>
    (Resolved tt,
     withFiles (update (textFiles w) p (Some content))
               (update (present w) p true) w)).

Definition exists_ (p : jsstring) : M World bool :=
  call (OpExists p) (fun w => (Resolved (present w p), w)).

(** Where the entry now at [q] was before [rename(oldPath, newPath)], when
    it was moved by it. *)
Definition movedFrom (oldPath newPath q : jsstring) : option jsstring :=
  if Js.eqb q newPath then Some oldPath
  else if startsWith q (newPath ++ str "/")
       then Some (oldPath ++ skipn (length newPath) q)
       else None.

Definition rename (oldPath newPath : jsstring) : M World unit :=
  call (OpRename oldPath newPath) (fun w =>
    if negb (present w oldPath) then (Rejected, w)
    else
      let gone q :=
        Js.eqb q oldPath || startsWith q (oldPath ++ str "/") in
      let t q :=
        match movedFrom oldPath newPath q with
        | Some q0 => textFiles w q0
        | None => if gone q then None else textFiles w q
        end in
      let p q :=
        match movedFrom oldPath newPath q with
        | Some q0 => present w q0
        | None => if gone q then false else present w q
        end in
      (Resolved tt, withFiles t p w)).

(** [Store.load], called once by [getMetaStore]. *)
Definition getMetaStore : M World unit :=
  fun w =>
    if storeLoaded w then (Resolved tt, w)
    else call OpStoreLoad (fun w' =>
           (Resolved tt,
            withStore true (storeSaved w') (storeSaved w') w')) w.

Definition storeSet (key : jsstring) (value : list jsstring)
  : M World unit :=
  call (OpStoreSet key value) (fun w =>
    (Resolved tt,
     withStore (storeLoaded w) (update (storeEntries w) key (Some value))
               (storeSaved w) w)).

Definition storeSave : M World unit :=
  call OpStoreSave (fun w =>
    (Resolved tt,
     withStore (storeLoaded w) (storeEntries w) (storeEntries w) w)).

End Storage.

Import Storage.
Local Open Scope js_scope.


(* ===================================================================== *)
(** ** Path guard, tree builder and mutators (src/lib/fileSystem.ts) *)
(* ===================================================================== *)

Module FileSystem.

(** The class of reserved characters: less-than, greater-than, colon,
    double quote, bar, question mark, asterisk and U+0000-U+001F. *)
Definition isReserved (c : ascii) : bool :=
  let n := code c in
  (n =? 60) || (n =? 62) || (n =? 58) || (n =? 34) || (n =? 124)
  || (n =? 63) || (n =? 42) || (n <=? 31).

(** The class of path separators: slash and backslash. *)
Definition isSeparator (c : ascii) : bool :=
  let n := code c in (n =? 47) || (n =? 92).

Definition isValidName (name : jsstring) : bool :=
  if Js.eqb name [] || Js.eqb (trim name) [] then false
  else if includes name (str "..") || includes name (str "/")
          || includes name [chr 92] then false
  else if startsWith name (str ".") then false
  else if existsb isReserved name then false
  else true.

(** [name.replace(/\.\./g, empty)]: the matches are found left to right and
    do not overlap. *)
Fixpoint removeDotDot (s : jsstring) : jsstring :=
  match s with
  | [] => []
  | c :: rest =>
      match rest with
      | d :: rest' =>
          if (code c =? 46) && (code d =? 46) then removeDotDot rest'
          else c :: removeDotDot rest
      | [] => [c]
      end
  end.

Definition sanitizeFileName (name : jsstring) : jsstring :=
  trim (removeAll isReserved (removeAll isSeparator (removeDotDot name))).

(** What [readDir] finds on disk.  A folder entry carries what [readDir]
    gives for that folder in turn: its entries, or [None] when the call
    rejects. *)
Local Unset Elimination Schemes.
Inductive DirEntry : Type :=
| FileEntry (name : jsstring)
| FolderEntry (name : jsstring) (listing : option (list DirEntry)).
Local Set Elimination Schemes.

Section DirEntryInduction.
Variable P : DirEntry -> Prop.
Hypothesis file : forall n, P (FileEntry n).
Hypothesis unreadable : forall n, P (FolderEntry n None).
Hypothesis folder :
  forall n entries, Forall P entries -> P (FolderEntry n (Some entries)).

Fixpoint DirEntry_induction (e : DirEntry) : P e :=
  match e with
  | FileEntry n => file n
  | FolderEntry n None => unreadable n
  | FolderEntry n (Some entries) =>
      folder n
        ((fix all (l : list DirEntry) : Forall P l :=
            match l with
            | [] => Forall_nil P
            | x :: l' => Forall_cons x (DirEntry_induction x) (all l')
            end) entries)
  end.
End DirEntryInduction.

Definition entryName (e : DirEntry) : jsstring :=
  match e with
  | FileEntry n => n
  | FolderEntry n _ => n
  end.

Section TreeBuilder.
(** [String.prototype.localeCompare] belongs to the host's collation
    library; its sign is all the code uses. *)
Variable localeCompare : jsstring -> jsstring -> Z.

(** The comparator given to [nodes.sort]. *)
Definition compareNodes (a b : FileNode) : Z :=
  if isDirectory a && negb (isDirectory b) then (-1)%Z
  else if negb (isDirectory a) && isDirectory b then 1%Z
  else localeCompare (name a) (name b).

(** The [try] block, given one iteration of its loop. *)
Definition readWith (iteration : jsstring -> DirEntry -> option FileNode)
  (path : jsstring) (listing : option (list DirEntry)) : list FileNode :=
  match listing with
  | None => []
  | Some entries => arraySort compareNodes (filterMap (iteration path) entries)
  end.

(** One iteration of the loop over the entries: the node pushed, or
    [None] for [continue]. *)
Fixpoint nodeOfEntry (path : jsstring) (entry : DirEntry)
  : option FileNode :=
  match entry with
  | FileEntry n =>
      if startsWith n (str ".") then None
      else if negb (endsWith n (str ".md")) then None
      else Some (mkFileNode n (path ++ str "/" ++ n) false None None)
  | FolderEntry n listing =>
      if startsWith n (str ".") then None
      else
        let fullPath := path ++ str "/" ++ n in
        Some (mkFileNode n fullPath true
                (Some (readWith nodeOfEntry fullPath listing)) None)
  end.

Definition readNotesDirectory (path : jsstring)
  (listing : option (list DirEntry)) : list FileNode :=
  readWith nodeOfEntry path listing.
End TreeBuilder.

Definition moveItem (sourcePath targetFolder : jsstring)
  : M World (option jsstring) :=
  let itemName :=
    substringFrom sourcePath
      (match lastIndexOf sourcePath (chr 47) with
       | Some i => i + 1
       | None => 0
       end) in
  if negb (isValidName itemName) then ret None
  else
    let newPath := targetFolder ++ str "/" ++ itemName in
    if Js.eqb targetFolder sourcePath
       || startsWith targetFolder (sourcePath ++ str "/")
    then ret None
    else if Js.eqb newPath sourcePath then ret None
    else
      tryCatch
        (targetExists <- exists_ newPath ;;
         if (targetExists : bool) then ret None
         else rename sourcePath newPath ;; ret (Some newPath))
        (ret None).

End FileSystem.

Import FileSystem.

(* ===================================================================== *)
(** ** The note store (src/store/noteStore.ts) *)
(* ===================================================================== *)

Module Backlink.
Record t : Type := mk { path : jsstring; name : jsstring; context : jsstring }.
End Backlink.

Module TagInfo.
Record t : Type := mk { tag : jsstring; count : nat }.
End TagInfo.

Module NoteStore.

(** The fields of [NoteState] that the modelled actions read or write. *)
Record NoteState : Type := mkNoteState {
  files : list FileNode;
  currentNote : option jsstring;
  content : jsstring;
  isDirty : bool;
  isLoading : bool;
  isSaving : bool;
  favorites : list jsstring;
  recentNotes : list jsstring;
  backlinks : list Backlink.t;
  allTags : list TagInfo.t
}.

Definition initialState : NoteState :=
  mkNoteState [] None [] false false false [] [] [] [].

(** The store and the world it runs in. *)
Record App : Type := mkApp { store : NoteState; world : World }.

Definition Action (A : Type) : Type := M App A.

(** [get()] *)
Definition get : Action NoteState := gets store.

(** [set(partial)] *)
Definition set (f : NoteState -> NoteState) : Action unit :=
  modify (fun a => mkApp (f (store a)) (world a)).

(** A call to the storage back end. *)
Definition io {A} (m : M World A) : Action A :=
  zoom world (fun w a => mkApp (store a) w) m.

Definition withFilesOf (x : list FileNode) (s : NoteState) : NoteState :=
  mkNoteState x (currentNote s) (content s) (isDirty s) (isLoading s)
    (isSaving s) (favorites s) (recentNotes s) (backlinks s) (allTags s).
Definition withCurrentNote (x : option jsstring) (s : NoteState) : NoteState :=
  mkNoteState (files s) x (content s) (isDirty s) (isLoading s)
    (isSaving s) (favorites s) (recentNotes s) (backlinks s) (allTags s).
Definition withContent (x : jsstring) (s : NoteState) : NoteState :=
  mkNoteState (files s) (currentNote s) x (isDirty s) (isLoading s)
    (isSaving s) (favorites s) (recentNotes s) (backlinks s) (allTags s).
Definition withIsDirty (x : bool) (s : NoteState) : NoteState :=
  mkNoteState (files s) (currentNote s) (content s) x (isLoading s)
    (isSaving s) (favorites s) (recentNotes s) (backlinks s) (allTags s).
Definition withIsLoading (x : bool) (s : NoteState) : NoteState :=
  mkNoteState (files s) (currentNote s) (content s) (isDirty s) x
    (isSaving s) (favorites s) (recentNotes s) (backlinks s) (allTags s).
Definition withIsSaving (x : bool) (s : NoteState) : NoteState :=
  mkNoteState (files s) (currentNote s) (content s) (isDirty s) (isLoading s)
    x (favorites s) (recentNotes s) (backlinks s) (allTags s).
Definition withFavorites (x : list jsstring) (s : NoteState) : NoteState :=
  mkNoteState (files s) (currentNote s) (content s) (isDirty s) (isLoading s)
    (isSaving s) x (recentNotes s) (backlinks s) (allTags s).
Definition withRecentNotes (x : list jsstring) (s : NoteState) : NoteState :=
  mkNoteState (files s) (currentNote s) (content s) (isDirty s) (isLoading s)
    (isSaving s) (favorites s) x (backlinks s) (allTags s).
Definition withBacklinks (x : list Backlink.t) (s : NoteState) : NoteState :=
  mkNoteState (files s) (currentNote s) (content s) (isDirty s) (isLoading s)
    (isSaving s) (favorites s) (recentNotes s) x (allTags s).
Definition withAllTags (x : list TagInfo.t) (s : NoteState) : NoteState :=
  mkNoteState (files s) (currentNote s) (content s) (isDirty s) (isLoading s)
    (isSaving s) (favorites s) (recentNotes s) (backlinks s) x.

(** [markFavorites] of [setFiles] and [updateFavorites] of [toggleFavorite]:
    the same function of the favorites array. *)
Fixpoint markNode (favs : list jsstring) (node : FileNode) : FileNode :=
  match node with
  | mkFileNode n p d ch _ =>
      mkFileNode n p d
        (match ch with
         | Some kids => Some (map (markNode favs) kids)
         | None => None
         end)
        (Some (arrayIncludes favs p))
  end.

Definition markFavorites (favs : list jsstring) (nodes : list FileNode)
  : list FileNode := map (markNode favs) nodes.

Definition updateFavorites := markFavorites.

Definition setFiles (fs : list FileNode) : Action unit :=
  s <- get ;;
  set (withFilesOf (markFavorites (favorites s) fs)).

Definition setCurrentNote (p : option jsstring) : Action unit :=
  set (withCurrentNote p).

Definition setContent (value : jsstring) : Action unit :=
  s <- get ;;
  set (fun s' =>
         withIsDirty (match currentNote s with Some _ => true | None => false end)
           (withContent value s')).

Definition setIsDirty (b : bool) : Action unit := set (withIsDirty b).

Definition setIsSaving (b : bool) : Action unit := set (withIsSaving b).

(** The [try] block of [loadNote]. *)
Definition loadNoteTry (path : jsstring) : Action unit :=
  body <- io (readTextFile path) ;;
  s <- get ;;
  let updated :=
    sliceTo 10
      (path :: filter (fun p => negb (Js.eqb p path)) (recentNotes s)) in
  io getMetaStore ;;
  io (storeSet (str "recentNotes") updated) ;;
  io storeSave ;;
  set (fun s' =>
         withRecentNotes updated
           (withIsLoading false
              (withIsDirty false
                 (withContent body (withCurrentNote (Some path) s'))))).

Definition loadNote (path : jsstring) : Action unit :=
  set (withIsLoading true) ;;
  tryCatch (loadNoteTry path) (set (withIsLoading false)).

(** [loadNote] succeeds when its [try] block runs to the end. *)
Definition loadNoteSucceeds (path : jsstring) (a : App) : Prop :=
  fst (loadNoteTry path (snd (set (withIsLoading true) a))) = Resolved tt.

Definition saveNote : Action unit :=
  s <- get ;;
  match currentNote s with
  | Some p =>
      if negb (truthy (currentNote s)) || negb (isDirty s) then ret tt
      else
        tryCatch (io (writeTextFile p (content s)) ;; set (withIsDirty false))
                 (ret tt)
  | None => ret tt
  end.

Definition toggleFavorite (path : jsstring) : Action unit :=
  s <- get ;;
  let isFav := arrayIncludes (favorites s) path in
  let updated :=
    if isFav then filter (fun p => negb (Js.eqb p path)) (favorites s)
    else favorites s ++ [path] in
  io getMetaStore ;;
  io (storeSet (str "favorites") updated) ;;
  io storeSave ;;
  set (fun s' =>
         withFilesOf (updateFavorites updated (files s))
           (withFavorites updated s')).

(** *** Backlinks *)

(** The syntax characters of a pattern; the class that [findBacklinks]
    escapes in the note name lists the same fourteen. *)
Definition isSyntaxCharacter (c : ascii) : bool :=
  existsb (fun n => code c =? n)
    [46; 42; 43; 63; 94; 36; 123; 125; 40; 41; 124; 91; 93; 92].

(** [noteName.replace(/[.*+?^${}()|[\]\\]/g, '\\$&')]: a backslash before
    every syntax character. *)
Definition escapeRegExp (s : jsstring) : jsstring :=
  flat_map (fun c => if isSyntaxCharacter c then [chr 92; c] else [c]) s.

(** A pattern made of pattern characters and identity escapes only matches
    one literal string; [None] for any other pattern source. *)
Fixpoint literalOf (source : jsstring) : option jsstring :=
  match source with
  | [] => Some []
  | c :: rest =>
      if code c =? 92 then
        match rest with
        | d :: rest' =>
            if isSyntaxCharacter d
            then option_map (cons d) (literalOf rest')
            else None
        | [] => None
        end
      else if isSyntaxCharacter c then None
      else option_map (cons c) (literalOf rest)
  end.

(** Canonicalize of the [i] flag without the [u] flag: the upper-case
    mapping when it is a single code unit (U+00FF goes to U+0178 and U+00B5
    to U+039C; U+00DF has none). *)
Definition canonicalize (c : ascii) : nat :=
  let n := code c in
  if ((97 <=? n) && (n <=? 122))
     || ((224 <=? n) && (n <=? 254) && negb (n =? 247))
  then n - 32
  else if n =? 255 then 376
  else if n =? 181 then 924
  else n.

(** Does the literal match at the start of [s], ignoring case? *)
Fixpoint matchesHere (lit s : jsstring) : bool :=
  match lit, s with
  | [], _ => true
  | x :: lit', y :: s' =>
      (canonicalize x =? canonicalize y) && matchesHere lit' s'
  | _ :: _, [] => false
  end.

(** The first index at or after [i] where the literal matches; [s] is the
    input from index [i] on. *)
Fixpoint firstMatch (lit s : jsstring) (i : nat) : option nat :=
  if matchesHere lit s then Some i
  else match s with
       | [] => None
       | _ :: s' => firstMatch lit s' (S i)
       end.

(** [searchPattern.test(line)] for a pattern with the [g] flag: the search
    starts at [lastIndex], a match moves [lastIndex] to its end, and a
    failure resets [lastIndex] to 0.  Returns the answer and the new
    [lastIndex]. *)
Definition test (lit line : jsstring) (lastIndex : nat) : bool * nat :=
  if length line <? lastIndex then (false, 0)
  else match firstMatch lit (skipn lastIndex line) lastIndex with
       | Some i => (true, i + length lit)
       | None => (false, 0)
       end.

(** The [for] loop over the lines of one note, up to its [break]: the line
    that was pushed, if any, and [lastIndex] afterwards. *)
Fixpoint firstMatchingLine (lit : jsstring) (lines : list jsstring)
  (lastIndex : nat) : option jsstring * nat :=
  match lines with
  | [] => (None, lastIndex)
  | line :: rest =>
      let (hit, lastIndex') := test lit line lastIndex in
      if hit then (Some line, lastIndex')
      else firstMatchingLine lit rest lastIndex'
  end.

(** [name.replace(/\.md$/, empty)] *)
Definition stripMd (n : jsstring) : jsstring :=
  if endsWith n (str ".md") then firstn (length n - 3) n else n.

(** The variables [findBacklinks] closes over while it walks the tree. *)
Record BacklinkScan : Type := mkBacklinkScan {
  found : list Backlink.t;
  lastIndex : nat
}.

Definition Scan (L A : Type) : Type := M (L * World) A.

Definition local {L A} (f : L -> A) : Scan L A := gets (fun s => f (fst s)).
Definition setLocal {L} (f : L -> L) : Scan L unit :=
  modify (fun s => (f (fst s), snd s)).
Definition disk {L A} (m : M World A) : Scan L A :=
  zoom snd (fun w s => (fst s, w)) m.

Section FindBacklinks.
Variable lit : jsstring.

Definition scanNote (node : FileNode) : Scan BacklinkScan unit :=
  tryCatch
    (body <- disk (readTextFile (path node)) ;;
     let lines := splitLines body in
     st <- local (fun st => st) ;;
     let (hit, lastIndex') := firstMatchingLine lit lines (lastIndex st) in
     setLocal (fun _ =>
       match hit with
       | Some line =>
           mkBacklinkScan
             (found st ++
              [Backlink.mk (path node) (stripMd (name node))
                 (sliceTo 100 (trim line))])
             lastIndex'
       | None => mkBacklinkScan (found st) lastIndex'
       end))
    (ret tt).

Fixpoint searchInNode (node : FileNode) : Scan BacklinkScan unit :=
  match node with
  | mkFileNode _ p d ch _ =>
      match d, ch with
      | true, Some kids => forEach searchInNode kids
      | _, _ => if endsWith p (str ".md") then scanNote node else ret tt
      end
  end.

Definition searchInFiles (nodes : list FileNode) : Scan BacklinkScan unit :=
  forEach searchInNode nodes.
End FindBacklinks.

Definition findBacklinks (noteName : jsstring) : Action unit :=
  s <- get ;;
  let escapedName := escapeRegExp noteName in
  match literalOf (str "\[\[" ++ escapedName ++ str "\]\]") with
  | None => throw
  | Some lit =>
      fun a =>
        let (_, r) := searchInFiles lit (files s) (mkBacklinkScan [] 0, world a) in
        (Resolved tt, mkApp (withBacklinks (found (fst r)) (store a)) (snd r))
  end.

(** *** Tags *)

(** The class [[a-zA-Z0-9_-]]. *)
Definition isTagChar (c : ascii) : bool :=
  isLetter c || isDigit c || (code c =? 95) || (code c =? 45).

(** [tagRegex] tried at one position: [prev] is the code unit before it
    ([None] at the start of the input, where the look-behind succeeds by
    its second alternative) and [s] the input from that position on.  The
    result is the first capture group. *)
Definition tagAt (prev : option ascii) (s : jsstring) : option jsstring :=
  let behind :=
    match prev with
    | None => true
    | Some c => isSpace c
    end in
  match s with
  | h :: rest =>
      if behind && (code h =? 35) then
        match rest with
        | d :: _ => if isLetter d then Some (takeWhile isTagChar rest) else None
        | [] => None
        end
      else None
  | [] => None
  end.

(** The leftmost match at or after index [i]: the group and the end of the
    match. *)
Fixpoint execFrom (prev : option ascii) (s : jsstring) (i : nat)
  : option (jsstring * nat) :=
  match tagAt prev s with
  | Some group => Some (group, i + 1 + length group)
  | None =>
      match s with
      | [] => None
      | c :: s' => execFrom (Some c) s' (S i)
      end
  end.

(** [tagRegex.exec(content)] with the [g] flag: the group of the match, if
    any, and the new [lastIndex]. *)
Definition exec (content : jsstring) (lastIndex : nat)
  : option jsstring * nat :=
  if length content <? lastIndex then (None, 0)
  else
    let prev :=
      if lastIndex =? 0 then None else nth_error content (lastIndex - 1) in
    match execFrom prev (skipn lastIndex content) lastIndex with
    | Some (group, e) => (Some group, e)
    | None => (None, 0)
    end.

(** [Map<string, number>]: the entries in insertion order. *)
Definition TagMap : Type := list (jsstring * nat).

Fixpoint mapGet (m : TagMap) (k : jsstring) : option nat :=
  match m with
  | [] => None
  | (k', v) :: m' => if Js.eqb k' k then Some v else mapGet m' k
  end.

(** [m.set(k, v)]: an existing key keeps its place. *)
Fixpoint mapSet (m : TagMap) (k : jsstring) (v : nat) : TagMap :=
  match m with
  | [] => [(k, v)]
  | (k', v') :: m' =>
      if Js.eqb k' k then (k', v) :: m' else (k', v') :: mapSet m' k v
  end.

(** [x || 0] *)
Definition orZero (x : option nat) : nat :=
  match x with
  | Some n => n
  | None => 0
  end.

Record TagScan : Type := mkTagScan {
  tagCounts : TagMap;
  tagLastIndex : nat
}.

(** The [while ((match = tagRegex.exec(content)) !== null)] loop.  Every
    match is at least two code units long, so [length content] rounds and
    the final failing call are enough ([execAll_fuel] below). *)
Fixpoint execAll (fuel : nat) (content : jsstring) (st : TagScan) : TagScan :=
  match fuel with
  | 0 => st
  | S fuel' =>
      match exec content (tagLastIndex st) with
      | (Some group, e) =>
          let tag := toLowerCase group in
          execAll fuel' content
            (mkTagScan
               (mapSet (tagCounts st) tag (orZero (mapGet (tagCounts st) tag) + 1))
               e)
      | (None, e) => mkTagScan (tagCounts st) e
      end
  end.

Definition scanTagsOfNote (node : FileNode) : Scan TagScan unit :=
  tryCatch
    (body <- disk (readTextFile (path node)) ;;
     setLocal (execAll (S (length body)) body))
    (ret tt).

Fixpoint scanNode (node : FileNode) : Scan TagScan unit :=
  match node with
  | mkFileNode _ p d ch _ =>
      match d, ch with
      | true, Some kids => forEach scanNode kids
      | _, _ => if endsWith p (str ".md") then scanTagsOfNote node else ret tt
      end
  end.

Definition scanFiles (nodes : list FileNode) : Scan TagScan unit :=
  forEach scanNode nodes.

(** The comparator [(a, b) => b.count - a.count]. *)
Definition byCountDescending (a b : TagInfo.t) : Z :=
  (Z.of_nat (TagInfo.count b) - Z.of_nat (TagInfo.count a))%Z.

Definition scanAllTags : Action unit :=
  s <- get ;;
  fun a =>
    let (_, r) := scanFiles (files s) (mkTagScan [] 0, world a) in
    let tags :=
      arraySort byCountDescending
        (map (fun e => TagInfo.mk (fst e) (snd e)) (tagCounts (fst r))) in
    (Resolved tt, mkApp (withAllTags tags (store a)) (snd r)).

End NoteStore.

Import NoteStore.

(* ===================================================================== *)
(** ** The heading extractor (src/hooks/useMarkdownHeadings.ts) *)
(* ===================================================================== *)

Module Heading.
Record t : Type := mk {
  id : jsstring;
  text : jsstring;
  level : nat;
  line : nat
}.
End Heading.

Module Headings.

(** The lengths a greedy quantifier tries, longest first: [n], ..., 1. *)
Fixpoint downFrom (n : nat) : list nat :=
  match n with
  | 0 => []
  | S m => n :: downFrom m
  end.

(** The first alternative that lets the rest of the pattern match. *)
Fixpoint firstSome {A B} (f : A -> option B) (l : list A) : option B :=
  match l with
  | [] => None
  | x :: l' =>
      match f x with
      | Some y => Some y
      | None => firstSome f l'
      end
  end.

Definition isHash (c : ascii) : bool := code c =? 35.

(** [(.+)$]: the rest of the line, not empty and free of line terminators. *)
Definition restOfLine (s : jsstring) : option jsstring :=
  match s with
  | [] => None
  | _ :: _ => if forallb (fun c => negb (isLineTerminator c)) s then Some s else None
  end.

(** [headingRegex.exec(line)]: the two capture groups.  The backtracking
    matcher tries one to six of the leading hashes, most first, then each
    length of the white space that follows, longest first. *)
Definition headingRegexExec (line : jsstring) : option (jsstring * jsstring) :=
  let hashes := Nat.min 6 (length (takeWhile isHash line)) in
  firstSome
    (fun k =>
       let afterHashes := skipn k line in
       let spaces := length (takeWhile isSpace afterHashes) in
       firstSome
         (fun j =>
            match restOfLine (skipn j afterHashes) with
            | Some rest => Some (firstn k line, rest)
            | None => None
            end)
         (downFrom spaces))
    (downFrom hashes).

(** [.replace(/\s+/g, dash)]: [inRun] tells that the code unit before was
    white space already replaced. *)
Fixpoint dashRuns (inRun : bool) (s : jsstring) : jsstring :=
  match s with
  | [] => []
  | c :: s' =>
      if isSpace c then
        if inRun then dashRuns true s' else chr 45 :: dashRuns true s'
      else c :: dashRuns false s'
  end.

(** The class [[^\w\s-]]. *)
Definition isStripped (c : ascii) : bool :=
  negb (isWord c || isSpace c || (code c =? 45)).

Definition slug (text : jsstring) : jsstring :=
  dashRuns false (removeAll isStripped (toLowerCase text)).

(** [lines.forEach((line, index) => ...)] *)
Fixpoint headingsFrom (index : nat) (lines : list jsstring) : list Heading.t :=
  match lines with
  | [] => []
  | l :: rest =>
      match headingRegexExec l with
      | Some (m1, m2) =>
          let text := trim m2 in
          Heading.mk (slug text) text (length m1) (index + 1)
            :: headingsFrom (S index) rest
      | None => headingsFrom (S index) rest
      end
  end.

Definition useMarkdownHeadings (content : jsstring) : list Heading.t :=
  headingsFrom 0 (splitLines content).

End Headings.

Import Headings.

(* ===================================================================== *)
(** ** Auto-save of the editor (src/components/Editor/MarkdownEditor.tsx) *)
(* ===================================================================== *)

Module Editor.

(** What one render of the component read from the store.  The closures
    made by that render ([handleChange], the flush effect and its clean-up)
    see these values, not the live store. *)
Record Render : Type := mkRender {
  renderedNote : option jsstring;
  renderedContent : jsstring;
  renderedIsDirty : bool
}.

(** The refs of the component instance and its last committed render.
    [saveTimeoutRef] holds the armed timeout, as the [currentNote] its
    callback closed over; the id of a timeout that has fired stays in the
    ref in the source, but clearing it does nothing, so it is [None] here. *)
Record Component : Type := mkComponent {
  saveTimeoutRef : option (option jsstring);
  pendingSaveRef : option (jsstring * jsstring);
  rendered : Render
}.

Record Sys : Type := mkSys { application : App; editor : Component }.

Definition renderOf (s : NoteState) : Render :=
  mkRender (currentNote s) (content s) (isDirty s).

(** An action of the store, called from the component. *)
Definition inStore {A} (m : Action A) : M Sys A :=
  zoom application (fun a s => mkSys a (editor s)) m.

Definition setTimeoutRef (t : option (option jsstring)) : M Sys unit :=
  modify (fun s =>
    mkSys (application s)
      (mkComponent t (pendingSaveRef (editor s)) (rendered (editor s)))).

Definition setPendingSaveRef (p : option (jsstring * jsstring)) : M Sys unit :=
  modify (fun s =>
    mkSys (application s)
      (mkComponent (saveTimeoutRef (editor s)) p (rendered (editor s)))).

Definition setRendered (r : Render) : M Sys unit :=
  modify (fun s =>
    mkSys (application s)
      (mkComponent (saveTimeoutRef (editor s)) (pendingSaveRef (editor s)) r)).

(** [pending.path === currentNote] *)
Definition isNote (p : jsstring) (n : option jsstring) : bool :=
  match n with
  | Some q => Js.eqb p q
  | None => false
  end.

(** The callback given to [window.setTimeout] by [handleChange]. *)
Definition autoSave (currentNote : option jsstring) : M Sys unit :=
  c <- gets editor ;;
  match pendingSaveRef c with
  | Some (p, body) =>
      if isNote p currentNote then
        inStore (setIsSaving true) ;;
        tryCatch
          (inStore (io (writeTextFile p body)) ;; inStore (setIsDirty false))
          (ret tt) ;;
        inStore (setIsSaving false)
      else ret tt
  | None => ret tt
  end.

Definition handleChange (value : jsstring) : M Sys unit :=
  c <- gets editor ;;
  let currentNote := renderedNote (rendered c) in
  inStore (setContent value) ;;
  match currentNote with
  | Some p =>
      if truthy currentNote then setPendingSaveRef (Some (p, value))
      else ret tt
  | None => ret tt
  end ;;
  setTimeoutRef (Some currentNote).

(** The clean-up of the flush effect, with the values its render captured. *)
Definition cleanup (captured : Render) : M Sys unit :=
  setTimeoutRef None ;;
  match renderedNote captured with
  | Some p =>
      if renderedIsDirty captured && truthy (renderedNote captured) then
        tryCatch (inStore (io (writeTextFile p (renderedContent captured))))
                 (ret tt)
      else ret tt
  | None => ret tt
  end.

Definition sameDeps (a b : Render) : bool :=
  match renderedNote a, renderedNote b with
  | Some p, Some q => Js.eqb p q
  | None, None => true
  | _, _ => false
  end
  && Js.eqb (renderedContent a) (renderedContent b)
  && Bool.eqb (renderedIsDirty a) (renderedIsDirty b).

(** A change of the store re-renders the component before the next event is
    handled; when a dependency of the flush effect changed, the clean-up of
    the previous effect runs and the new effect captures the new values. *)
Definition commit : M Sys unit :=
  s <- gets (fun s => s) ;;
  let now := renderOf (store (application s)) in
  if sameDeps now (rendered (editor s)) then ret tt
  else cleanup (rendered (editor s)) ;; setRendered now.

Inductive Event : Type :=
| Change (value : jsstring)
| Timeout
| Open (path : jsstring)
| Save
| SetCurrentNote (path : option jsstring).

Definition handle (e : Event) : M Sys unit :=
  match e with
  | Change value => handleChange value
  | Timeout =>
      c <- gets editor ;;
      match saveTimeoutRef c with
      | Some closed => setTimeoutRef None ;; autoSave closed
      | None => ret tt
      end
  | Open p => inStore (loadNote p)
  | Save => inStore saveNote
  | SetCurrentNote p => inStore (setCurrentNote p)
  end.

Definition step (e : Event) (s : Sys) : Sys :=
  snd (commit (snd (handle e s))).

Definition run (es : list Event) (s : Sys) : Sys :=
  fold_left (fun s e => step e s) es s.

(** The component as first rendered over a store. *)
Definition mount (a : App) : Sys :=
  mkSys a (mkComponent None None (renderOf (store a))).

Inductive Reachable : Sys -> Prop :=
| ReachMount (a : App) : Reachable (mount a)
| ReachStep (e : Event) (s : Sys) : Reachable s -> Reachable (step e s).

(** The calls to [writeTextFile] in a journal. *)
Definition writes (j : list StorageOp) : list (jsstring * jsstring) :=
  filterMap (fun op =>
    match op with
    | OpWriteTextFile p c => Some (p, c)
    | _ => None
    end) j.

Definition journalOf (s : Sys) : list StorageOp := journal (world (application s)).

End Editor.

Import Editor.

(* ===================================================================== *)
(** ** More mutators (src/lib/fileSystem.ts) *)
(* ===================================================================== *)

Module Mutators.

(** [s.replace(pattern, empty)] for a string pattern: only the first
    occurrence goes. *)
Fixpoint removeFirst (s pat : jsstring) : jsstring :=
  if startsWith s pat then skipn (length pat) s
  else match s with
       | [] => []
       | c :: s' => c :: removeFirst s' pat
       end.

Definition createNote (folder name : jsstring) : M World (option jsstring) :=
  let sanitizedName := sanitizeFileName name in
  if negb (isValidName sanitizedName) then ret None
  else
    let fileName :=
      if endsWith sanitizedName (str ".md") then sanitizedName
      else sanitizedName ++ str ".md" in
    let filePath := folder ++ str "/" ++ fileName in
    tryCatch
      (fileExists <- exists_ filePath ;;
       if (fileExists : bool) then throw
       else
         writeTextFile filePath
           (str "# " ++ removeFirst sanitizedName (str ".md")
            ++ [chr 10; chr 10]) ;;
         ret (Some filePath))
      (ret None).

Definition renameItem (oldPath newName : jsstring)
  : M World (option jsstring) :=
  let sanitizedName := sanitizeFileName newName in
  if negb (isValidName sanitizedName) then ret None
  else
    let parentPath :=
      substringTo oldPath
        (match lastIndexOf oldPath (chr 47) with
         | Some i => i
         | None => 0
         end) in
    let newPath := parentPath ++ str "/" ++ sanitizedName in
    tryCatch (rename oldPath newPath ;; ret (Some newPath)) (ret None).

End Mutators.

Import Mutators.

(* ===================================================================== *)
(** ** Views of the tree (FileTree.tsx, TreeNode.tsx, MarkdownPreview.tsx) *)
(* ===================================================================== *)

Module TreeViews.

(** Truthiness of the optional [isFavorite]. *)
Definition isMarked (node : FileNode) : bool :=
  match isFavorite node with
  | Some true => true
  | _ => false
  end.

(** One iteration of the loop of [findFavorites]. *)
Fixpoint favoritesOfNode (node : FileNode) : list FileNode :=
  (if isMarked node then [node] else [])
  ++ match children node with
     | Some kids => flat_map favoritesOfNode kids
     | None => []
     end.

Definition findFavorites (nodes : list FileNode) : list FileNode :=
  flat_map favoritesOfNode nodes.

(** The first answer of a loop that returns from inside. *)
Section FirstOf.
Variables A B : Type.
Variable f : A -> option B.

Fixpoint firstOf (l : list A) : option B :=
  match l with
  | [] => None
  | x :: l' =>
      match f x with
      | Some y => Some y
      | None => firstOf l'
      end
  end.
End FirstOf.

(** One iteration of the loop of [findByPath]. *)
Fixpoint findInNode (p : jsstring) (node : FileNode) : option FileNode :=
  if Js.eqb (path node) p then Some node
  else match children node with
       | Some kids => firstOf (findInNode p) kids
       | None => None
       end.

Definition findByPath (nodes : list FileNode) (p : jsstring)
  : option FileNode :=
  firstOf (findInNode p) nodes.

(** The memo [recentFiles] of the file tree. *)
Definition recentFiles (files : list FileNode) (recentNotes : list jsstring)
  : list FileNode :=
  sliceTo 5 (filterMap (findByPath files) recentNotes).

(** One iteration of the loop of [collectFolders]. *)
Fixpoint foldersOfNode (currentPath : jsstring) (node : FileNode)
  : list FileNode :=
  if isDirectory node && negb (Js.eqb (path node) currentPath) then
    node ::
    match children node with
    | Some kids => flat_map (foldersOfNode currentPath) kids
    | None => []
    end
  else [].

Definition collectFolders (nodes : list FileNode) (currentPath : jsstring)
  : list FileNode :=
  flat_map (foldersOfNode currentPath) nodes.

Definition getAvailableFolders (files : list FileNode) (node : FileNode)
  : list FileNode :=
  let currentParent :=
    substringTo (path node)
      (match lastIndexOf (path node) (chr 47) with
       | Some i => i
       | None => 0
       end) in
  filter (fun f => negb (Js.eqb (path f) currentParent))
    (collectFolders files (path node)).

(** One iteration of the loop of [findNoteByName]. *)
Fixpoint noteNamedIn (searchName : jsstring) (node : FileNode)
  : option FileNode :=
  if negb (isDirectory node)
     && Js.eqb (toLowerCase (stripMd (name node))) searchName
  then Some node
  else match children node with
       | Some kids => firstOf (noteNamedIn searchName) kids
       | None => None
       end.

Definition findNoteByName (n : jsstring) (nodes : list FileNode)
  : option FileNode :=
  firstOf (noteNamedIn (toLowerCase n)) nodes.

End TreeViews.

Import TreeViews.

(* ===================================================================== *)
(** ** Word statistics (src/hooks/useWordCount.ts) *)
(* ===================================================================== *)

Module WordCount.

Record WordStats : Type := mkWordStats {
  words : nat;
  characters : nat;
  readingTime : jsstring
}.

(** [text.split(/\s+/)]: the pieces between the maximal runs of white
    space; [inRun] tells that the code unit before was white space.  There
    is always at least one piece, and a piece is empty only at an end of
    the text. *)
Fixpoint splitSpaces (inRun : bool) (s : jsstring) : list jsstring :=
  match s with
  | [] => [[]]
  | c :: s' =>
      if isSpace c then
        if inRun then splitSpaces true s' else [] :: splitSpaces true s'
      else
        match splitSpaces false s' with
        | piece :: rest => (c :: piece) :: rest
        | [] => [[c]]
        end
  end.

(** The decimal digits of a number, as a template literal prints it. *)
Fixpoint digitsOf (d : Decimal.uint) : jsstring :=
  match d with
  | Decimal.Nil => []
  | Decimal.D0 d' => chr 48 :: digitsOf d'
  | Decimal.D1 d' => chr 49 :: digitsOf d'
  | Decimal.D2 d' => chr 50 :: digitsOf d'
  | Decimal.D3 d' => chr 51 :: digitsOf d'
  | Decimal.D4 d' => chr 52 :: digitsOf d'
  | Decimal.D5 d' => chr 53 :: digitsOf d'
  | Decimal.D6 d' => chr 54 :: digitsOf d'
  | Decimal.D7 d' => chr 55 :: digitsOf d'
  | Decimal.D8 d' => chr 56 :: digitsOf d'
  | Decimal.D9 d' => chr 57 :: digitsOf d'
  end.

Definition numberToString (n : nat) : jsstring := digitsOf (Nat.to_uint n).

(** [Math.ceil(a / b)] for a count [a] and a positive [b]. *)
Definition ceilDiv (a b : nat) : nat := (a + (b - 1)) / b.

Definition useWordCount (content : jsstring) : WordStats :=
  let text := trim content in
  match text with
  | [] => mkWordStats 0 0 (str "0 min")
  | _ :: _ =>
      let words :=
        length (filter (fun word => 0 <? length word)
                  (splitSpaces false text)) in
      let characters := length text in
      let minutes := ceilDiv words 200 in
      let readingTime :=
        if minutes =? 1 then str "1 min"
        else numberToString minutes ++ str " min" in
      mkWordStats words characters readingTime
  end.

End WordCount.

Import WordCount.

(* ===================================================================== *)
(** ** Full-text search (searchNotes of src/store/noteStore.ts) *)
(* ===================================================================== *)

Module Search.

Record Match : Type := mkMatch { line : nat; text : jsstring }.

Record SearchResult : Type := mkSearchResult {
  resultPath : jsstring;
  resultName : jsstring;
  matches : list Match
}.

(** The fields of [NoteState] that only searching reads or writes. *)
Record SearchState : Type := mkSearchState {
  searchQuery : jsstring;
  searchResults : list SearchResult;
  isSearching : bool
}.

Definition initialSearch : SearchState := mkSearchState [] [] false.

(** The store with its search fields, and the world it runs in. *)
Record SearchApp : Type := mkSearchApp { search : SearchState; notes : App }.

Definition setSearch (f : SearchState -> SearchState) : M SearchApp unit :=
  modify (fun a => mkSearchApp (f (search a)) (notes a)).

(** The [forEach] over the lines of a note; [index] is the index of the
    first of [lines]. *)
Fixpoint matchingLines (searchLower : jsstring) (lines : list jsstring)
  (index : nat) : list Match :=
  match lines with
  | [] => []
  | l :: rest =>
      (if includes (toLowerCase l) searchLower
       then [mkMatch (index + 1) (trim l)] else [])
      ++ matchingLines searchLower rest (S index)
  end.

Section SearchInFiles.
Variable searchLower : jsstring.

Definition searchNote (node : FileNode) : Scan (list SearchResult) unit :=
  tryCatch
    (body <- disk (readTextFile (path node)) ;;
     let lines := splitLines body in
     let matches := matchingLines searchLower lines 0 in
     if (0 <? length matches)
        || includes (toLowerCase (name node)) searchLower
     then setLocal (fun results =>
            results ++
            [mkSearchResult (path node) (name node) (sliceTo 3 matches)])
     else ret tt)
    (ret tt).

Fixpoint searchInNode (node : FileNode) : Scan (list SearchResult) unit :=
  match node with
  | mkFileNode _ p d ch _ =>
      match d, ch with
      | true, Some kids => forEach searchInNode kids
      | _, _ => if endsWith p (str ".md") then searchNote node else ret tt
      end
  end.

Definition searchInFiles (nodes : list FileNode)
  : Scan (list SearchResult) unit :=
  forEach searchInNode nodes.
End SearchInFiles.

Definition setSearchQuery (query : jsstring) : M SearchApp unit :=
  setSearch (fun s => mkSearchState query (searchResults s) (isSearching s)).

Definition clearSearch : M SearchApp unit :=
  setSearch (fun _ => mkSearchState [] [] false).

Definition searchNotes (query _notesFolder : jsstring) : M SearchApp unit :=
  match trim query with
  | [] =>
      setSearch (fun s => mkSearchState (searchQuery s) [] false)
  | _ :: _ =>
      setSearch (fun s => mkSearchState query (searchResults s) true) ;;
      tryCatch
        (s <- gets (fun a => store (notes a)) ;;
         let searchLower := toLowerCase query in
         results <-
           (fun a =>
              let (o, r) :=
                searchInFiles searchLower (files s) ([], world (notes a)) in
              (match o with
               | Resolved _ => Resolved (fst r)
               | Rejected => Rejected
               end,
               mkSearchApp (search a) (mkApp (store (notes a)) (snd r)))) ;;
         setSearch (fun s' => mkSearchState (searchQuery s') results false))
        (setSearch (fun s' =>
           mkSearchState (searchQuery s') (searchResults s') false))
  end.

End Search.

(* ===================================================================== *)
(** * Vocabulary of the statements, and sample data *)
(* ===================================================================== *)

Unset Implicit Arguments.

(** [a] may stand before [b] for a comparator. *)
Definition inOrder {A} (cmp : A -> A -> Z) (a b : A) : Prop :=
  (cmp a b <= 0)%Z.

(** The order of siblings: a directory before a file, and two nodes of
    the same kind by [localeCompare] of their names. *)
Definition siblingOrder (localeCompare : jsstring -> jsstring -> Z)
  (a b : FileNode) : Prop :=
  (isDirectory a = true /\ isDirectory b = false)
  \/ (isDirectory a = isDirectory b
      /\ (localeCompare (name a) (name b) <= 0)%Z).

(** Every list of siblings in the tree is in that order. *)
Definition sortedAtEveryLevel (localeCompare : jsstring -> jsstring -> Z)
  (tree : list FileNode) : Prop :=
  StronglySorted (siblingOrder localeCompare) tree
  /\ forall n kids,
       In n (allNodes tree) -> children n = Some kids ->
       StronglySorted (siblingOrder localeCompare) kids.

(** A world without files, where no call is refused. *)
Definition emptyWorld : World :=
  mkWorld (fun _ => None) (fun _ => false) (fun _ => false) false
          (fun _ => None) (fun _ => None) [].

(** The list [loadNote] computes from the recents. *)
Definition pushRecent (path : jsstring) (recents : list jsstring)
  : list jsstring :=
  sliceTo 10 (path :: filter (fun p => negb (Js.eqb p path)) recents).

(** A world that holds the given notes, by path, where no call is
    refused. *)
Definition noteWorld (notes : list (jsstring * jsstring)) : World :=
  mkWorld
    (fun p =>
       match find (fun e => Js.eqb (fst e) p) notes with
       | Some e => Some (snd e)
       | None => None
       end)
    (fun p => existsb (fun e => Js.eqb (fst e) p) notes)
    (fun _ => false) false (fun _ => None) (fun _ => None) [].

(** The array [toggleFavorite] computes from the favorites. *)
Definition toggled (p : jsstring) (favs : list jsstring) : list jsstring :=
  if arrayIncludes favs p
  then filter (fun q => negb (Js.eqb q p)) favs
  else favs ++ [p].

(** The calls to the key-value document. *)
Definition isStoreOp (op : StorageOp) : bool :=
  match op with
  | OpStoreLoad | OpStoreSet _ _ | OpStoreSave => true
  | _ => false
  end.

(** A folder with one note, and a note beside it. *)
Definition sampleTree : list FileNode :=
  [mkFileNode (str "work") (str "/n/work") true
     (Some [mkFileNode (str "plan.md") (str "/n/work/plan.md") false None
              (Some false)])
     (Some false);
   mkFileNode (str "a.md") (str "/n/a.md") false None (Some false)].

(** A collation to run the tree builder with: the code-unit order of the
    lower-cased names. *)
Fixpoint compareUnits (a b : jsstring) : Z :=
  match a, b with
  | [], [] => 0
  | [], _ :: _ => -1
  | _ :: _, [] => 1
  | x :: a', y :: b' =>
      if code x <? code y then -1
      else if code y <? code x then 1
      else compareUnits a' b'
  end.

Definition caseInsensitiveCompare (a b : jsstring) : Z :=
  compareUnits (toLowerCase a) (toLowerCase b).

(** What reading a path gives in a world. *)
Definition reads (w : World) (p : jsstring) : Outcome jsstring :=
  fst (readTextFile p w).

(** Two worlds hold the same note bodies when every read gives the same
    in both. *)
Definition sameBodies (w1 w2 : World) : Prop :=
  forall p, reads w1 p = reads w2 p.

(** The notes a scan visits, in order. *)
Fixpoint notePaths (node : FileNode) : list jsstring :=
  match node with
  | mkFileNode _ p d ch _ =>
      match d, ch with
      | true, Some kids => flat_map notePaths kids
      | _, _ => if endsWith p (str ".md") then [p] else []
      end
  end.

(** The world after the reads of a scan: only the journal grows. *)
Definition journalReads (paths : list jsstring) (w : World) : World :=
  fold_left (fun w p => record (OpReadTextFile p) w) paths w.

(** What one note adds to the counts. *)
Definition countNote (read : jsstring -> Outcome jsstring) (st : TagScan)
  (p : jsstring) : TagScan :=
  match read p with
  | Resolved body => execAll (S (length body)) body st
  | Rejected => st
  end.

(** The tags [scanAllTags] leaves in the store. *)
Definition tagsOf (read : jsstring -> Outcome jsstring) (tree : list FileNode)
  : list TagInfo.t :=
  arraySort byCountDescending
    (map (fun e => TagInfo.mk (fst e) (snd e))
       (tagCounts
          (fold_left (countNote read) (flat_map notePaths tree)
             (mkTagScan [] 0)))).

(** The keys of a map are distinct and, here, lower-cased. *)
Definition tagKeys (m : TagMap) : Prop :=
  NoDup (map fst m) /\ Forall (fun k => toLowerCase k = k) (map fst m).

(** The node of a note directly under the folder [/n]. *)
Definition note (n : string) : FileNode :=
  mkFileNode (str n) (str "/n/" ++ str n) false None None.

(** What the pattern of a heading line says: one to six hashes, then white
    space, then a rest without line terminator that is the second group;
    the text of the heading is that rest, trimmed. *)
Definition matchesHeading (l : jsstring) (level : nat) (text : jsstring)
  : Prop :=
  exists spaces rest,
    l = repeat (chr 35) level ++ spaces ++ rest
    /\ 1 <= level <= 6
    /\ spaces <> [] /\ Forall (fun c => isSpace c = true) spaces
    /\ rest <> [] /\ Forall (fun c => isLineTerminator c = false) rest
    /\ text = trim rest.

(** The slug as the specification words it: everything that is neither a
    word character nor white space is stripped. *)
Definition specSlug (text : jsstring) : jsstring :=
  dashRuns false
    (removeAll (fun c => negb (isWord c || isSpace c)) (toLowerCase text)).

(** A world that differs from another by calls that write no file. *)
Definition noWrite (w w' : World) : Prop :=
  textFiles w' = textFiles w
  /\ refused w' = refused w
  /\ writes (journal w') = writes (journal w).

(** The world after the clean-up of the flush effect. *)
Definition flushed (captured : Render) (w : World) : World :=
  match renderedNote captured with
  | Some p =>
      if renderedIsDirty captured && truthy (renderedNote captured)
      then snd (writeTextFile p (renderedContent captured) w)
      else w
  | None => w
  end.

(** Two notes on disk. *)
Definition twoNotes : World :=
  noteWorld [(str "/n/a.md", str "# a"); (str "/n/b.md", str "# b")].


(** The last segment of a path, as [moveItem] takes it. *)
Definition baseName (p : jsstring) : jsstring :=
  substringFrom p
    (match lastIndexOf p (chr 47) with
     | Some i => i + 1
     | None => 0
     end).

(** What is before the last slash of a path, as [renameItem] takes it. *)
Definition parentOf (p : jsstring) : jsstring :=
  substringTo p
    (match lastIndexOf p (chr 47) with
     | Some i => i
     | None => 0
     end).

(** The name of the file [createNote] makes for a sanitized name. *)
Definition noteFileName (sanitizedName : jsstring) : jsstring :=
  if endsWith sanitizedName (str ".md") then sanitizedName
  else sanitizedName ++ str ".md".

(** The body [createNote] writes for a sanitized name. *)
Definition noteTemplate (sanitizedName : jsstring) : jsstring :=
  str "# " ++ removeFirst sanitizedName (str ".md") ++ [chr 10; chr 10].

(** The favorites section of the side bar shows the nodes of the tree whose
    path is among the favorites, in document order. *)
Definition favoritesShown (s : NoteState) : Prop :=
  findFavorites (files s)
  = filter (fun n => arrayIncludes (favorites s) (path n))
      (allNodes (files s)).

(** Whether some node of a tree has a path. *)
Definition inTree (tree : list FileNode) (p : jsstring) : bool :=
  existsb (fun n => Js.eqb (path n) p) (allNodes tree).

(** The number of maximal runs of code units that are not white space: a
    run ends at a code unit that is not white space and is followed by
    white space or by nothing. *)
Fixpoint wordRuns (s : jsstring) : nat :=
  match s with
  | [] => 0
  | c :: s' =>
      (if negb (isSpace c)
          && match s' with [] => true | d :: _ => isSpace d end
       then 1 else 0) + wordRuns s'
  end.

(** A text of white space only. *)
Definition isBlankText (s : jsstring) : Prop :=
  Forall (fun c => isSpace c = true) s.

(** The words [useWordCount] counts in a text, when the code unit before
    was white space or not. *)
Definition wordsIn (r : bool) (s : jsstring) : nat :=
  length (filter (fun word => 0 <? length word) (splitSpaces r s)).

(** The notes a scan visits, in order, as nodes. *)
Fixpoint visitedNotes (node : FileNode) : list FileNode :=
  match node with
  | mkFileNode _ p d ch _ =>
      match d, ch with
      | true, Some kids => flat_map visitedNotes kids
      | _, _ => if endsWith p (str ".md") then [node] else []
      end
  end.

(** What a search records for one note it visits. *)
Definition resultOf (read : jsstring -> Outcome jsstring)
  (searchLower : jsstring) (node : FileNode) : list Search.SearchResult :=
  match read (path node) with
  | Resolved body =>
      let found := Search.matchingLines searchLower (splitLines body) 0 in
      if (0 <? length found)
         || includes (toLowerCase (name node)) searchLower
      then [Search.mkSearchResult (path node) (name node) (sliceTo 3 found)]
      else []
  | Rejected => []
  end.

(** A line of a body holds the query, whatever the case of either. *)
Definition lineHolds (query body : jsstring) (number : nat) (shown : jsstring)
  : Prop :=
  exists l,
    1 <= number
    /\ nth_error (splitLines body) (number - 1) = Some l
    /\ shown = trim l
    /\ includes (toLowerCase l) (toLowerCase query) = true.

(** A result that is backed by a note of the tree and by the disk. *)
Definition soundResult (w : World) (tree : list FileNode) (query : jsstring)
  (r : Search.SearchResult) : Prop :=
  exists node body,
    In node (allNodes tree)
    /\ Search.resultPath r = path node
    /\ Search.resultName r = name node
    /\ endsWith (path node) (str ".md") = true
    /\ reads w (path node) = Resolved body
    /\ length (Search.matches r) <= 3
    /\ StronglySorted lt (map Search.line (Search.matches r))
    /\ Forall (fun m => lineHolds query body (Search.line m) (Search.text m))
         (Search.matches r)
    /\ (Search.matches r = [] ->
        includes (toLowerCase (name node)) (toLowerCase query) = true).

(** The shape of a node that the tree builder makes for an entry of the
    folder [dir]: the path is the folder, a slash and the name; the name
    does not start with a dot; a directory has children, which have this
    shape below it; a file has none and a name that ends with [.md]. *)
Fixpoint builtUnder (dir : jsstring) (node : FileNode) : bool :=
  match node with
  | mkFileNode n p d ch _ =>
      Js.eqb p (dir ++ str "/" ++ n)
      && negb (startsWith n (str "."))
      && match ch with
         | Some kids => d && forallb (builtUnder p) kids
         | None => negb d && endsWith n (str ".md")
         end
  end.

(** The files of a tree, in document order. *)
Definition fileNodes (tree : list FileNode) : list FileNode :=
  filter (fun n => negb (isDirectory n)) (allNodes tree).

(** A line holds the wiki link to a note, whatever the case of either. *)
Definition holdsLink (noteName line : jsstring) : Prop :=
  exists pre mid post,
    line = pre ++ mid ++ post
    /\ map canonicalize mid
       = map canonicalize (str "[[" ++ noteName ++ str "]]").

(** A backlink that is backed by a note of the tree and by the disk. *)
Definition soundBacklink (w : World) (tree : list FileNode)
  (noteName : jsstring) (b : Backlink.t) : Prop :=
  exists node body l,
    In node (flat_map visitedNotes tree)
    /\ Backlink.path b = path node
    /\ Backlink.name b = stripMd (name node)
    /\ reads w (path node) = Resolved body
    /\ In l (splitLines body)
    /\ holdsLink noteName l
    /\ Backlink.context b = sliceTo 100 (trim l).

(** What holds of the scan state while the tree is walked. *)
Definition backlinkScanOk (w0 : World) (noteName : jsstring)
  (allowed : FileNode -> Prop) (bound : nat) (s : BacklinkScan * World)
  : Prop :=
  sameBodies (snd s) w0
  /\ length (found (fst s)) <= bound
  /\ Forall (fun b =>
       exists node body l,
         allowed node
         /\ Backlink.path b = path node
         /\ Backlink.name b = stripMd (name node)
         /\ reads w0 (path node) = Resolved body
         /\ In l (splitLines body)
         /\ holdsLink noteName l
         /\ Backlink.context b = sliceTo 100 (trim l))
       (found (fst s)).

(** The code units of an anchor: lower-case ASCII letters, digits, the
    underscore and the hyphen. *)
Definition isAnchorChar (c : ascii) : bool :=
  let n := code c in
  ((97 <=? n) && (n <=? 122)) || isDigit c || (n =? 95) || (n =? 45).

(** The shape of a recorded tag: a lower-case ASCII letter, then lower-case
    ASCII letters, digits, underscores and hyphens. *)
Definition isTagName (t : jsstring) : bool :=
  match t with
  | c :: _ => (97 <=? code c) && (code c <=? 122) && forallb isAnchorChar t
  | [] => false
  end.

(** Every tag of a map has the shape of a tag and was counted at least
    once. *)
Definition tagEntries (m : TagMap) : Prop :=
  Forall (fun e => isTagName (fst e) = true /\ 1 <= snd e) m.

(* ===================================================================== *)
(** * Properties *)
(* ===================================================================== *)

(** ** Strings *)

Lemma eqb_refl (a : jsstring) : Js.eqb a a = true.
Proof.
  induction a as [|x a IH]; simpl; [reflexivity|].
  now rewrite Ascii.eqb_refl, IH.
Qed.

Lemma eqb_eq (a b : jsstring) : Js.eqb a b = true <-> a = b.
Proof.
  split.
  - revert b; induction a as [|x a IH]; intros [|y b]; simpl; try discriminate.
    + reflexivity.
    + intros H. apply andb_true_iff in H as [Hx Hab].
      apply Ascii.eqb_eq in Hx. apply IH in Hab. now subst.
  - intros ->. apply eqb_refl.
Qed.

Lemma eqb_neq (a b : jsstring) : Js.eqb a b = false <-> a <> b.
Proof.
  rewrite <- eqb_eq. destruct (Js.eqb a b); split; congruence.
Qed.

Lemma startsWith_app (p rest : jsstring) : startsWith (p ++ rest) p = true.
Proof.
  induction p as [|x p IH]; simpl; [reflexivity|].
  now rewrite Ascii.eqb_refl, IH.
Qed.

Lemma startsWith_spec (s p : jsstring) :
  startsWith s p = true <-> exists rest, s = p ++ rest.
Proof.
  split.
  - revert s; induction p as [|x p IH]; intros s H.
    + now exists s.
    + destruct s as [|y s]; simpl in H; [discriminate|].
      apply andb_true_iff in H as [Hx Hs].
      apply Ascii.eqb_eq in Hx. destruct (IH _ Hs) as [rest ->].
      exists rest. now subst.
  - intros [rest ->]. apply startsWith_app.
Qed.

Lemma includes_cons (x : ascii) (s p : jsstring) :
  includes (x :: s) p = startsWith (x :: s) p || includes s p.
Proof. reflexivity. Qed.

Lemma includes_nil (p : jsstring) : includes [] p = startsWith [] p || false.
Proof. reflexivity. Qed.

Lemma includes_prefix (s p : jsstring) :
  startsWith s p = true -> includes s p = true.
Proof.
  intros H. destruct s; [rewrite includes_nil|rewrite includes_cons];
    now rewrite H.
Qed.

Lemma includes_spec (s p : jsstring) :
  includes s p = true <-> exists a b, s = a ++ p ++ b.
Proof.
  split.
  - induction s as [|x s IH]; intros H.
    + rewrite includes_nil, orb_false_r in H.
      apply startsWith_spec in H as [rest E]. now exists [], rest.
    + rewrite includes_cons in H. apply orb_true_iff in H as [H|H].
      * apply startsWith_spec in H as [rest E]. now exists [], rest.
      * destruct (IH H) as (a & b & ->). now exists (x :: a), b.
  - intros (a & b & ->). induction a as [|x a IH].
    + apply includes_prefix, (startsWith_app p b).
    + rewrite <- app_comm_cons, includes_cons, IH. apply orb_true_r.
Qed.

(** A string includes a one-unit string when it has that unit. *)
Lemma includes_unit (s : jsstring) (c : ascii) :
  includes s [c] = true <-> In c s.
Proof.
  rewrite includes_spec. split.
  - intros (a & b & ->). apply in_or_app. right. now left.
  - intros H. apply in_split in H as (a & b & ->). now exists a, b.
Qed.

Lemma trimStart_incl (s : jsstring) (c : ascii) :
  In c (trimStart s) -> In c s.
Proof.
  induction s as [|x s IH]; simpl; [easy|].
  destruct (isSpace x); [right; auto | easy].
Qed.

Lemma trim_incl (s : jsstring) (c : ascii) : In c (trim s) -> In c s.
Proof.
  unfold trim, trimEnd. intros H.
  apply in_rev in H. apply trimStart_incl in H. apply in_rev in H.
  now apply trimStart_incl.
Qed.

(** ** Path guard *)

(** The separators are gone from every sanitized name. *)
Lemma sanitizeFileName_no_separator (name : jsstring) :
  includes (sanitizeFileName name) (str "/") = false
  /\ includes (sanitizeFileName name) [chr 92] = false.
Proof.
  assert (H : forall c, isSeparator c = true ->
                        ~ In c (sanitizeFileName name)).
  { intros c Hc Hin. unfold sanitizeFileName in Hin.
    apply trim_incl in Hin. unfold removeAll in Hin.
    apply filter_In in Hin as [Hin _].
    apply filter_In in Hin as [_ Hin].
    now rewrite Hc in Hin. }
  split.
  - destruct (includes _ (str "/")) eqn:E; [|reflexivity].
    apply includes_unit in E. now apply H in E.
  - destruct (includes _ [chr 92]) eqn:E; [|reflexivity].
    apply includes_unit in E. now apply H in E.
Qed.

(** C2 (fails on the code).  The two dots are removed before the
    separators and the reserved characters, so removing one of those can
    bring two dots together: the name dot, slash, dot is sanitized to
    dot, dot. *)
Theorem sanitizeFileName_dot_slash_dot :
  sanitizeFileName (str "./.") = str ".."
  /\ includes (sanitizeFileName (str "./.")) (str "..") = true
  /\ isValidName (sanitizeFileName (str "./.")) = false.
Proof. repeat split; reflexivity. Qed.

(** ** Mutators *)

(** C3.  When the target folder is the source or lies below it, [moveItem]
    resolves with [null] and leaves the world as it was: nothing is added
    to the journal of storage calls and no file is touched. *)
Theorem moveItem_into_itself (sourcePath targetFolder : jsstring) (w : World) :
  targetFolder = sourcePath
  \/ (exists rest, targetFolder = sourcePath ++ str "/" ++ rest) ->
  moveItem sourcePath targetFolder w = (Resolved None, w).
Proof.
  intros H. unfold moveItem.
  destruct (negb (isValidName _)); [reflexivity|].
  assert (G : Js.eqb targetFolder sourcePath
              || startsWith targetFolder (sourcePath ++ str "/") = true).
  { apply orb_true_iff. destruct H as [->|[rest ->]].
    - left. apply eqb_refl.
    - right. rewrite app_assoc. apply startsWith_app. }
  rewrite G. reflexivity.
Qed.

Lemma moveItem_into_itself_witness :
  moveItem (str "/notes/work") (str "/notes/work/old") emptyWorld
  = (Resolved None, emptyWorld).
Proof.
  apply (moveItem_into_itself (str "/notes/work") (str "/notes/work/old")).
  right. exists (str "old"). reflexivity.
Defined.

(** ** Note session *)

(** Unfolds the plumbing of the state-and-error monad. *)
Ltac unfold_monad :=
  unfold NoteStore.get, NoteStore.set, io, call in *;
  unfold bind, ret, throw, tryCatch, gets, modify, zoom in *.

Lemma NoDup_firstn {A} (n : nat) (l : list A) : NoDup l -> NoDup (firstn n l).
Proof.
  intros H. rewrite <- (firstn_skipn n l) in H.
  now apply NoDup_app_remove_r in H.
Qed.

Lemma loadNote_success (path : jsstring) (a : App) :
  loadNoteSucceeds path a ->
  exists body w,
    textFiles (world a) path = Some body
    /\ snd (loadNote path a)
       = mkApp
           (withRecentNotes (pushRecent path (recentNotes (store a)))
              (withIsLoading false
                 (withIsDirty false
                    (withContent body
                       (withCurrentNote (Some path)
                          (withIsLoading true (store a)))))))
           w.
Proof.
  unfold loadNoteSucceeds, loadNote, loadNoteTry, readTextFile, getMetaStore,
    storeSet, storeSave, pushRecent.
  unfold_monad. simpl.
  destruct (refused (world a) (OpReadTextFile path)); simpl; [discriminate|].
  destruct (textFiles (world a) path) as [body|]; simpl; [|discriminate].
  destruct (storeLoaded (world a)); simpl.
  - destruct (refused (world a) (OpStoreSet _ _)); simpl; [discriminate|].
    destruct (refused (world a) OpStoreSave); simpl; [discriminate|].
    intros _. eexists _, _. split; reflexivity.
  - destruct (refused (world a) OpStoreLoad); simpl; [discriminate|].
    destruct (refused (world a) (OpStoreSet _ _)); simpl; [discriminate|].
    destruct (refused (world a) OpStoreSave); simpl; [discriminate|].
    intros _. eexists _, _. split; reflexivity.
Qed.

Lemma pushRecent_head (path : jsstring) (recents : list jsstring) :
  hd_error (pushRecent path recents) = Some path.
Proof. reflexivity. Qed.

Lemma pushRecent_length (path : jsstring) (recents : list jsstring) :
  length (pushRecent path recents) <= 10.
Proof. unfold pushRecent, sliceTo. apply firstn_le_length. Qed.

Lemma pushRecent_NoDup (path : jsstring) (recents : list jsstring) :
  NoDup recents -> NoDup (pushRecent path recents).
Proof.
  intros H. unfold pushRecent, sliceTo. apply NoDup_firstn. constructor.
  - intros Hin. apply filter_In in Hin as [_ Hin].
    now rewrite eqb_refl in Hin.
  - now apply NoDup_filter.
Qed.

(** C8 (fails on the code as stated).  A recents list that holds a path
    twice keeps it twice when another note is loaded: the filter only drops
    the path being opened. *)
Lemma loadNote_recents_keeps_duplicates :
  let a :=
    mkApp (withRecentNotes [str "/n/x.md"; str "/n/x.md"] initialState)
          (noteWorld [(str "/n/y.md", str "# y")]) in
  loadNoteSucceeds (str "/n/y.md") a
  /\ recentNotes (store (snd (loadNote (str "/n/y.md") a)))
     = [str "/n/y.md"; str "/n/x.md"; str "/n/x.md"]
  /\ ~ NoDup (recentNotes (store (snd (loadNote (str "/n/y.md") a)))).
Proof.
  repeat split.
  intros H. vm_compute in H.
  inversion H as [|? ? _ H1]. inversion H1 as [|? ? Hin _].
  apply Hin. now left.
Qed.

(** C8 (amended).  When the recents list holds no path twice, a successful
    [loadNote(path)] leaves a recents list that starts with [path], holds no
    path twice and has at most ten entries. *)
Theorem loadNote_recents (path : jsstring) (a : App) :
  loadNoteSucceeds path a ->
  NoDup (recentNotes (store a)) ->
  let recents := recentNotes (store (snd (loadNote path a))) in
  hd_error recents = Some path /\ NoDup recents /\ length recents <= 10.
Proof.
  intros Hok Hnd. destruct (loadNote_success path a Hok) as (body & w & _ & E).
  cbv zeta. rewrite E. cbn [store recentNotes withRecentNotes].
  split; [apply pushRecent_head|split].
  - now apply pushRecent_NoDup.
  - apply pushRecent_length.
Qed.

Lemma loadNote_recents_witness :
  let a :=
    mkApp (withRecentNotes [str "/n/x.md"; str "/n/y.md"] initialState)
          (noteWorld [(str "/n/y.md", str "# y")]) in
  let recents := recentNotes (store (snd (loadNote (str "/n/y.md") a))) in
  hd_error recents = Some (str "/n/y.md") /\ NoDup recents
  /\ length recents <= 10.
Proof.
  apply (loadNote_recents (str "/n/y.md")).
  - reflexivity.
  - repeat constructor; simpl; intuition discriminate.
Defined.

(** C10.  When reading the file fails, [loadNote] changes nothing in the
    store but [isLoading], which is false afterwards, and makes no call to
    the storage back end besides the read: nothing is set or saved in the
    key-value document and no file is written. *)
Theorem loadNote_read_fails (path : jsstring) (a : App) :
  fst (readTextFile path (world a)) = Rejected ->
  let a' := snd (loadNote path a) in
  store a' = withIsLoading false (store a)
  /\ currentNote (store a') = currentNote (store a)
  /\ content (store a') = content (store a)
  /\ isDirty (store a') = isDirty (store a)
  /\ recentNotes (store a') = recentNotes (store a)
  /\ isLoading (store a') = false
  /\ world a' = record (OpReadTextFile path) (world a)
  /\ storeEntries (world a') = storeEntries (world a)
  /\ storeSaved (world a') = storeSaved (world a)
  /\ textFiles (world a') = textFiles (world a).
Proof.
  unfold loadNote, loadNoteTry, readTextFile. unfold_monad. simpl.
  destruct (refused (world a) (OpReadTextFile path)); simpl.
  - intros _. repeat split.
  - destruct (textFiles (world a) path); simpl; [discriminate|].
    intros _. repeat split.
Qed.

Lemma loadNote_read_fails_witness :
  let a := mkApp initialState (noteWorld [(str "/n/y.md", str "# y")]) in
  let a' := snd (loadNote (str "/n/gone.md") a) in
  store a' = withIsLoading false (store a)
  /\ currentNote (store a') = currentNote (store a)
  /\ content (store a') = content (store a)
  /\ isDirty (store a') = isDirty (store a)
  /\ recentNotes (store a') = recentNotes (store a)
  /\ isLoading (store a') = false
  /\ world a' = record (OpReadTextFile (str "/n/gone.md")) (world a)
  /\ storeEntries (world a') = storeEntries (world a)
  /\ storeSaved (world a') = storeSaved (world a)
  /\ textFiles (world a') = textFiles (world a).
Proof.
  apply (loadNote_read_fails (str "/n/gone.md")). reflexivity.
Defined.

(** ** Favorites *)

Lemma arrayIncludes_In (xs : list jsstring) (x : jsstring) :
  arrayIncludes xs x = true <-> In x xs.
Proof.
  induction xs as [|y xs IH]; simpl; [easy|].
  rewrite orb_true_iff, IH, eqb_eq. tauto.
Qed.

Lemma unmarked_markNode (favs : list jsstring) (node : FileNode) :
  unmarked (markNode favs node) = unmarked node.
Proof.
  induction node as [n p d fav|n p d kids fav IH] using FileNode_induction;
    simpl; [reflexivity|].
  do 2 f_equal. rewrite map_map. apply map_ext_Forall. exact IH.
Qed.

Lemma nodesOf_markNode (favs : list jsstring) (node : FileNode) :
  nodesOf (markNode favs node) = map (markNode favs) (nodesOf node).
Proof.
  induction node as [n p d fav|n p d kids fav IH] using FileNode_induction;
    simpl; [reflexivity|].
  f_equal. induction IH as [|k kids Hk _ IHkids]; simpl; [reflexivity|].
  now rewrite map_app, Hk, IHkids.
Qed.

Lemma allNodes_markFavorites (favs : list jsstring) (tree : list FileNode) :
  allNodes (markFavorites favs tree) = map (markNode favs) (allNodes tree).
Proof.
  unfold allNodes, markFavorites.
  induction tree as [|k tree IH]; simpl; [reflexivity|].
  now rewrite map_app, nodesOf_markNode, IH.
Qed.

Lemma markNode_path (favs : list jsstring) (node : FileNode) :
  path (markNode favs node) = path node.
Proof. now destruct node. Qed.

Lemma markNode_isFavorite (favs : list jsstring) (node : FileNode) :
  isFavorite (markNode favs node) = Some (arrayIncludes favs (path node)).
Proof. now destruct node. Qed.

Lemma toggled_flips (p : jsstring) (favs : list jsstring) :
  In p (toggled p favs) <-> ~ In p favs.
Proof.
  unfold toggled. destruct (arrayIncludes favs p) eqn:E.
  - apply arrayIncludes_In in E. rewrite filter_In, eqb_refl. simpl.
    split; [intros [_ H]; discriminate | tauto].
  - assert (~ In p favs) by (rewrite <- arrayIncludes_In; congruence).
    rewrite in_app_iff. simpl. tauto.
Qed.

Lemma toggled_others (p q : jsstring) (favs : list jsstring) :
  q <> p -> (In q (toggled p favs) <-> In q favs).
Proof.
  intros Hq. unfold toggled. destruct (arrayIncludes favs p).
  - rewrite filter_In. apply eqb_neq in Hq. rewrite Hq. simpl. tauto.
  - rewrite in_app_iff. simpl. intuition congruence.
Qed.

Lemma toggleFavorite_success (p : jsstring) (a : App) :
  fst (toggleFavorite p a) = Resolved tt ->
  let favs' := toggled p (favorites (store a)) in
  store (snd (toggleFavorite p a))
  = withFilesOf (updateFavorites favs' (files (store a)))
      (withFavorites favs' (store a))
  /\ storeSaved (world (snd (toggleFavorite p a))) (str "favorites")
     = Some favs'
  /\ exists ops,
       journal (world (snd (toggleFavorite p a)))
       = journal (world a) ++ ops
       /\ forallb isStoreOp ops = true.
Proof.
  unfold toggleFavorite, getMetaStore, storeSet, storeSave, toggled.
  unfold_monad. simpl.
  destruct (storeLoaded (world a)); simpl.
  - destruct (refused (world a) (OpStoreSet _ _)); simpl; [discriminate|].
    destruct (refused (world a) OpStoreSave); simpl; [discriminate|].
    intros _. repeat split.
    eexists [_; _]. rewrite <- app_assoc. split; reflexivity.
  - destruct (refused (world a) OpStoreLoad); simpl; [discriminate|].
    destruct (refused (world a) (OpStoreSet _ _)); simpl; [discriminate|].
    destruct (refused (world a) OpStoreSave); simpl; [discriminate|].
    intros _. repeat split.
    eexists [_; _; _]. rewrite <- !app_assoc. split; reflexivity.
Qed.

(** C9.  When the favorites are persisted, [toggleFavorite(p)] flips the
    membership of [p] in the favorites and of no other path; afterwards
    every node of the tree, at any depth, is marked as favorite exactly
    when its path is among the new favorites; names, paths, kinds, shape
    and order of the nodes are as before; the new tree is computed from the
    tree in the store, and the only storage calls made are those to the
    key-value document (the tree is not rebuilt from the disk). *)
Theorem toggleFavorite_marks (p : jsstring) (a : App) :
  fst (toggleFavorite p a) = Resolved tt ->
  let a' := snd (toggleFavorite p a) in
  let favs := favorites (store a) in
  let favs' := favorites (store a') in
  (In p favs' <-> ~ In p favs)
  /\ (forall q, q <> p -> (In q favs' <-> In q favs))
  /\ (forall n, In n (allNodes (files (store a'))) ->
        (isFavorite n = Some true <-> In (path n) favs')
        /\ (isFavorite n = Some false <-> ~ In (path n) favs'))
  /\ map unmarked (files (store a')) = map unmarked (files (store a))
  /\ files (store a') = updateFavorites favs' (files (store a))
  /\ storeSaved (world a') (str "favorites") = Some favs'
  /\ (exists ops, journal (world a') = journal (world a) ++ ops
                  /\ forallb isStoreOp ops = true).
Proof.
  intros Hok. destruct (toggleFavorite_success p a Hok) as (E & Hsaved & Hops).
  cbv zeta in *. rewrite E.
  cbn [favorites files withFilesOf withFavorites].
  split; [apply toggled_flips|].
  split; [intros q; apply toggled_others|].
  split; [|split; [|split; [reflexivity|split; assumption]]].
  - intros n Hn. unfold updateFavorites in Hn.
    rewrite allNodes_markFavorites in Hn.
    apply in_map_iff in Hn as (m & <- & _).
    rewrite markNode_isFavorite, markNode_path, <- arrayIncludes_In.
    destruct (arrayIncludes _ (path m)); split; split; congruence.
  - unfold updateFavorites, markFavorites. rewrite map_map.
    apply map_ext. intros n. apply unmarked_markNode.
Qed.

Lemma toggleFavorite_marks_witness :
  let p := str "/n/work/plan.md" in
  let a := mkApp (withFilesOf sampleTree initialState) emptyWorld in
  let a' := snd (toggleFavorite p a) in
  let favs := favorites (store a) in
  let favs' := favorites (store a') in
  (In p favs' <-> ~ In p favs)
  /\ (forall q, q <> p -> (In q favs' <-> In q favs))
  /\ (forall n, In n (allNodes (files (store a'))) ->
        (isFavorite n = Some true <-> In (path n) favs')
        /\ (isFavorite n = Some false <-> ~ In (path n) favs'))
  /\ map unmarked (files (store a')) = map unmarked (files (store a))
  /\ files (store a') = updateFavorites favs' (files (store a))
  /\ storeSaved (world a') (str "favorites") = Some favs'
  /\ (exists ops, journal (world a') = journal (world a) ++ ops
                  /\ forallb isStoreOp ops = true).
Proof.
  apply (toggleFavorite_marks (str "/n/work/plan.md")). reflexivity.
Defined.

(** ** Sorting *)

Lemma StronglySorted_impl {A} (R R' : A -> A -> Prop) (l : list A) :
  (forall a b, R a b -> R' a b) -> StronglySorted R l -> StronglySorted R' l.
Proof.
  intros H. induction 1 as [|a l Hl IH Ha]; constructor; [exact IH|].
  eapply Forall_impl; [|exact Ha]. intros b. apply H.
Qed.

Section SortFacts.
Variable A : Type.
Variable cmp : A -> A -> Z.

(** What makes a comparator consistent, as far as the order goes. *)
Hypothesis cmp_total : forall a b, inOrder cmp a b \/ inOrder cmp b a.
Hypothesis cmp_trans :
  forall a b c, inOrder cmp a b -> inOrder cmp b c -> inOrder cmp a c.

Lemma insertSorted_In (x y : A) (l : list A) :
  In y (insertSorted cmp x l) <-> y = x \/ In y l.
Proof.
  induction l as [|z l IH]; simpl.
  - intuition.
  - destruct (cmp x z <=? 0)%Z; simpl; [intuition|].
    rewrite IH. intuition.
Qed.

Lemma arraySort_In (y : A) (l : list A) : In y (arraySort cmp l) <-> In y l.
Proof.
  induction l as [|x l IH]; simpl; [tauto|].
  rewrite insertSorted_In, IH. intuition.
Qed.

Lemma insertSorted_sorted (x : A) (l : list A) :
  StronglySorted (inOrder cmp) l -> StronglySorted (inOrder cmp) (insertSorted cmp x l).
Proof.
  induction 1 as [|z l Hl IH Hz]; simpl.
  - repeat constructor.
  - destruct (cmp x z <=? 0)%Z eqn:E.
    + apply Z.leb_le in E. constructor; [now constructor|].
      constructor; [exact E|].
      eapply Forall_impl; [|exact Hz]. intros b Hb. now apply cmp_trans with z.
    + apply Z.leb_gt in E. constructor; [exact IH|].
      apply Forall_forall. intros b Hb. apply insertSorted_In in Hb as [->|Hb].
      * destruct (cmp_total z x) as [H|H]; [exact H|unfold inOrder in H; lia].
      * rewrite Forall_forall in Hz. now apply Hz.
Qed.

Lemma arraySort_sorted (l : list A) : StronglySorted (inOrder cmp) (arraySort cmp l).
Proof.
  induction l as [|x l IH]; simpl; [constructor|].
  now apply insertSorted_sorted.
Qed.
End SortFacts.

Arguments insertSorted_In {A} cmp x y l.
Arguments arraySort_In {A} cmp y l.
Arguments arraySort_sorted {A} cmp cmp_total cmp_trans l.

(** ** Tree builder *)

Section TreeOrder.
Variable localeCompare : jsstring -> jsstring -> Z.

Hypothesis localeCompare_total :
  forall a b, (localeCompare a b <= 0)%Z \/ (localeCompare b a <= 0)%Z.
Hypothesis localeCompare_trans :
  forall a b c,
    (localeCompare a b <= 0)%Z -> (localeCompare b c <= 0)%Z ->
    (localeCompare a c <= 0)%Z.

Lemma compareNodes_order (a b : FileNode) :
  inOrder (compareNodes localeCompare) a b <-> siblingOrder localeCompare a b.
Proof.
  unfold inOrder, compareNodes, siblingOrder.
  destruct (isDirectory a), (isDirectory b); simpl;
    intuition (try discriminate; try lia).
Qed.

Lemma compareNodes_total (a b : FileNode) :
  inOrder (compareNodes localeCompare) a b
  \/ inOrder (compareNodes localeCompare) b a.
Proof.
  unfold inOrder, compareNodes.
  destruct (isDirectory a), (isDirectory b); simpl;
    try (left; lia); try (right; lia); apply localeCompare_total.
Qed.

Lemma compareNodes_trans (a b c : FileNode) :
  inOrder (compareNodes localeCompare) a b ->
  inOrder (compareNodes localeCompare) b c ->
  inOrder (compareNodes localeCompare) a c.
Proof.
  unfold inOrder, compareNodes.
  destruct (isDirectory a), (isDirectory b), (isDirectory c); simpl;
    try lia; apply localeCompare_trans.
Qed.

Lemma sort_siblings (nodes : list FileNode) :
  StronglySorted (siblingOrder localeCompare) (arraySort (compareNodes localeCompare) nodes).
Proof.
  eapply StronglySorted_impl;
    [|exact (arraySort_sorted (compareNodes localeCompare)
               compareNodes_total compareNodes_trans nodes)].
  intros a b. apply compareNodes_order.
Qed.

Lemma readWith_sorted iteration (p : jsstring)
      (listing : option (list DirEntry)) :
  StronglySorted (siblingOrder localeCompare) (readWith localeCompare iteration p listing).
Proof.
  destruct listing as [entries|]; simpl; [apply sort_siblings|constructor].
Qed.

Lemma filterMap_In {X Y} (f : X -> option Y) (l : list X) (y : Y) :
  In y (filterMap f l) <-> exists x, In x l /\ f x = Some y.
Proof.
  induction l as [|x l IH]; simpl.
  - split; [easy|intros (x & [] & _)].
  - destruct (f x) as [z|] eqn:E; simpl; rewrite IH; split.
    + intros [<-|(x' & Hx' & Hf)]; [now exists x; auto|exists x'; auto].
    + intros (x' & [<-|Hx'] & Hf); [left; congruence|right; now exists x'].
    + intros (x' & Hx' & Hf). exists x'; auto.
    + intros (x' & [<-|Hx'] & Hf); [congruence|now exists x'].
Qed.

(** Below a node built from a directory entry, every list of children is
    in order. *)
Lemma nodeOfEntry_sorted (e : DirEntry) :
  forall p node n kids,
    nodeOfEntry localeCompare p e = Some node ->
    In n (nodesOf node) -> children n = Some kids ->
    StronglySorted (siblingOrder localeCompare) kids.
Proof.
  induction e as [f|f|f entries IH] using DirEntry_induction;
    intros p node n kids; cbn [nodeOfEntry].
  - destruct (startsWith f (str ".")); [discriminate|].
    destruct (negb (endsWith f (str ".md"))); [discriminate|].
    intros [= <-] Hn Hkids. simpl in Hn. destruct Hn as [<-|[]].
    discriminate.
  - destruct (startsWith f (str ".")); [discriminate|].
    intros [= <-] Hn Hkids. simpl in Hn. destruct Hn as [<-|[]].
    injection Hkids as <-. constructor.
  - destruct (startsWith f (str ".")); [discriminate|].
    intros [= <-] Hn Hkids. cbn [nodesOf children] in Hn.
    destruct Hn as [<-|Hn].
    + injection Hkids as <-. apply sort_siblings.
    + apply in_flat_map in Hn as (k & Hk & Hn). simpl in Hk.
      apply arraySort_In in Hk. apply filterMap_In in Hk as (e & He & Hk).
      rewrite Forall_forall in IH. exact (IH e He _ _ _ _ Hk Hn Hkids).
Qed.

(** C6.  For a [localeCompare] that is a total pre-order, the tree that
    [readNotesDirectory] returns is sorted at every level: among
    siblings every directory stands before every file, and two siblings
    of the same kind stand in the order of [localeCompare] on their
    names. *)
Theorem readNotesDirectory_sorted (p : jsstring)
        (listing : option (list DirEntry)) :
  sortedAtEveryLevel localeCompare (readNotesDirectory localeCompare p listing).
Proof.
  split; [apply readWith_sorted|].
  intros n kids Hn Hkids. unfold readNotesDirectory, allNodes in Hn.
  apply in_flat_map in Hn as (k & Hk & Hn).
  destruct listing as [entries|]; simpl in Hk; [|contradiction].
  apply arraySort_In in Hk. apply filterMap_In in Hk as (e & He & Hk).
  exact (nodeOfEntry_sorted e _ _ _ _ Hk Hn Hkids).
Qed.
End TreeOrder.

Lemma compareUnits_total (a b : jsstring) :
  (compareUnits a b <= 0)%Z \/ (compareUnits b a <= 0)%Z.
Proof.
  revert b; induction a as [|x a IH]; intros [|y b]; simpl;
    try (left; lia); try (right; lia).
  destruct (code x <? code y) eqn:E1, (code y <? code x) eqn:E2;
    try (left; lia); try (right; lia).
  apply IH.
Qed.

Lemma compareUnits_trans (a b c : jsstring) :
  (compareUnits a b <= 0)%Z -> (compareUnits b c <= 0)%Z ->
  (compareUnits a c <= 0)%Z.
Proof.
  revert b c; induction a as [|x a IH]; intros [|y b] [|z c]; simpl; try lia.
  destruct (code x <? code y) eqn:E1, (code y <? code x) eqn:E2,
           (code y <? code z) eqn:E3, (code z <? code y) eqn:E4,
           (code x <? code z) eqn:E5, (code z <? code x) eqn:E6;
    try lia;
    repeat match goal with
           | H : (_ <? _) = true |- _ => apply Nat.ltb_lt in H
           | H : (_ <? _) = false |- _ => apply Nat.ltb_ge in H
           end; try lia.
  apply IH.
Qed.

Lemma readNotesDirectory_sorted_witness :
  sortedAtEveryLevel caseInsensitiveCompare
    (readNotesDirectory caseInsensitiveCompare (str "/n")
       (Some [FileEntry (str "b.md"); FileEntry (str "A.md");
              FileEntry (str ".hidden.md"); FileEntry (str "todo.txt");
              FolderEntry (str "work")
                (Some [FileEntry (str "Plan.md"); FileEntry (str "notes.md");
                       FolderEntry (str "old") None]);
              FolderEntry (str "Daily") (Some [])])).
Proof.
  apply (readNotesDirectory_sorted caseInsensitiveCompare).
  - intros a b. apply compareUnits_total.
  - intros a b c. apply compareUnits_trans.
Defined.

(** ** Tag scanner *)

Lemma readTextFile_world (p : jsstring) (w : World) :
  snd (readTextFile p w) = record (OpReadTextFile p) w.
Proof.
  unfold readTextFile, call.
  destruct (refused w _); [reflexivity|]. simpl.
  now destruct (textFiles w p).
Qed.

Lemma reads_record (op : StorageOp) (w : World) (p : jsstring) :
  reads (record op w) p = reads w p.
Proof.
  unfold reads, readTextFile, call. simpl.
  destruct (refused w _); [reflexivity|]. now destruct (textFiles w p).
Qed.

Lemma reads_journalReads (paths : list jsstring) (w : World) (p : jsstring) :
  reads (journalReads paths w) p = reads w p.
Proof.
  revert w; induction paths as [|q paths IH]; intros w; simpl; [reflexivity|].
  now rewrite IH, reads_record.
Qed.

Lemma countNote_ext (r1 r2 : jsstring -> Outcome jsstring)
      (paths : list jsstring) (st : TagScan) :
  (forall p, r1 p = r2 p) ->
  fold_left (countNote r1) paths st = fold_left (countNote r2) paths st.
Proof.
  intros H. revert st; induction paths as [|p paths IH]; intros st; simpl;
    [reflexivity|].
  unfold countNote at 2 4. now rewrite H, IH.
Qed.

Lemma scanTagsOfNote_run (node : FileNode) (st : TagScan) (w : World) :
  scanTagsOfNote node (st, w)
  = (Resolved tt,
     (countNote (reads w) st (path node),
      record (OpReadTextFile (path node)) w)).
Proof.
  unfold scanTagsOfNote, countNote, reads, disk, setLocal, readTextFile.
  unfold_monad. simpl.
  destruct (refused w _); simpl; [reflexivity|].
  now destruct (textFiles w (path node)).
Qed.

(** A scan of the tree is a fold over the notes it visits. *)
Lemma scanNode_run (node : FileNode) :
  forall st w,
    scanNode node (st, w)
    = (Resolved tt,
       (fold_left (countNote (reads w)) (notePaths node) st,
        journalReads (notePaths node) w)).
Proof.
  assert (note : forall n p d ch fav st w,
             (if endsWith p (str ".md")
              then scanTagsOfNote (mkFileNode n p d ch fav)
              else ret tt) (st, w)
             = (Resolved tt,
                (fold_left (countNote (reads w))
                   (if endsWith p (str ".md") then [p] else []) st,
                 journalReads (if endsWith p (str ".md") then [p] else []) w))).
  { intros n p d ch fav st w. destruct (endsWith p (str ".md")).
    - now rewrite scanTagsOfNote_run.
    - reflexivity. }
  induction node as [n p d fav|n p d kids fav IH] using FileNode_induction;
    intros st w.
  - cbn [scanNode notePaths]. destruct d; apply note.
  - cbn [scanNode notePaths]. destruct d; [|apply note].
    revert st w. induction IH as [|k kids Hk _ IHkids]; intros st w;
      [reflexivity|].
    cbn [forEach flat_map]. unfold bind at 1. rewrite Hk, IHkids.
    unfold journalReads. rewrite !fold_left_app. do 2 f_equal.
    apply countNote_ext. intros q. apply reads_journalReads.
Qed.

Lemma scanFiles_run (nodes : list FileNode) (st : TagScan) (w : World) :
  scanFiles nodes (st, w)
  = (Resolved tt,
     (fold_left (countNote (reads w)) (flat_map notePaths nodes) st,
      journalReads (flat_map notePaths nodes) w)).
Proof.
  unfold scanFiles.
  revert st w; induction nodes as [|k nodes IH]; intros st w; [reflexivity|].
  cbn [forEach flat_map]. unfold bind at 1. rewrite scanNode_run, IH.
  unfold journalReads. rewrite !fold_left_app. do 2 f_equal.
  apply countNote_ext. intros q. apply reads_journalReads.
Qed.

Lemma scanAllTags_run (a : App) :
  scanAllTags a
  = (Resolved tt,
     mkApp (withAllTags (tagsOf (reads (world a)) (files (store a))) (store a))
           (journalReads (flat_map notePaths (files (store a))) (world a))).
Proof.
  unfold scanAllTags, NoteStore.get, gets, bind.
  now rewrite scanFiles_run.
Qed.

Lemma execFrom_end (s : jsstring) :
  forall prev i group e, execFrom prev s i = Some (group, e) -> i < e.
Proof.
  induction s as [|c s IH]; intros prev i group e; cbn [execFrom].
  - destruct prev as [c|]; discriminate.
  - destruct (tagAt prev (c :: s)) as [g|].
    + intros [= _ <-]. lia.
    + intros H. apply IH in H. lia.
Qed.

Lemma exec_end (body : jsstring) (i : nat) (group : jsstring) (e : nat) :
  exec body i = (Some group, e) -> i < e.
Proof.
  unfold exec. destruct (length body <? i); [discriminate|].
  destruct (execFrom _ _ i) as [[g e']|] eqn:E; [|discriminate].
  intros [= _ <-]. now apply execFrom_end in E.
Qed.

Lemma exec_past_end (body : jsstring) (i : nat) :
  length body <= i -> fst (exec body i) = None.
Proof.
  intros H. unfold exec. destruct (length body <? i); [reflexivity|].
  rewrite skipn_all2 by exact H.
  simpl. now destruct (if i =? 0 then None else nth_error body (i - 1)) as [c|].
Qed.

(** The loop over one note stops by itself: once the fuel covers what is
    left of the note, more fuel changes nothing. *)
Lemma execAll_fuel (body : jsstring) (n : nat) :
  forall st m,
    length body < tagLastIndex st + S n -> S n <= m ->
    execAll m body st = execAll (S n) body st.
Proof.
  induction n as [|n IH]; intros st m Hlen Hm;
    (destruct m as [|m]; [lia|]); cbn [execAll].
  - pose proof (exec_past_end body (tagLastIndex st) ltac:(lia)) as H.
    destruct (exec body (tagLastIndex st)) as [[g|] e]; [discriminate|].
    reflexivity.
  - destruct (exec body (tagLastIndex st)) as [[g|] e] eqn:E; [|reflexivity].
    apply exec_end in E. apply IH; simpl; lia.
Qed.

(** The fuel [scanAllTags] is run with is enough for every note. *)
Lemma execAll_enough (body : jsstring) (st : TagScan) (m : nat) :
  S (length body) <= m ->
  execAll m body st = execAll (S (length body)) body st.
Proof. intros H. apply execAll_fuel; [lia|exact H]. Qed.

Lemma lowerChar_idempotent (c : ascii) : lowerChar (lowerChar c) = lowerChar c.
Proof.
  destruct c as [[] [] [] [] [] [] [] []]; reflexivity.
Qed.

Lemma toLowerCase_idempotent (s : jsstring) :
  toLowerCase (toLowerCase s) = toLowerCase s.
Proof.
  unfold toLowerCase. rewrite map_map. apply map_ext, lowerChar_idempotent.
Qed.

Lemma mapSet_keys (m : TagMap) (k : jsstring) (v : nat) :
  (In k (map fst m) /\ map fst (mapSet m k v) = map fst m)
  \/ (~ In k (map fst m) /\ map fst (mapSet m k v) = map fst m ++ [k]).
Proof.
  induction m as [|[k' v'] m IH]; simpl.
  - right. split; [tauto|reflexivity].
  - destruct (Js.eqb k' k) eqn:E; simpl.
    + apply eqb_eq in E. left. split; [now left|reflexivity].
    + apply eqb_neq in E. destruct IH as [[Hin Hm]|[Hin Hm]]; rewrite Hm.
      * left. split; [now right|reflexivity].
      * right. split; [intuition|reflexivity].
Qed.

Lemma mapSet_tagKeys (m : TagMap) (k : jsstring) (v : nat) :
  toLowerCase k = k -> tagKeys m -> tagKeys (mapSet m k v).
Proof.
  intros Hk [Hnd Hlow]. unfold tagKeys.
  destruct (mapSet_keys m k v) as [[Hin ->]|[Hin ->]]; [now split|].
  split.
  - apply NoDup_app; [exact Hnd|repeat constructor; easy|].
    intros x Hx [<-|[]]. contradiction.
  - apply Forall_app. split; [exact Hlow|now repeat constructor].
Qed.

Lemma execAll_tagKeys (fuel : nat) (body : jsstring) :
  forall st, tagKeys (tagCounts st) -> tagKeys (tagCounts (execAll fuel body st)).
Proof.
  induction fuel as [|fuel IH]; intros st H; simpl; [exact H|].
  destruct (exec body (tagLastIndex st)) as [[g|] e]; [|exact H].
  apply IH. simpl. apply mapSet_tagKeys; [apply toLowerCase_idempotent|exact H].
Qed.

Lemma countNotes_tagKeys (read : jsstring -> Outcome jsstring)
      (paths : list jsstring) :
  forall st, tagKeys (tagCounts st) ->
             tagKeys (tagCounts (fold_left (countNote read) paths st)).
Proof.
  induction paths as [|p paths IH]; intros st H; simpl; [exact H|].
  apply IH. unfold countNote. destruct (read p); [|exact H].
  now apply execAll_tagKeys.
Qed.

Lemma insertSorted_permutation {A} (cmp : A -> A -> Z) (x : A) (l : list A) :
  Permutation (insertSorted cmp x l) (x :: l).
Proof.
  induction l as [|y l IH]; simpl; [reflexivity|].
  destruct (cmp x y <=? 0)%Z; [reflexivity|].
  rewrite IH. apply perm_swap.
Qed.

Lemma arraySort_permutation {A} (cmp : A -> A -> Z) (l : list A) :
  Permutation (arraySort cmp l) l.
Proof.
  induction l as [|x l IH]; simpl; [reflexivity|].
  rewrite insertSorted_permutation. now constructor.
Qed.

Lemma byCountDescending_total (a b : TagInfo.t) :
  inOrder byCountDescending a b \/ inOrder byCountDescending b a.
Proof. unfold inOrder, byCountDescending. lia. Qed.

Lemma byCountDescending_trans (a b c : TagInfo.t) :
  inOrder byCountDescending a b -> inOrder byCountDescending b c ->
  inOrder byCountDescending a c.
Proof. unfold inOrder, byCountDescending. lia. Qed.

Lemma tagsOf_facts (read : jsstring -> Outcome jsstring)
      (tree : list FileNode) :
  StronglySorted (fun x y => TagInfo.count y <= TagInfo.count x)
    (tagsOf read tree)
  /\ Forall (fun t => toLowerCase (TagInfo.tag t) = TagInfo.tag t)
       (tagsOf read tree)
  /\ NoDup (map TagInfo.tag (tagsOf read tree)).
Proof.
  unfold tagsOf.
  set (m := tagCounts _).
  assert (Hm : tagKeys m).
  { apply countNotes_tagKeys. split; constructor. }
  destruct Hm as [Hnd Hlow].
  pose proof (arraySort_permutation byCountDescending
                (map (fun e => TagInfo.mk (fst e) (snd e)) m)) as Hperm.
  assert (Hkeys : map TagInfo.tag (map (fun e => TagInfo.mk (fst e) (snd e)) m)
                  = map fst m) by (rewrite map_map; reflexivity).
  split; [|split].
  - eapply StronglySorted_impl;
      [|exact (arraySort_sorted byCountDescending byCountDescending_total
                 byCountDescending_trans
                 (map (fun e => TagInfo.mk (fst e) (snd e)) m))].
    intros x y. unfold inOrder, byCountDescending. lia.
  - apply Forall_forall. intros t Ht.
    apply (Permutation_in _ Hperm) in Ht.
    apply (in_map TagInfo.tag) in Ht. rewrite Hkeys in Ht.
    rewrite Forall_forall in Hlow. now apply Hlow.
  - apply (Permutation_map TagInfo.tag) in Hperm. rewrite Hkeys in Hperm.
    apply Permutation_sym in Hperm. now apply (Permutation_NoDup Hperm).
Qed.

(** C7.  A second run of [scanAllTags], in a world where every note reads
    as it did after the first run, leaves the same [allTags] as the first:
    the same tags with the same counts in the same order.  That list is in
    descending order of the counts, its tags are lower-cased and no tag
    occurs twice. *)
Theorem scanAllTags_idempotent (a : App) (w2 : World) :
  let a1 := snd (scanAllTags a) in
  sameBodies (world a1) w2 ->
  allTags (store (snd (scanAllTags (mkApp (store a1) w2))))
  = allTags (store a1)
  /\ StronglySorted (fun x y => TagInfo.count y <= TagInfo.count x)
       (allTags (store a1))
  /\ Forall (fun t => toLowerCase (TagInfo.tag t) = TagInfo.tag t)
       (allTags (store a1))
  /\ NoDup (map TagInfo.tag (allTags (store a1))).
Proof.
  cbv zeta. rewrite !scanAllTags_run. cbn [snd store world allTags withAllTags files].
  intros Hsame. split; [|apply tagsOf_facts].
  unfold tagsOf. do 3 f_equal. apply countNote_ext. intros p.
  rewrite <- Hsame. apply reads_journalReads.
Qed.

(** The scenario of the specification: one tag in one note. *)
Example scanAllTags_scenario :
  allTags (store (snd (scanAllTags
    (mkApp (withFilesOf [note "a.md"; note "b.md"] initialState)
           (noteWorld [(str "/n/a.md", str "hello #work");
                       (str "/n/b.md", str "[[a]]")])))))
  = [TagInfo.mk (str "work") 1].
Proof. reflexivity. Qed.

Lemma scanAllTags_idempotent_witness :
  let a :=
    mkApp (withFilesOf [note "a.md"; note "b.md"] initialState)
          (noteWorld [(str "/n/a.md", str "#Work and #play");
                      (str "/n/b.md", str "more #work")]) in
  let a1 := snd (scanAllTags a) in
  allTags (store (snd (scanAllTags (mkApp (store a1) (world a1)))))
  = allTags (store a1)
  /\ StronglySorted (fun x y => TagInfo.count y <= TagInfo.count x)
       (allTags (store a1))
  /\ Forall (fun t => toLowerCase (TagInfo.tag t) = TagInfo.tag t)
       (allTags (store a1))
  /\ NoDup (map TagInfo.tag (allTags (store a1))).
Proof.
  apply (scanAllTags_idempotent
           (mkApp (withFilesOf [note "a.md"; note "b.md"] initialState)
                  (noteWorld [(str "/n/a.md", str "#Work and #play");
                              (str "/n/b.md", str "more #work")]))).
  intros p. reflexivity.
Defined.

(** ** Backlink finder *)

Lemma syntaxCharacter_backslash (c : ascii) :
  isSyntaxCharacter c = false -> (code c =? 92) = false.
Proof.
  unfold isSyntaxCharacter. simpl. intros H.
  destruct (code c =? 92); [|reflexivity].
  now rewrite !orb_true_r in H.
Qed.

Lemma literalOf_escape (s rest : jsstring) :
  literalOf (escapeRegExp s ++ rest) = option_map (app s) (literalOf rest).
Proof.
  induction s as [|c s IH]; simpl.
  - now destruct (literalOf rest).
  - destruct (isSyntaxCharacter c) eqn:E; simpl.
    + rewrite E, IH. now destruct (literalOf rest).
    + rewrite (syntaxCharacter_backslash c E), E, IH.
      now destruct (literalOf rest).
Qed.

(** The pattern [findBacklinks] builds matches the wiki link to the note
    name literally, whatever characters the name holds. *)
Lemma searchPattern_literal (noteName : jsstring) :
  literalOf (str "\[\[" ++ escapeRegExp noteName ++ str "\]\]")
  = Some (str "[[" ++ noteName ++ str "]]").
Proof.
  change (str "\[\[" ++ escapeRegExp noteName ++ str "\]\]")
    with (escapeRegExp (str "[[") ++ escapeRegExp noteName ++ str "\]\]").
  now rewrite !literalOf_escape.
Qed.

(** The scenario of the specification: one note links to the other. *)
Example findBacklinks_scenario :
  backlinks (store (snd (findBacklinks (str "a")
    (mkApp (withFilesOf [note "a.md"; note "b.md"] initialState)
           (noteWorld [(str "/n/a.md", str "hello #work");
                       (str "/n/b.md", str "[[a]]")])))))
  = [Backlink.mk (str "/n/b.md") (str "b") (str "[[a]]")].
Proof. reflexivity. Qed.

(** C4 (fails on the code).  The pattern carries the [g] flag, so [test]
    starts at the [lastIndex] the previous match left.  After the match in
    [a.md] ends at index 14, the only line of [b.md], five code units
    long, is tested from index 14 and fails, although the same line
    matches when tested from the start: [b.md] gets no backlink entry. *)
Theorem findBacklinks_misses_second_note :
  let tree := [note "a.md"; note "b.md"] in
  let w := noteWorld [(str "/n/a.md", str "see also [[x]]");
                      (str "/n/b.md", str "[[x]]")] in
  backlinks (store (snd (findBacklinks (str "x")
                           (mkApp (withFilesOf tree initialState) w))))
  = [Backlink.mk (str "/n/a.md") (str "a") (str "see also [[x]]")]
  /\ test (str "[[x]]") (str "[[x]]") 0 = (true, 5)
  /\ test (str "[[x]]") (str "[[x]]") 14 = (false, 0).
Proof. repeat split; reflexivity. Qed.

(** ** Heading extractor *)

Example useMarkdownHeadings_sample :
  useMarkdownHeadings (str "# Plan B
text
##  Tasks & notes")
  = [Heading.mk (str "plan-b") (str "Plan B") 1 1;
     Heading.mk (str "tasks-notes") (str "Tasks & notes") 2 3].
Proof. reflexivity. Qed.

Lemma firstSome_Some {A B} (f : A -> option B) (l : list A) (y : B) :
  firstSome f l = Some y -> exists x, In x l /\ f x = Some y.
Proof.
  induction l as [|x l IH]; simpl; [discriminate|].
  destruct (f x) as [z|] eqn:E.
  - intros [= <-]. exists x. auto.
  - intros H. destruct (IH H) as (x' & Hin & Hf). exists x'. auto.
Qed.

Lemma firstSome_None {A B} (f : A -> option B) (l : list A) :
  firstSome f l = None -> forall x, In x l -> f x = None.
Proof.
  induction l as [|x l IH]; simpl; [easy|].
  destruct (f x) as [z|] eqn:E; [discriminate|].
  intros H x' [<-|Hin]; auto.
Qed.

Lemma downFrom_In (n k : nat) : In k (downFrom n) <-> 1 <= k <= n.
Proof.
  induction n as [|n IH]; simpl; [lia|]. rewrite IH. lia.
Qed.

Lemma takeWhile_length (p : ascii -> bool) (s : jsstring) :
  length (takeWhile p s) <= length s.
Proof.
  induction s as [|c s IH]; simpl; [lia|]. destruct (p c); simpl; lia.
Qed.

Lemma takeWhile_firstn (p : ascii -> bool) (s : jsstring) :
  forall j, j <= length (takeWhile p s) ->
            Forall (fun c => p c = true) (firstn j s).
Proof.
  induction s as [|c s IH]; intros [|j] Hj; simpl in *; try constructor.
  - destruct (p c) eqn:E; simpl in Hj; [reflexivity|lia].
  - destruct (p c) eqn:E; simpl in Hj; [apply IH; lia|lia].
Qed.

Lemma takeWhile_all (p : ascii -> bool) (l1 l2 : jsstring) :
  Forall (fun c => p c = true) l1 ->
  takeWhile p (l1 ++ l2) = l1 ++ takeWhile p l2.
Proof.
  induction 1 as [|c l1 Hc _ IH]; simpl; [reflexivity|].
  now rewrite Hc, IH.
Qed.

Lemma trimStart_spaces (spaces s : jsstring) :
  Forall (fun c => isSpace c = true) spaces ->
  trimStart (spaces ++ s) = trimStart s.
Proof.
  induction 1 as [|c l Hc _ IH]; simpl; [reflexivity|]. now rewrite Hc.
Qed.

Lemma isHash_eq (c : ascii) : isHash c = true -> c = chr 35.
Proof.
  unfold isHash, code, chr. intros H. apply Nat.eqb_eq in H.
  rewrite <- H. symmetry. apply ascii_nat_embedding.
Qed.

Lemma all_hashes (l : jsstring) :
  Forall (fun c => isHash c = true) l -> l = repeat (chr 35) (length l).
Proof.
  induction 1 as [|c l Hc _ IH]; simpl; [reflexivity|].
  now rewrite <- IH, (isHash_eq c Hc).
Qed.

Lemma space_not_hash (c : ascii) : isSpace c = true -> isHash c = false.
Proof.
  unfold isSpace, isHash. destruct (code c =? 35) eqn:E; [|reflexivity].
  apply Nat.eqb_eq in E. now rewrite E.
Qed.

Lemma restOfLine_Some (s rest : jsstring) :
  restOfLine s = Some rest <->
  rest = s /\ s <> [] /\ Forall (fun c => isLineTerminator c = false) s.
Proof.
  unfold restOfLine. destruct s as [|c s]; [split; [discriminate|tauto]|].
  destruct (forallb _ (c :: s)) eqn:E.
  - rewrite forallb_forall in E. split.
    + intros [= <-]. repeat split; [discriminate|].
      apply Forall_forall. intros x Hx. apply E in Hx.
      now apply negb_true_iff in Hx.
    + intros (-> & _ & _). reflexivity.
  - split; [discriminate|]. intros (_ & _ & H).
    rewrite Forall_forall in H.
    assert (forallb (fun c0 => negb (isLineTerminator c0)) (c :: s) = true).
    { apply forallb_forall. intros x Hx. now rewrite (H x Hx). }
    congruence.
Qed.

Lemma headingRegexExec_matches (l m1 m2 : jsstring) :
  headingRegexExec l = Some (m1, m2) -> matchesHeading l (length m1) (trim m2).
Proof.
  unfold headingRegexExec. intros H.
  apply firstSome_Some in H as (k & Hk & H).
  apply firstSome_Some in H as (j & Hj & H).
  apply downFrom_In in Hk. apply downFrom_In in Hj.
  destruct (restOfLine _) as [rest|] eqn:E; [|discriminate].
  injection H as <- <-.
  apply restOfLine_Some in E as (-> & Hne & Hlt).
  pose proof (takeWhile_length isHash l) as Hlen.
  assert (Hk' : length (firstn k l) = k) by (rewrite length_firstn; lia).
  exists (firstn j (skipn k l)), (skipn j (skipn k l)).
  rewrite Hk'. repeat split; try lia; try assumption.
  - rewrite firstn_skipn.
    rewrite <- Hk' at 1. rewrite <- all_hashes.
    + now rewrite firstn_skipn.
    + apply takeWhile_firstn. lia.
  - intros E. apply (f_equal (@length ascii)) in E.
    rewrite length_firstn in E. simpl in E.
    pose proof (takeWhile_length isSpace (skipn k l)). lia.
  - apply takeWhile_firstn. lia.
Qed.

(** The level and the text of a heading line are determined by the line. *)
Lemma matchesHeading_shape (l : jsstring) (level : nat) (text : jsstring) :
  matchesHeading l level text ->
  length (takeWhile isHash l) = level
  /\ text = trim (skipn level l)
  /\ 1 <= length (takeWhile isSpace (skipn level l)).
Proof.
  intros (spaces & rest & -> & Hlevel & Hne & Hsp & _ & _ & ->).
  assert (Hh : Forall (fun c => isHash c = true) (repeat (chr 35) level)).
  { apply Forall_forall. intros c Hc. apply repeat_spec in Hc. now subst. }
  assert (Hskip : skipn level (repeat (chr 35) level ++ spaces ++ rest)
                  = spaces ++ rest).
  { rewrite skipn_app, repeat_length, Nat.sub_diag, skipn_all2
      by (rewrite repeat_length; lia). reflexivity. }
  rewrite Hskip, (takeWhile_all isHash _ _ Hh), (takeWhile_all isSpace _ _ Hsp).
  repeat split.
  - destruct spaces as [|c spaces]; [contradiction|].
    inversion Hsp as [|? ? Hc _]. simpl. rewrite (space_not_hash c Hc).
    rewrite app_nil_r. apply repeat_length.
  - unfold trim. now rewrite trimStart_spaces.
  - destruct spaces; [contradiction|]. rewrite length_app. simpl. lia.
Qed.

Lemma matchesHeading_functional (l : jsstring) (level1 level2 : nat)
      (text1 text2 : jsstring) :
  matchesHeading l level1 text1 -> matchesHeading l level2 text2 ->
  level1 = level2 /\ text1 = text2.
Proof.
  intros H1 H2. apply matchesHeading_shape in H1 as (E1 & -> & _).
  apply matchesHeading_shape in H2 as (E2 & -> & _).
  assert (level1 = level2) by congruence. now subst.
Qed.

(** A line of that shape is matched by the pattern. *)
Lemma headingRegexExec_complete (l : jsstring) (level : nat) (text : jsstring) :
  matchesHeading l level text -> headingRegexExec l <> None.
Proof.
  intros H Hnone. pose proof (matchesHeading_shape _ _ _ H) as (Hh & _ & _).
  destruct H as (spaces & rest & -> & Hlevel & Hne & Hsp & Hrest & Hlt & _).
  unfold headingRegexExec in Hnone.
  rewrite Hh in Hnone.
  pose proof (firstSome_None _ _ Hnone level) as Hk.
  rewrite downFrom_In in Hk. specialize (Hk ltac:(lia)).
  assert (Hskip : skipn level (repeat (chr 35) level ++ spaces ++ rest)
                  = spaces ++ rest).
  { rewrite skipn_app, repeat_length, Nat.sub_diag, skipn_all2
      by (rewrite repeat_length; lia). reflexivity. }
  cbv beta in Hk. rewrite Hskip in Hk.
  pose proof (firstSome_None _ _ Hk (length spaces)) as Hj.
  rewrite downFrom_In, (takeWhile_all isSpace _ _ Hsp), length_app in Hj.
  assert (1 <= length spaces) by (destruct spaces; [contradiction|simpl; lia]).
  specialize (Hj ltac:(lia)). cbv beta in Hj.
  rewrite skipn_app, Nat.sub_diag, skipn_all in Hj. simpl in Hj.
  destruct (restOfLine rest) eqn:E; [discriminate|].
  assert (restOfLine rest = Some rest) by (apply restOfLine_Some; auto).
  congruence.
Qed.

Lemma headingsFrom_In (lines : list jsstring) :
  forall i h,
    In h (headingsFrom i lines) <->
    exists n l,
      nth_error lines n = Some l
      /\ Heading.line h = i + n + 1
      /\ matchesHeading l (Heading.level h) (Heading.text h)
      /\ Heading.id h = slug (Heading.text h).
Proof.
  induction lines as [|l lines IH]; intros i h; cbn [headingsFrom].
  - split; [easy|]. intros ([|n] & l & H & _); discriminate.
  - destruct (headingRegexExec l) as [[m1 m2]|] eqn:E.
    + split.
      * intros [<-|Hin].
        -- exists 0, l. cbn. repeat split; [lia|].
           now apply headingRegexExec_matches.
        -- apply IH in Hin as (n & l' & Hn & Hline & Hm & Hid).
           exists (S n), l'. repeat split; auto. lia.
      * intros ([|n] & l' & Hn & Hline & Hm & Hid).
        -- injection Hn as <-. left.
           apply headingRegexExec_matches in E.
           destruct (matchesHeading_functional _ _ _ _ _ E Hm) as [E1 E2].
           destruct h as [hid htext hlevel hline]. cbn in *. subst.
           f_equal. lia.
        -- right. apply IH. exists n, l'. repeat split; auto. lia.
    + rewrite IH. split.
      * intros (n & l' & Hn & Hline & Hm & Hid).
        exists (S n), l'. repeat split; auto. lia.
      * intros ([|n] & l' & Hn & Hline & Hm & Hid).
        -- injection Hn as <-.
           now apply headingRegexExec_complete in Hm.
        -- exists n, l'. repeat split; auto. lia.
Qed.

Lemma headingsFrom_sorted (lines : list jsstring) :
  forall i,
    StronglySorted (fun a b => Heading.line a < Heading.line b)
      (headingsFrom i lines).
Proof.
  induction lines as [|l lines IH]; intros i; cbn [headingsFrom];
    [constructor|].
  destruct (headingRegexExec l) as [[m1 m2]|]; [|apply IH].
  constructor; [apply IH|].
  apply Forall_forall. intros h Hh.
  apply headingsFrom_In in Hh as (n & _ & _ & Hline & _). cbn. lia.
Qed.

(** C5 (fails on the code as stated).  The class that is stripped excludes
    the hyphen, so a hyphen of the heading text stays in the id. *)
Lemma heading_id_keeps_hyphen :
  useMarkdownHeadings (str "# a-b") = [Heading.mk (str "a-b") (str "a-b") 1 1]
  /\ specSlug (str "a-b") = str "ab"
  /\ exists h, In h (useMarkdownHeadings (str "# a-b"))
               /\ Heading.id h <> specSlug (Heading.text h).
Proof.
  split; [reflexivity|split; [reflexivity|]].
  exists (Heading.mk (str "a-b") (str "a-b") 1 1).
  split; [now left|discriminate].
Qed.

(** C5 (amended).  The headings of a content are exactly the entries with:
    a line of the content that matches the pattern, its 1-based number,
    the number of its hashes as level, the trimmed rest as text, and as id
    the lower-cased text without the characters that are neither word
    characters, white space nor hyphens, each run of white space replaced
    by one hyphen.  They come in the order of the lines, one per line. *)
Theorem useMarkdownHeadings_spec (content : jsstring) :
  (forall h,
     In h (useMarkdownHeadings content) <->
     exists n l,
       nth_error (splitLines content) n = Some l
       /\ Heading.line h = n + 1
       /\ matchesHeading l (Heading.level h) (Heading.text h)
       /\ Heading.id h
          = dashRuns false
              (removeAll
                 (fun c => negb (isWord c || isSpace c || (code c =? 45)))
                 (toLowerCase (Heading.text h))))
  /\ StronglySorted (fun a b => Heading.line a < Heading.line b)
       (useMarkdownHeadings content).
Proof.
  split; [|apply headingsFrom_sorted].
  intros h. unfold useMarkdownHeadings. rewrite headingsFrom_In. reflexivity.
Qed.

(** ** Auto-save *)

Lemma tryCatch_ret {S} (m : M S unit) (s : S) :
  tryCatch m (ret tt) s = (Resolved tt, snd (m s)).
Proof. unfold tryCatch, ret. now destruct (m s) as [[[]|] s']. Qed.

Lemma writes_app (j1 j2 : list StorageOp) :
  writes (j1 ++ j2) = writes j1 ++ writes j2.
Proof.
  unfold writes. induction j1 as [|op j1 IH]; simpl; [reflexivity|].
  destruct op; simpl; now rewrite IH.
Qed.

(** What a call to [writeTextFile] does to the world. *)
Lemma writeTextFile_world (p c : jsstring) (w : World) :
  let w' := snd (writeTextFile p c w) in
  journal w' = journal w ++ [OpWriteTextFile p c]
  /\ refused w' = refused w
  /\ (forall q, q <> p -> textFiles w' q = textFiles w q)
  /\ (refused w (OpWriteTextFile p c) = false -> textFiles w' p = Some c).
Proof.
  unfold writeTextFile, call. destruct (refused w _) eqn:E; simpl.
  - repeat split; congruence.
  - repeat split.
    + intros q Hq. unfold update. apply eqb_neq in Hq. now rewrite Hq.
    + intros _. unfold update. now rewrite eqb_refl.
Qed.

(** [loadNote] writes no file; it either opens the note or leaves the
    session as it was. *)
Lemma loadNote_cases (p : jsstring) (a : App) :
  let a' := snd (loadNote p a) in
  noWrite (world a) (world a')
  /\ ((exists body,
         store a'
         = withRecentNotes (pushRecent p (recentNotes (store a)))
             (withIsLoading false
                (withIsDirty false
                   (withContent body
                      (withCurrentNote (Some p)
                         (withIsLoading true (store a)))))))
      \/ store a' = withIsLoading false (store a)).
Proof.
  unfold loadNote, loadNoteTry, readTextFile, getMetaStore, storeSet,
    storeSave, pushRecent, noWrite.
  unfold_monad. simpl.
  destruct (refused (world a) (OpReadTextFile p)); simpl;
    [rewrite writes_app, app_nil_r; auto|].
  destruct (textFiles (world a) p) as [body|]; simpl;
    [|rewrite writes_app, app_nil_r; auto].
  destruct (storeLoaded (world a)); simpl;
    repeat match goal with
           | |- context [if refused (world a) ?op then _ else _] =>
               destruct (refused (world a) op); simpl
           end;
    rewrite ?writes_app, ?app_nil_r; eauto 6.
Qed.

Lemma sameDeps_refl (r : Render) : sameDeps r r = true.
Proof.
  unfold sameDeps. rewrite eqb_refl, Bool.eqb_reflx.
  destruct (renderedNote r); [now rewrite eqb_refl|reflexivity].
Qed.

Lemma sameDeps_eq (r1 r2 : Render) : sameDeps r1 r2 = true -> r1 = r2.
Proof.
  destruct r1 as [n1 c1 d1], r2 as [n2 c2 d2]. unfold sameDeps. simpl.
  intros H. apply andb_true_iff in H as [H Hd].
  apply andb_true_iff in H as [Hn Hc].
  apply eqb_eq in Hc. apply Bool.eqb_prop in Hd. subst.
  destruct n1 as [p|], n2 as [q|]; try discriminate; [|reflexivity].
  apply eqb_eq in Hn. now subst.
Qed.

Lemma commit_run (s : Sys) :
  snd (commit s)
  = if sameDeps (renderOf (store (application s))) (rendered (editor s))
    then s
    else mkSys
           (mkApp (store (application s))
                  (flushed (rendered (editor s)) (world (application s))))
           (mkComponent None (pendingSaveRef (editor s))
                        (renderOf (store (application s)))).
Proof.
  unfold commit, bind at 1, gets. cbv beta iota.
  destruct (sameDeps _ _); [reflexivity|].
  unfold cleanup, flushed, setTimeoutRef, setRendered.
  destruct s as [[st w] [t pend [n c d]]]. cbn.
  destruct n as [p|]; [|reflexivity].
  destruct (d && truthy (Some p)); [|reflexivity].
  unfold bind, modify. cbn. rewrite tryCatch_ret. cbn.
  unfold inStore, io, zoom. cbn.
  now destruct (writeTextFile p c w).
Qed.

(** After every event the component has rendered the store as it is. *)
Lemma step_rendered (e : Event) (s : Sys) :
  rendered (editor (step e s)) = renderOf (store (application (step e s))).
Proof.
  unfold step. rewrite commit_run.
  destruct (sameDeps _ _) eqn:E; [|reflexivity].
  apply sameDeps_eq in E. now rewrite E.
Qed.

Lemma Reachable_rendered (s : Sys) :
  Reachable s -> rendered (editor s) = renderOf (store (application s)).
Proof. intros [a|e s' _]; [reflexivity|apply step_rendered]. Qed.

Lemma truthy_Some (p : jsstring) : p <> [] -> truthy (Some p) = true.
Proof. destruct p; [contradiction|reflexivity]. Qed.

Lemma commit_store (s : Sys) :
  store (application (snd (commit s))) = store (application s).
Proof. rewrite commit_run. now destruct (sameDeps _ _). Qed.

(** An edit of the open note: the store takes the new content and becomes
    dirty, the render that follows captures both, and the only file that
    may be written meanwhile is the open note, with its previous content. *)
Lemma change_step (st : NoteState) (w : World) (t : option (option jsstring))
      (pend : option (jsstring * jsstring)) (A v : jsstring) :
  currentNote st = Some A -> A <> [] ->
  exists t1 w1,
    step (Change v) (mkSys (mkApp st w) (mkComponent t pend (renderOf st)))
    = mkSys (mkApp (withIsDirty true (withContent v st)) w1)
            (mkComponent t1 (Some (A, v)) (mkRender (Some A) v true))
    /\ (w1 = w \/ w1 = snd (writeTextFile A (content st) w)).
Proof.
  intros Hcur HA.
  assert (Hh : snd (handle (Change v)
                      (mkSys (mkApp st w) (mkComponent t pend (renderOf st))))
               = mkSys (mkApp (withIsDirty true (withContent v st)) w)
                       (mkComponent (Some (Some A)) (Some (A, v))
                                    (renderOf st))).
  { unfold handle, handleChange, setContent, setPendingSaveRef, setTimeoutRef,
      inStore.
    unfold_monad. cbn. rewrite Hcur.
    destruct A; [contradiction|reflexivity]. }
  unfold step. rewrite Hh, commit_run.
  cbn [application store editor rendered pendingSaveRef world].
  assert (Hr : renderOf (withIsDirty true (withContent v st))
               = mkRender (Some A) v true).
  { unfold renderOf. cbn. now rewrite Hcur. }
  rewrite Hr. destruct (sameDeps _ _) eqn:E.
  - apply sameDeps_eq in E. rewrite <- E. eauto.
  - exists None, (flushed (renderOf st) w). split; [reflexivity|].
    unfold flushed, renderOf. cbn. rewrite Hcur.
    destruct (isDirty st && truthy (Some A)); auto.
Qed.

(** C1.  Note [A] is open and is edited to [v]; before the timeout fires,
    note [B] is opened.  Then the switch itself writes [v] to the path of
    [A]; every write since the edit went to the path of [A], so that the
    file of [B] is as it was and, unless the back end refuses the write,
    the file of [A] holds [v]; and the timeout armed by the edit is
    cancelled: when its delay elapses nothing happens. *)
Theorem switch_flushes_previous_note (s : Sys) (A B v : jsstring) :
  Reachable s ->
  currentNote (store (application s)) = Some A -> A <> [] ->
  B <> A ->
  let s1 := step (Change v) s in
  let s2 := step (Open B) s1 in
  currentNote (store (application s2)) = Some B ->
  writes (journalOf s2) = writes (journalOf s1) ++ [(A, v)]
  /\ (forall p c, In (p, c) (writes (journalOf s2)) ->
                  In (p, c) (writes (journalOf s)) \/ p = A)
  /\ (refused (world (application s)) (OpWriteTextFile A v) = false ->
      textFiles (world (application s2)) A = Some v)
  /\ textFiles (world (application s2)) B
     = textFiles (world (application s)) B
  /\ saveTimeoutRef (editor s2) = None
  /\ step Timeout s2 = s2.
Proof.
  intros Hreach Hcur HA HB. cbv zeta.
  pose proof (Reachable_rendered s Hreach) as Hr.
  destruct s as [[st w] [t pend r]]. cbn in Hr, Hcur. subst r.
  destruct (change_step st w t pend A v Hcur HA) as (t1 & w1 & E1 & Hw1).
  rewrite E1. clear E1.
  set (st1 := withIsDirty true (withContent v st)).
  set (ed1 := mkComponent t1 (Some (A, v)) (mkRender (Some A) v true)).
  (* the load, then the render that follows *)
  assert (E2 : step (Open B) (mkSys (mkApp st1 w1) ed1)
               = snd (commit (mkSys (snd (loadNote B (mkApp st1 w1))) ed1))).
  { unfold step. do 2 f_equal. unfold handle, inStore, zoom.
    cbn [application editor]. now destruct (loadNote B (mkApp st1 w1)). }
  rewrite E2. clear E2.
  pose proof (loadNote_cases B (mkApp st1 w1)) as [Hnw Hst]. cbv zeta in *.
  destruct (snd (loadNote B (mkApp st1 w1))) as [st2 w2].
  cbn [store world] in Hnw, Hst.
  intros Hopen. rewrite commit_store in Hopen. cbn in Hopen.
  destruct Hst as [[body Hst]|Hst];
    [|subst st2; cbn in Hopen; congruence].
  rewrite commit_run. subst ed1.
  cbn [application store editor rendered pendingSaveRef world].
  assert (Hdiff : sameDeps (renderOf st2) (mkRender (Some A) v true) = false).
  { subst st2. unfold sameDeps, renderOf. cbn.
    apply eqb_neq in HB. now rewrite HB. }
  rewrite Hdiff. unfold flushed, journalOf.
  cbn [renderedNote renderedIsDirty renderedContent application world editor
       saveTimeoutRef].
  rewrite (truthy_Some A HA). cbn [andb].
  destruct Hnw as (Htext & Hrefused & Hwrites).
  destruct (writeTextFile_world A v w2) as (Hj & Hrf & Hother & Hthis).
  cbv zeta in Hj, Hrf, Hother, Hthis.
  assert (Hrefused1 : refused w1 = refused w).
  { destruct Hw1 as [->| ->]; [reflexivity|].
    now destruct (writeTextFile_world A (content st) w) as (_ & ? & _). }
  assert (Htext1 : textFiles w1 B = textFiles w B).
  { destruct Hw1 as [->| ->]; [reflexivity|].
    destruct (writeTextFile_world A (content st) w) as (_ & _ & H & _).
    now apply H. }
  assert (Hwrites1 : forall p c, In (p, c) (writes (journal w1)) ->
                                 In (p, c) (writes (journal w)) \/ p = A).
  { destruct Hw1 as [->| ->]; [auto|].
    destruct (writeTextFile_world A (content st) w) as (Hj1 & _).
    cbv zeta in Hj1. rewrite Hj1, writes_app. intros p c Hin.
    apply in_app_or in Hin as [Hin|[[= <- <-]|[]]]; auto. }
  rewrite Hj, writes_app, Hwrites.
  repeat split.
  - intros p c Hin. apply in_app_or in Hin as [Hin|[[= <- <-]|[]]]; auto.
  - intros Hnr. apply Hthis. now rewrite Hrefused, Hrefused1.
  - rewrite (Hother B HB), Htext. exact Htext1.
  - match goal with
    | |- step Timeout ?x = _ =>
        change (snd (commit (snd (handle Timeout x))) = x);
        replace (snd (handle Timeout x)) with x by reflexivity
    end.
    rewrite commit_run. cbn [application store editor rendered].
    now rewrite sameDeps_refl.
Qed.

Lemma switch_flushes_previous_note_witness :
  let s := step (Open (str "/n/a.md")) (mount (mkApp initialState twoNotes)) in
  let s1 := step (Change (str "# a, edited")) s in
  let s2 := step (Open (str "/n/b.md")) s1 in
  writes (journalOf s2)
  = writes (journalOf s1) ++ [(str "/n/a.md", str "# a, edited")]
  /\ (forall p c, In (p, c) (writes (journalOf s2)) ->
                  In (p, c) (writes (journalOf s)) \/ p = str "/n/a.md")
  /\ (refused (world (application s))
        (OpWriteTextFile (str "/n/a.md") (str "# a, edited")) = false ->
      textFiles (world (application s2)) (str "/n/a.md")
      = Some (str "# a, edited"))
  /\ textFiles (world (application s2)) (str "/n/b.md")
     = textFiles (world (application s)) (str "/n/b.md")
  /\ saveTimeoutRef (editor s2) = None
  /\ step Timeout s2 = s2.
Proof.
  apply (switch_flushes_previous_note
           (step (Open (str "/n/a.md")) (mount (mkApp initialState twoNotes)))
           (str "/n/a.md") (str "/n/b.md") (str "# a, edited")).
  - apply ReachStep, ReachMount.
  - reflexivity.
  - discriminate.
  - discriminate.
  - reflexivity.
Defined.

(** *** The armed timeout belongs to the open note *)






Lemma handleChange_run (v : jsstring) (s : Sys) :
  let closed := renderedNote (rendered (editor s)) in
  snd (handleChange v s)
  = mkSys (snd (setContent v (application s)))
          (mkComponent (Some closed)
             (match closed with
              | Some p =>
                  if truthy closed then Some (p, v)
                  else pendingSaveRef (editor s)
              | None => pendingSaveRef (editor s)
              end)
             (rendered (editor s))).
Proof.
  destruct s as [[st w] [t pend [[[|x p]|] rc rd]]]; reflexivity.
Qed.







(* ===================================================================== *)
(** * Further properties of the code *)
(* ===================================================================== *)

(** ** Path guard *)

Lemma trimStart_shape (s : jsstring) :
  trimStart s = [] \/ exists c t, trimStart s = c :: t /\ isSpace c = false.
Proof.
  induction s as [|c s IH]; simpl; [now left|].
  destruct (isSpace c) eqn:E; [exact IH|]. right. now exists c, s.
Qed.

Lemma trimStart_fixed (c : ascii) (s : jsstring) :
  isSpace c = false -> trimStart (c :: s) = c :: s.
Proof. intros H. simpl. now rewrite H. Qed.

Lemma trimStart_idempotent (s : jsstring) :
  trimStart (trimStart s) = trimStart s.
Proof.
  destruct (trimStart_shape s) as [->|(c & t & -> & H)]; [reflexivity|].
  now apply trimStart_fixed.
Qed.

(** Trimming only takes white space away, at both ends. *)
Lemma trimStart_split (s : jsstring) :
  exists spaces,
    s = spaces ++ trimStart s /\ Forall (fun c => isSpace c = true) spaces.
Proof.
  induction s as [|c s (spaces & E & H)]; simpl.
  - now exists [].
  - destruct (isSpace c) eqn:Ec.
    + exists (c :: spaces). split; [simpl; now f_equal|now constructor].
    + now exists [].
Qed.

Lemma trimEnd_split (s : jsstring) :
  exists spaces,
    s = trimEnd s ++ spaces /\ Forall (fun c => isSpace c = true) spaces.
Proof.
  destruct (trimStart_split (rev s)) as (spaces & E & H).
  exists (rev spaces). split.
  - unfold trimEnd. rewrite <- rev_app_distr, <- E. now rewrite rev_involutive.
  - now apply Forall_rev.
Qed.

Lemma trimEnd_idempotent (s : jsstring) : trimEnd (trimEnd s) = trimEnd s.
Proof.
  unfold trimEnd. now rewrite rev_involutive, trimStart_idempotent.
Qed.

Lemma trim_idempotent (s : jsstring) : trim (trim s) = trim s.
Proof.
  unfold trim. set (t := trimStart s).
  assert (H : trimStart (trimEnd t) = trimEnd t).
  { destruct (trimEnd_split t) as (spaces & E & _).
    destruct (trimEnd t) as [|c u] eqn:Eu; [reflexivity|].
    apply trimStart_fixed.
    destruct (trimStart_shape s) as [H|(c' & t' & H & Hc)]; fold t in H;
      rewrite H in E; [discriminate|].
    injection E as -> _. exact Hc. }
  now rewrite H, trimEnd_idempotent.
Qed.

Lemma removeAll_fixed (cls : ascii -> bool) (s : jsstring) :
  (forall c, In c s -> cls c = false) -> removeAll cls s = s.
Proof.
  unfold removeAll. induction s as [|c s IH]; intros H; simpl; [reflexivity|].
  rewrite (H c (or_introl eq_refl)). simpl. f_equal. apply IH. intros x Hx.
  apply H. now right.
Qed.

Lemma removeAll_clean (cls : ascii -> bool) (s : jsstring) (c : ascii) :
  In c (removeAll cls s) -> cls c = false /\ In c s.
Proof.
  unfold removeAll. intros H. apply filter_In in H as [Hin Hc].
  now apply negb_true_iff in Hc.
Qed.

Lemma removeDotDot_fixed (s : jsstring) :
  includes s (str "..") = false -> removeDotDot s = s.
Proof.
  induction s as [|c s IH]; [reflexivity|].
  rewrite includes_cons. intros H. apply orb_false_iff in H as [Hp Hs].
  cbn [removeDotDot]. destruct s as [|d s']; [reflexivity|].
  change (startsWith (c :: d :: s') (str ".."))
    with (Ascii.eqb (chr 46) c && (Ascii.eqb (chr 46) d && true)) in Hp.
  assert (Hcd : (code c =? 46) && (code d =? 46) = false).
  { destruct (code c =? 46) eqn:Ec, (code d =? 46) eqn:Ed; try reflexivity.
    apply Nat.eqb_eq in Ec, Ed. unfold code in Ec, Ed.
    rewrite <- (ascii_nat_embedding c), <- (ascii_nat_embedding d), Ec, Ed in Hp.
    discriminate. }
  rewrite Hcd. f_equal. now apply IH.
Qed.

Lemma includes_false (s p : jsstring) :
  includes s p = false <-> forall a b, s <> a ++ p ++ b.
Proof.
  split.
  - intros H a b E. assert (includes s p = true) by (apply includes_spec; eauto).
    congruence.
  - intros H. destruct (includes s p) eqn:E; [|reflexivity].
    apply includes_spec in E as (a & b & E). now apply H in E.
Qed.

(** X1.  [isValidName] accepts exactly the names that are not blank, hold
    neither two dots in a row nor a slash nor a backslash, do not start
    with a dot and hold no reserved character. *)
Theorem isValidName_spec (name : jsstring) :
  isValidName name = true <->
  trim name <> []
  /\ (forall a b, name <> a ++ str ".." ++ b)
  /\ ~ In (chr 47) name
  /\ ~ In (chr 92) name
  /\ (forall rest, name <> chr 46 :: rest)
  /\ (forall c, In c name -> isReserved c = false).
Proof.
  unfold isValidName.
  rewrite <- includes_false, <- (includes_unit name (chr 47)),
    <- (includes_unit name (chr 92)).
  change (str "/") with [chr 47].
  assert (Hdot : startsWith name (str ".") = false <->
                 forall rest, name <> chr 46 :: rest).
  { split.
    - intros H rest ->. discriminate.
    - intros H. destruct (startsWith name (str ".")) eqn:E; [|reflexivity].
      apply startsWith_spec in E as [rest E]. now apply H in E. }
  assert (Hres : existsb isReserved name = false <->
                 forall c, In c name -> isReserved c = false).
  { split.
    - intros H c Hc. destruct (isReserved c) eqn:E; [|reflexivity].
      assert (existsb isReserved name = true)
        by (apply existsb_exists; eauto). congruence.
    - intros H. destruct (existsb isReserved name) eqn:E; [|reflexivity].
      apply existsb_exists in E as (c & Hc & E). rewrite (H c Hc) in E.
      discriminate. }
  rewrite <- Hdot, <- Hres.
  destruct (Js.eqb name []) eqn:E1.
  { apply eqb_eq in E1. subst. simpl. split; [discriminate|].
    intros (H & _). now contradiction H. }
  destruct (Js.eqb (trim name) []) eqn:E2; cbn [orb].
  { apply eqb_eq in E2. split; [discriminate|]. intros (H & _).
    now contradiction H. }
  apply eqb_neq in E2.
  destruct (includes name (str "..")), (includes name [chr 47]),
    (includes name [chr 92]), (startsWith name (str ".")),
    (existsb isReserved name); cbn;
    intuition (try discriminate; try congruence).
Qed.

(** X2.  Whatever the input, the sanitized name holds no separator and no
    reserved character, and no white space at either end. *)
Theorem sanitizeFileName_safe (name : jsstring) :
  (forall c, In c (sanitizeFileName name) ->
             isSeparator c = false /\ isReserved c = false)
  /\ trim (sanitizeFileName name) = sanitizeFileName name.
Proof.
  unfold sanitizeFileName. split; [|apply trim_idempotent].
  intros c Hc. apply trim_incl in Hc.
  apply removeAll_clean in Hc as [Hr Hc].
  apply removeAll_clean in Hc as [Hs _]. now split.
Qed.

(** X3.  A name that [isValidName] accepts is only trimmed by
    [sanitizeFileName]: nothing else is removed. *)
Theorem sanitizeFileName_valid (name : jsstring) :
  isValidName name = true -> sanitizeFileName name = trim name.
Proof.
  intros H. apply isValidName_spec in H as (_ & Hdots & Hs & Hb & _ & Hres).
  unfold sanitizeFileName.
  rewrite removeDotDot_fixed by (now apply includes_false).
  rewrite (removeAll_fixed isSeparator), (removeAll_fixed isReserved);
    [reflexivity|exact Hres|].
  intros c Hc. unfold isSeparator.
  destruct (code c =? 47) eqn:E1; [|destruct (code c =? 92) eqn:E2];
    [| |reflexivity];
    apply Nat.eqb_eq in E1 || apply Nat.eqb_eq in E2;
    exfalso; [apply Hs|apply Hb];
    [rewrite <- E1|rewrite <- E2]; unfold chr, code;
    now rewrite ascii_nat_embedding.
Qed.

Lemma sanitizeFileName_valid_witness :
  sanitizeFileName (str " my note.md ") = trim (str " my note.md ").
Proof. apply (sanitizeFileName_valid (str " my note.md ")). reflexivity. Defined.

(** ** Mutators *)

Lemma lastIndexOf_split (parent base : jsstring) (c : ascii) :
  ~ In c base ->
  lastIndexOf (parent ++ c :: base) c = Some (length parent).
Proof.
  intros Hbase.
  assert (Hb : lastIndexOf base c = None).
  { induction base as [|x base IH]; [reflexivity|]. simpl.
    rewrite IH by (intros H; apply Hbase; now right).
    destruct (Ascii.eqb x c) eqn:E; [|reflexivity].
    apply Ascii.eqb_eq in E. subst. exfalso. apply Hbase. now left. }
  induction parent as [|x parent IH]; simpl.
  - now rewrite Hb, Ascii.eqb_refl.
  - now rewrite IH.
Qed.

Lemma baseName_split (parent base : jsstring) :
  ~ In (chr 47) base -> baseName (parent ++ str "/" ++ base) = base.
Proof.
  intros H. unfold baseName, substringFrom.
  change (str "/" ++ base) with (chr 47 :: base).
  rewrite (lastIndexOf_split parent base (chr 47) H).
  rewrite skipn_app, skipn_all2 by lia.
  replace (length parent + 1 - length parent) with 1 by lia. reflexivity.
Qed.

Lemma parentOf_split (parent base : jsstring) :
  ~ In (chr 47) base -> parentOf (parent ++ str "/" ++ base) = parent.
Proof.
  intros H. unfold parentOf, substringTo.
  change (str "/" ++ base) with (chr 47 :: base).
  rewrite (lastIndexOf_split parent base (chr 47) H).
  now rewrite firstn_app, Nat.sub_diag, firstn_all, app_nil_r.
Qed.

(** What [rename] does to the world. *)
Lemma rename_world (a b : jsstring) (w : World) :
  match fst (rename a b w) with
  | Resolved _ =>
      present w a = true
      /\ textFiles (snd (rename a b w)) b = textFiles w a
      /\ present (snd (rename a b w)) b = true
  | Rejected =>
      textFiles (snd (rename a b w)) = textFiles w
      /\ present (snd (rename a b w)) = present w
  end.
Proof.
  unfold rename, call. destruct (refused w _); cbn; [now split|].
  destruct (present w a) eqn:E; cbn; [|now split].
  unfold movedFrom. rewrite eqb_refl. repeat split. exact E.
Qed.

(** X4.  [moveItem] never rejects.  When it resolves with [null] no file
    and no entry has changed.  When it resolves with a path, that path is
    the target folder, a slash and the last segment of the source; nothing
    was there before, the source was there, and what was at the source is
    now at that path. *)
Theorem moveItem_all_or_nothing (sourcePath targetFolder : jsstring)
        (w : World) :
  match moveItem sourcePath targetFolder w with
  | (Rejected, _) => False
  | (Resolved None, w') =>
      textFiles w' = textFiles w /\ present w' = present w
  | (Resolved (Some p), w') =>
      p = targetFolder ++ str "/" ++ baseName sourcePath
      /\ isValidName (baseName sourcePath) = true
      /\ present w p = false
      /\ present w sourcePath = true
      /\ textFiles w' p = textFiles w sourcePath
      /\ present w' p = true
  end.
Proof.
  unfold moveItem. fold (baseName sourcePath).
  destruct (isValidName (baseName sourcePath)) eqn:Ev; cbn [negb];
    [|now split].
  destruct (_ || _); [now split|].
  destruct (Js.eqb _ sourcePath); [now split|].
  set (p := targetFolder ++ str "/" ++ baseName sourcePath).
  unfold tryCatch, bind, ret, exists_, call.
  destruct (refused w (OpExists p)); [now split|].
  cbn [fst snd present record]. destruct (present w p) eqn:Ep; [now split|].
  pose proof (rename_world sourcePath p (record (OpExists p) w)) as H.
  destruct (rename sourcePath p (record (OpExists p) w)) as [[[]|] w'];
    cbn [fst snd] in H.
  - destruct H as (Hs & Ht & Hp). repeat split; assumption.
  - exact H.
Qed.

(** X5.  [renameItem] never rejects.  When it resolves with [null] no file
    and no entry has changed.  When it resolves with a path, that path is
    the parent of the old path, a slash and the sanitized new name, which
    [isValidName] accepts; the old path was there, and what was at it is
    now at the new path. *)
Theorem renameItem_all_or_nothing (oldPath newName : jsstring) (w : World) :
  match renameItem oldPath newName w with
  | (Rejected, _) => False
  | (Resolved None, w') =>
      textFiles w' = textFiles w /\ present w' = present w
  | (Resolved (Some p), w') =>
      p = parentOf oldPath ++ str "/" ++ sanitizeFileName newName
      /\ isValidName (sanitizeFileName newName) = true
      /\ present w oldPath = true
      /\ textFiles w' p = textFiles w oldPath
      /\ present w' p = true
  end.
Proof.
  unfold renameItem. fold (parentOf oldPath).
  destruct (isValidName (sanitizeFileName newName)) eqn:Ev; cbn [negb];
    [|now split].
  set (p := parentOf oldPath ++ str "/" ++ sanitizeFileName newName).
  unfold tryCatch, bind, ret.
  pose proof (rename_world oldPath p w) as H.
  destruct (rename oldPath p w) as [[[]|] w']; cbn [fst snd] in H.
  - destruct H as (Hs & Ht & Hp). repeat split; assumption.
  - exact H.
Qed.

(** X6.  A renamed item stays in its folder: for an old path made of a
    folder, a slash and a name without slash, the new path is the same
    folder, a slash and a name without slash or backslash. *)
Theorem renameItem_same_folder (folder base newName p : jsstring)
        (w : World) :
  ~ In (chr 47) base ->
  fst (renameItem (folder ++ str "/" ++ base) newName w) = Resolved (Some p) ->
  exists base',
    p = folder ++ str "/" ++ base'
    /\ ~ In (chr 47) base' /\ ~ In (chr 92) base'
    /\ baseName p = base' /\ parentOf p = folder.
Proof.
  intros Hbase H.
  pose proof (renameItem_all_or_nothing (folder ++ str "/" ++ base) newName w)
    as Hr.
  destruct (renameItem _ newName w) as [[[q|]|] w']; cbn in H;
    try discriminate.
  injection H as ->. destruct Hr as (-> & Hv & _).
  rewrite (parentOf_split folder base Hbase).
  apply isValidName_spec in Hv as (_ & _ & Hs & Hb & _).
  exists (sanitizeFileName newName). repeat split; try assumption.
  - now apply baseName_split.
  - now apply parentOf_split.
Qed.

Lemma renameItem_same_folder_witness :
  exists base',
    str "/n/work/todo.md" = str "/n/work" ++ str "/" ++ base'
    /\ ~ In (chr 47) base' /\ ~ In (chr 92) base'
    /\ baseName (str "/n/work/todo.md") = base'
    /\ parentOf (str "/n/work/todo.md") = str "/n/work".
Proof.
  apply (renameItem_same_folder (str "/n/work") (str "plan.md")
           (str "to/do.md") (str "/n/work/todo.md")
           (noteWorld [(str "/n/work/plan.md", str "# plan")])).
  - intros [H|[H|[H|[H|[H|[H|[H|[]]]]]]]]; discriminate.
  - reflexivity.
Defined.

Lemma endsWith_spec (s p : jsstring) :
  endsWith s p = true <-> exists a, s = a ++ p.
Proof.
  unfold endsWith. rewrite startsWith_spec. split.
  - intros [rest E]. exists (rev rest).
    rewrite <- (rev_involutive s), E, rev_app_distr. now rewrite rev_involutive.
  - intros [a ->]. exists (rev a). apply rev_app_distr.
Qed.

Lemma noteFileName_md (n : jsstring) :
  exists a, noteFileName n = a ++ str ".md".
Proof.
  unfold noteFileName. destruct (endsWith n (str ".md")) eqn:E.
  - now apply endsWith_spec.
  - now exists n.
Qed.

(** X7.  [createNote] never rejects.  When it resolves with [null] no file
    and no entry has changed.  When it resolves with a path, that path is
    the folder, a slash and the sanitized name, with [.md] appended unless
    the name ends with it; nothing was at that path before; the file there
    now holds the heading made of the name; and every other file is as it
    was, so that no existing file is overwritten. *)
Theorem createNote_all_or_nothing (folder name : jsstring) (w : World) :
  match createNote folder name w with
  | (Rejected, _) => False
  | (Resolved None, w') =>
      textFiles w' = textFiles w /\ present w' = present w
  | (Resolved (Some p), w') =>
      p = folder ++ str "/" ++ noteFileName (sanitizeFileName name)
      /\ isValidName (sanitizeFileName name) = true
      /\ endsWith p (str ".md") = true
      /\ present w p = false
      /\ textFiles w' p = Some (noteTemplate (sanitizeFileName name))
      /\ (forall q, q <> p -> textFiles w' q = textFiles w q)
  end.
Proof.
  unfold createNote. fold (noteFileName (sanitizeFileName name)).
  fold (noteTemplate (sanitizeFileName name)).
  destruct (isValidName (sanitizeFileName name)) eqn:Ev; cbn [negb];
    [|now split].
  set (p := folder ++ str "/" ++ noteFileName (sanitizeFileName name)).
  unfold tryCatch, bind, ret, throw, exists_, call.
  destruct (refused w (OpExists p)); [now split|].
  cbn [fst snd present record]. destruct (present w p) eqn:Ep; [now split|].
  pose proof (writeTextFile_world p (noteTemplate (sanitizeFileName name))
                (record (OpExists p) w)) as (_ & _ & Hother & Hthis).
  cbv zeta in Hother, Hthis.
  unfold writeTextFile, call in *. cbn [refused record] in *.
  destruct (refused w (OpWriteTextFile p _)) eqn:Er; cbn [fst snd] in *;
    [now split|].
  repeat split; try assumption.
  - destruct (noteFileName_md (sanitizeFileName name)) as [a E].
    apply endsWith_spec. exists (folder ++ str "/" ++ a).
    unfold p. rewrite E. now rewrite <- !app_assoc.
  - now apply Hthis.
Qed.

(** X8.  A note that [createNote] made and [loadNote] then opens shows the
    heading made of its name: the content starts with a hash and a space,
    and the session is not dirty. *)
Theorem createNote_then_loadNote (folder name p : jsstring) (w : World)
        (st : NoteState) :
  fst (createNote folder name w) = Resolved (Some p) ->
  let a := mkApp st (snd (createNote folder name w)) in
  loadNoteSucceeds p a ->
  let s' := store (snd (loadNote p a)) in
  currentNote s' = Some p
  /\ content s' = noteTemplate (sanitizeFileName name)
  /\ startsWith (content s') (str "# ") = true
  /\ isDirty s' = false.
Proof.
  intros Hc a Hl.
  pose proof (createNote_all_or_nothing folder name w) as H.
  destruct (createNote folder name w) as [[[q|]|] w'] eqn:E; cbn in Hc;
    try discriminate.
  injection Hc as ->. destruct H as (_ & _ & _ & _ & Hbody & _).
  destruct (loadNote_success p a Hl) as (body & w2 & Hb & Hs).
  cbv zeta. rewrite Hs. cbn in Hb |- *. rewrite Hbody in Hb.
  injection Hb as <-. repeat split.
Qed.

Lemma createNote_then_loadNote_witness :
  let a :=
    mkApp initialState (snd (createNote (str "/n") (str "Test") emptyWorld)) in
  let s' := store (snd (loadNote (str "/n/Test.md") a)) in
  currentNote s' = Some (str "/n/Test.md")
  /\ content s' = noteTemplate (sanitizeFileName (str "Test"))
  /\ startsWith (content s') (str "# ") = true
  /\ isDirty s' = false.
Proof.
  apply (createNote_then_loadNote (str "/n") (str "Test") (str "/n/Test.md")
           emptyWorld initialState); reflexivity.
Defined.

(** ** Favorites over a fresh tree *)

Lemma markNode_name (favs : list jsstring) (node : FileNode) :
  name (markNode favs node) = name node.
Proof. now destruct node. Qed.

Lemma markNode_isDirectory (favs : list jsstring) (node : FileNode) :
  isDirectory (markNode favs node) = isDirectory node.
Proof. now destruct node. Qed.

Lemma markNode_children (favs : list jsstring) (node : FileNode) :
  children (markNode favs node)
  = option_map (map (markNode favs)) (children node).
Proof. now destruct node as [n p d [kids|] fav]. Qed.

Lemma markFavorites_siblings (lc : jsstring -> jsstring -> Z)
      (favs : list jsstring) (nodes : list FileNode) :
  StronglySorted (siblingOrder lc) nodes ->
  StronglySorted (siblingOrder lc) (map (markNode favs) nodes).
Proof.
  induction 1 as [|a l Hl IH Ha]; simpl; constructor; [exact IH|].
  apply Forall_map. eapply Forall_impl; [|exact Ha].
  intros b. unfold siblingOrder.
  now rewrite !markNode_isDirectory, !markNode_name.
Qed.

Lemma markFavorites_sorted (lc : jsstring -> jsstring -> Z)
      (favs : list jsstring) (tree : list FileNode) :
  sortedAtEveryLevel lc tree ->
  sortedAtEveryLevel lc (markFavorites favs tree).
Proof.
  intros [Htop Hkids]. split; [now apply markFavorites_siblings|].
  intros n kids Hn Hc. rewrite allNodes_markFavorites in Hn.
  apply in_map_iff in Hn as (m & <- & Hm).
  rewrite markNode_children in Hc.
  destruct (children m) as [ks|] eqn:Em; [|discriminate].
  injection Hc as <-. apply markFavorites_siblings. now apply (Hkids m).
Qed.

(** X9.  [setFiles] lays the favorites over a tree: afterwards a node, at
    any depth, is marked exactly when its path is a favorite, and the
    names, paths, kinds, shape and order of the nodes are those of the tree
    given; nothing else in the store changes and no storage call is made. *)
Theorem setFiles_marks (fs : list FileNode) (a : App) :
  let a' := snd (setFiles fs a) in
  (forall n, In n (allNodes (files (store a'))) ->
     (isFavorite n = Some true <-> In (path n) (favorites (store a)))
     /\ (isFavorite n = Some false <-> ~ In (path n) (favorites (store a))))
  /\ map unmarked (files (store a')) = map unmarked fs
  /\ store a' = withFilesOf (files (store a')) (store a)
  /\ world a' = world a.
Proof.
  assert (E : snd (setFiles fs a)
              = mkApp (withFilesOf (markFavorites (favorites (store a)) fs)
                         (store a))
                      (world a)) by reflexivity.
  cbv zeta. rewrite E. cbn [store files withFilesOf world].
  split; [|split; [|split; reflexivity]].
  - intros n Hn. rewrite allNodes_markFavorites in Hn.
    apply in_map_iff in Hn as (m & <- & _).
    rewrite markNode_isFavorite, markNode_path, <- arrayIncludes_In.
    destruct (arrayIncludes _ (path m)); split; split; congruence.
  - unfold markFavorites. rewrite map_map. apply map_ext.
    intros n. apply unmarked_markNode.
Qed.

Lemma toggleFavorite_files (p : jsstring) (a : App) :
  files (store (snd (toggleFavorite p a))) = files (store a)
  \/ files (store (snd (toggleFavorite p a)))
     = updateFavorites (toggled p (favorites (store a))) (files (store a)).
Proof.
  unfold toggleFavorite, getMetaStore, storeSet, storeSave, toggled.
  unfold_monad. simpl.
  destruct (storeLoaded (world a)); simpl;
    repeat match goal with
           | |- context [if refused (world a) ?op then _ else _] =>
               destruct (refused (world a) op); simpl
           end; auto.
Qed.

(** X10.  The tree of the store is sorted at every level after a refresh,
    that is [setFiles] on what [readNotesDirectory] returns, and
    [toggleFavorite] leaves a sorted tree sorted, whether the favorites
    could be persisted or not. *)
Theorem store_tree_sorted (localeCompare : jsstring -> jsstring -> Z) :
  (forall a b, (localeCompare a b <= 0)%Z \/ (localeCompare b a <= 0)%Z) ->
  (forall a b c, (localeCompare a b <= 0)%Z -> (localeCompare b c <= 0)%Z ->
                 (localeCompare a c <= 0)%Z) ->
  (forall p listing a,
     sortedAtEveryLevel localeCompare
       (files (store (snd (setFiles
          (readNotesDirectory localeCompare p listing) a)))))
  /\ (forall p a,
        sortedAtEveryLevel localeCompare (files (store a)) ->
        sortedAtEveryLevel localeCompare
          (files (store (snd (toggleFavorite p a))))).
Proof.
  intros Htotal Htrans. split.
  - intros p listing a.
    change (files (store (snd (setFiles
              (readNotesDirectory localeCompare p listing) a))))
      with (markFavorites (favorites (store a))
              (readNotesDirectory localeCompare p listing)).
    apply markFavorites_sorted.
    now apply readNotesDirectory_sorted.
  - intros p a H. destruct (toggleFavorite_files p a) as [-> | ->];
      [exact H|]. now apply markFavorites_sorted.
Qed.

Lemma store_tree_sorted_witness :
  (forall p listing a,
     sortedAtEveryLevel caseInsensitiveCompare
       (files (store (snd (setFiles
          (readNotesDirectory caseInsensitiveCompare p listing) a)))))
  /\ (forall p a,
        sortedAtEveryLevel caseInsensitiveCompare (files (store a)) ->
        sortedAtEveryLevel caseInsensitiveCompare
          (files (store (snd (toggleFavorite p a))))).
Proof.
  apply (store_tree_sorted caseInsensitiveCompare).
  - intros a b. apply compareUnits_total.
  - intros a b c. apply compareUnits_trans.
Defined.

(** ** Saving *)

(** X11.  [saveNote] never rejects, changes nothing in the store but
    [isDirty], and does not report a clean session without reason: when
    [isDirty] is false afterwards, either it was false before or the file
    of the open note now holds the content of the session. *)
Theorem saveNote_clean_means_saved (a : App) :
  let a' := snd (saveNote a) in
  fst (saveNote a) = Resolved tt
  /\ store a' = withIsDirty (isDirty (store a')) (store a)
  /\ (isDirty (store a') = false ->
      isDirty (store a) = false
      \/ exists p, currentNote (store a) = Some p
                   /\ textFiles (world a') p = Some (content (store a))).
Proof.
  unfold saveNote. unfold_monad. cbn [store world].
  destruct a as [[fs cur body dirty loading saving favs recents bl tags] w].
  cbn. destruct cur as [p|]; [|cbn; auto].
  destruct (negb (truthy (Some p)) || negb dirty) eqn:E; [cbn; auto|].
  apply orb_false_iff in E as [_ Ed]. apply negb_false_iff in Ed. subst dirty.
  pose proof (writeTextFile_world p body w) as (_ & _ & _ & Hthis).
  cbv zeta in Hthis. unfold writeTextFile, call in *. cbn [world store] in *.
  destruct (refused w (OpWriteTextFile p body)); cbn in *.
  - repeat split. discriminate.
  - repeat split. intros _. right. exists p. split; [reflexivity|].
    now apply Hthis.
Qed.

(** X12.  Edit, save, reopen: when a note is open and the write is not
    refused, [setContent] followed by [saveNote] leaves the session clean
    with the new content in the file, and a [loadNote] of the same note
    that succeeds shows that content. *)
Theorem edit_save_reopen (a : App) (p v : jsstring) :
  currentNote (store a) = Some p -> p <> [] ->
  refused (world a) (OpWriteTextFile p v) = false ->
  let a2 := snd (saveNote (snd (setContent v a))) in
  isDirty (store a2) = false
  /\ content (store a2) = v
  /\ textFiles (world a2) p = Some v
  /\ (loadNoteSucceeds p a2 ->
      content (store (snd (loadNote p a2))) = v
      /\ isDirty (store (snd (loadNote p a2))) = false).
Proof.
  intros Hcur Hp Hr.
  destruct a as [[fs cur body dirty loading saving favs recents bl tags] w].
  cbn in Hcur, Hr. subst cur.
  assert (E : snd (saveNote (snd (setContent v
                {| store := mkNoteState fs (Some p) body dirty loading saving
                                        favs recents bl tags;
                   world := w |})))
              = mkApp (mkNoteState fs (Some p) v false loading saving favs
                                   recents bl tags)
                      (snd (writeTextFile p v w))).
  { unfold saveNote, setContent. unfold_monad.
    cbn [store world currentNote isDirty content withIsDirty withContent
         fst snd].
    rewrite (truthy_Some p Hp). cbn [negb orb].
    unfold writeTextFile, call. cbn [world]. rewrite !Hr. reflexivity. }
  cbv zeta. rewrite E. cbn [store world isDirty content].
  destruct (writeTextFile_world p v w) as (_ & _ & _ & Hthis).
  specialize (Hthis Hr). cbv zeta in Hthis.
  repeat split; try assumption.
  - destruct (loadNote_success p _ H) as (b & w2 & Hb & ->).
    cbn in Hb |- *. congruence.
  - destruct (loadNote_success p _ H) as (b & w2 & Hb & ->). reflexivity.
Qed.

Lemma edit_save_reopen_witness :
  let a := snd (loadNote (str "/n/a.md") (mkApp initialState twoNotes)) in
  let a2 := snd (saveNote (snd (setContent (str "# a, edited") a))) in
  isDirty (store a2) = false
  /\ content (store a2) = str "# a, edited"
  /\ textFiles (world a2) (str "/n/a.md") = Some (str "# a, edited")
  /\ (loadNoteSucceeds (str "/n/a.md") a2 ->
      content (store (snd (loadNote (str "/n/a.md") a2))) = str "# a, edited"
      /\ isDirty (store (snd (loadNote (str "/n/a.md") a2))) = false).
Proof.
  apply (edit_save_reopen
           (snd (loadNote (str "/n/a.md") (mkApp initialState twoNotes)))
           (str "/n/a.md") (str "# a, edited")).
  - reflexivity.
  - discriminate.
  - reflexivity.
Defined.

(** ** Writes of the editor *)





(** X14.  An edit that changes the content of the open note leaves no
    timeout armed: the render that follows the edit runs the clean-up of
    the flush effect, which clears the timeout the edit has just set and,
    when the session was dirty already, writes the content as it was
    before the edit.  The new content stays pending and a timeout that
    elapses afterwards does nothing. *)
Theorem edit_cancels_timeout (s : Sys) (A v : jsstring) :
  Reachable s ->
  currentNote (store (application s)) = Some A -> A <> [] ->
  v <> content (store (application s)) ->
  let s1 := step (Change v) s in
  saveTimeoutRef (editor s1) = None
  /\ pendingSaveRef (editor s1) = Some (A, v)
  /\ content (store (application s1)) = v
  /\ isDirty (store (application s1)) = true
  /\ writes (journalOf s1)
     = writes (journalOf s)
       ++ (if isDirty (store (application s))
           then [(A, content (store (application s)))] else [])
  /\ step Timeout s1 = s1.
Proof.
  intros Hreach Hcur HA Hv.
  pose proof (Reachable_rendered s Hreach) as Hr.
  destruct s as [[st w] [t pend r]]. cbn in Hr, Hcur, Hv. subst r.
  assert (E1 : step (Change v)
                 (mkSys (mkApp st w) (mkComponent t pend (renderOf st)))
               = mkSys
                   (mkApp (withIsDirty true (withContent v st))
                      (if isDirty st
                       then snd (writeTextFile A (content st) w) else w))
                   (mkComponent None (Some (A, v))
                      (mkRender (Some A) v true))).
  { unfold step. cbn [handle]. rewrite handleChange_run.
    cbn [application editor rendered pendingSaveRef renderedNote renderOf].
    rewrite Hcur, (truthy_Some A HA).
    assert (Es : snd (setContent v (mkApp st w))
                 = mkApp (withIsDirty true (withContent v st)) w).
    { unfold setContent. unfold_monad. cbn. now rewrite Hcur. }
    rewrite Es, commit_run.
    cbn [application store editor rendered pendingSaveRef world].
    match goal with
    | |- context [sameDeps ?now ?before] =>
        assert (Hd : sameDeps now before = false)
          by (unfold sameDeps, renderOf; cbn; apply eqb_neq in Hv;
              rewrite Hv; now rewrite andb_false_r)
    end.
    rewrite Hd. unfold flushed, renderOf.
    cbn [renderedNote renderedIsDirty renderedContent currentNote content
         isDirty withIsDirty withContent].
    rewrite Hcur, (truthy_Some A HA), andb_true_r.
    now destruct (isDirty st). }
  cbv zeta. rewrite E1. unfold journalOf.
  cbn [application world editor saveTimeoutRef pendingSaveRef store content
       isDirty withIsDirty withContent].
  repeat split.
  - destruct (isDirty st); [|now rewrite app_nil_r].
    destruct (writeTextFile_world A (content st) w) as (Hj & _).
    cbv zeta in Hj. now rewrite Hj, writes_app.
  - match goal with
    | |- step Timeout ?x = _ =>
        change (snd (commit (snd (handle Timeout x))) = x);
        replace (snd (handle Timeout x)) with x by reflexivity
    end.
    rewrite commit_run. cbn [application store editor rendered].
    replace (renderOf (withIsDirty true (withContent v st)))
      with (mkRender (Some A) v true)
      by (unfold renderOf; cbn; now rewrite Hcur).
    now rewrite sameDeps_refl.
Qed.

Lemma edit_cancels_timeout_witness :
  let s := step (Open (str "/n/a.md")) (mount (mkApp initialState twoNotes)) in
  let s1 := step (Change (str "# a, edited")) s in
  saveTimeoutRef (editor s1) = None
  /\ pendingSaveRef (editor s1) = Some (str "/n/a.md", str "# a, edited")
  /\ content (store (application s1)) = str "# a, edited"
  /\ isDirty (store (application s1)) = true
  /\ writes (journalOf s1)
     = writes (journalOf s)
       ++ (if isDirty (store (application s))
           then [(str "/n/a.md", content (store (application s)))] else [])
  /\ step Timeout s1 = s1.
Proof.
  apply (edit_cancels_timeout
           (step (Open (str "/n/a.md")) (mount (mkApp initialState twoNotes)))
           (str "/n/a.md") (str "# a, edited")).
  - apply ReachStep, ReachMount.
  - reflexivity.
  - discriminate.
  - discriminate.
Defined.

(** ** Views of the tree *)

Lemma filter_flat_map {A B} (q : B -> bool) (g h : A -> list B) (l : list A) :
  Forall (fun x => h x = filter q (g x)) l ->
  flat_map h l = filter q (flat_map g l).
Proof.
  induction 1 as [|x l Hx _ IH]; [reflexivity|].
  simpl. now rewrite filter_app, Hx, IH.
Qed.

Lemma find_app_first {A} (q : A -> bool) (l1 l2 : list A) :
  find q (l1 ++ l2)
  = match find q l1 with Some x => Some x | None => find q l2 end.
Proof.
  induction l1 as [|x l1 IH]; [reflexivity|].
  simpl. now destruct (q x).
Qed.

Lemma firstOf_flat_map {A B} (q : B -> bool) (f : A -> option B)
      (g : A -> list B) (l : list A) :
  Forall (fun x => f x = find q (g x)) l ->
  firstOf f l = find q (flat_map g l).
Proof.
  induction 1 as [|x l Hx _ IH]; [reflexivity|].
  simpl. now rewrite find_app_first, Hx, IH.
Qed.

Lemma favoritesOfNode_filter (node : FileNode) :
  favoritesOfNode node = filter isMarked (nodesOf node).
Proof.
  induction node as [n p d fav|n p d kids fav IH] using FileNode_induction;
    cbn [favoritesOfNode nodesOf children filter].
  - destruct (isMarked _); now rewrite ?app_nil_r.
  - rewrite (filter_flat_map isMarked nodesOf favoritesOfNode kids IH).
    now destruct (isMarked _).
Qed.

Lemma findFavorites_filter (tree : list FileNode) :
  findFavorites tree = filter isMarked (allNodes tree).
Proof.
  apply filter_flat_map, Forall_forall. intros x _.
  apply favoritesOfNode_filter.
Qed.

Lemma findInNode_find (p : jsstring) (node : FileNode) :
  findInNode p node = find (fun n => Js.eqb (path n) p) (nodesOf node).
Proof.
  induction node as [n q d fav|n q d kids fav IH] using FileNode_induction;
    cbn [findInNode nodesOf children find path].
  - now destruct (Js.eqb q p).
  - destruct (Js.eqb q p); [reflexivity|].
    now apply firstOf_flat_map.
Qed.

Lemma findByPath_find (tree : list FileNode) (p : jsstring) :
  findByPath tree p = find (fun n => Js.eqb (path n) p) (allNodes tree).
Proof.
  apply firstOf_flat_map, Forall_forall. intros x _. apply findInNode_find.
Qed.

Lemma noteNamedIn_find (searchName : jsstring) (node : FileNode) :
  noteNamedIn searchName node
  = find (fun n => negb (isDirectory n)
                   && Js.eqb (toLowerCase (stripMd (name n))) searchName)
         (nodesOf node).
Proof.
  induction node as [n q d fav|n q d kids fav IH] using FileNode_induction;
    cbn [noteNamedIn nodesOf children find name isDirectory].
  - now destruct (_ && _).
  - destruct (_ && _); [reflexivity|].
    now apply firstOf_flat_map.
Qed.

Lemma findNoteByName_find (n : jsstring) (tree : list FileNode) :
  findNoteByName n tree
  = find (fun x => negb (isDirectory x)
                   && Js.eqb (toLowerCase (stripMd (name x))) (toLowerCase n))
         (allNodes tree).
Proof.
  apply firstOf_flat_map, Forall_forall. intros x _. apply noteNamedIn_find.
Qed.

Lemma foldersOfNode_from (cur : jsstring) (node f : FileNode) :
  In f (foldersOfNode cur node) ->
  In f (nodesOf node) /\ isDirectory f = true /\ path f <> cur.
Proof.
  induction node as [n q d fav|n q d kids fav IH] using FileNode_induction;
    cbn [foldersOfNode nodesOf children isDirectory path].
  - destruct d; cbn [andb]; [|intros []].
    destruct (Js.eqb q cur) eqn:E; cbn [negb]; [intros []|].
    intros [<-|[]]. repeat split; [now left|].
    cbn [path]. intros ->. now rewrite eqb_refl in E.
  - destruct d; cbn [andb]; [|intros []].
    destruct (Js.eqb q cur) eqn:E; cbn [negb]; [intros []|].
    intros [<-|Hin].
    + repeat split; [now left|]. cbn [path]. intros ->.
      now rewrite eqb_refl in E.
    + apply in_flat_map in Hin as (k & Hk & Hin).
      rewrite Forall_forall in IH. destruct (IH k Hk Hin) as (H1 & H2 & H3).
      repeat split; auto. right. apply in_flat_map. eauto.
Qed.

Lemma markFavorites_shown (favs : list jsstring) (fs : list FileNode) :
  findFavorites (markFavorites favs fs)
  = filter (fun n => arrayIncludes favs (path n))
      (allNodes (markFavorites favs fs)).
Proof.
  rewrite findFavorites_filter. apply filter_ext_in. intros n Hn.
  rewrite allNodes_markFavorites in Hn.
  apply in_map_iff in Hn as (m & <- & _).
  unfold isMarked. rewrite markNode_isFavorite, markNode_path.
  now destruct (arrayIncludes favs (path m)).
Qed.

Lemma toggleFavorite_store (p : jsstring) (a : App) :
  store (snd (toggleFavorite p a)) = store a
  \/ store (snd (toggleFavorite p a))
     = withFilesOf
         (updateFavorites (toggled p (favorites (store a))) (files (store a)))
         (withFavorites (toggled p (favorites (store a))) (store a)).
Proof.
  unfold toggleFavorite, getMetaStore, storeSet, storeSave, toggled.
  unfold_monad. simpl.
  destruct (storeLoaded (world a)); simpl;
    repeat match goal with
           | |- context [if refused (world a) ?op then _ else _] =>
               destruct (refused (world a) op); simpl
           end; auto.
Qed.

(** X15.  The favorites section lists exactly the nodes of the tree whose
    path is among the favorites, in document order: so it is after
    [setFiles], and [toggleFavorite] keeps it so, whether the favorites
    could be persisted or not. *)
Theorem favorites_section_shows_favorites :
  (forall fs a, favoritesShown (store (snd (setFiles fs a))))
  /\ (forall p a,
        favoritesShown (store a) ->
        favoritesShown (store (snd (toggleFavorite p a)))).
Proof.
  split.
  - intros fs a.
    assert (E : store (snd (setFiles fs a))
                = withFilesOf (markFavorites (favorites (store a)) fs)
                    (store a)) by reflexivity.
    unfold favoritesShown. rewrite E. cbn [files favorites withFilesOf].
    destruct (store a); apply markFavorites_shown.
  - intros p a H. destruct (toggleFavorite_store p a) as [E|E];
      unfold favoritesShown; rewrite E; [exact H|].
    destruct (store a); cbn [files favorites withFilesOf withFavorites].
    apply markFavorites_shown.
Qed.

Lemma favorites_section_shows_favorites_witness :
  favoritesShown
    (store (snd (toggleFavorite (str "/n/a.md")
                   (snd (setFiles sampleTree (mkApp initialState emptyWorld)))))).
Proof.
  destruct favorites_section_shows_favorites as (H1 & H2).
  apply H2, H1.
Defined.

Lemma filterMap_findByPath (tree : list FileNode) (recents : list jsstring) :
  map path (filterMap (findByPath tree) recents) = filter (inTree tree) recents
  /\ forall n, In n (filterMap (findByPath tree) recents) ->
               In n (allNodes tree) /\ In (path n) recents.
Proof.
  induction recents as [|p recents [IH1 IH2]]; [split; [reflexivity|intros ? []]|].
  cbn [filterMap filter]. rewrite findByPath_find. unfold inTree at 1.
  destruct (find _ (allNodes tree)) as [n|] eqn:E.
  - apply find_some in E as (Hin & Hp). apply eqb_eq in Hp.
    assert (Hex : existsb (fun n => Js.eqb (path n) p) (allNodes tree) = true).
    { apply existsb_exists. exists n. split; [assumption|].
      now apply eqb_eq. }
    rewrite Hex. split.
    + cbn [map]. now rewrite Hp, IH1.
    + intros m [<-|Hm].
      * split; [assumption|]. left. now symmetry.
      * destruct (IH2 m Hm). split; [assumption|now right].
  - assert (Hex : existsb (fun n => Js.eqb (path n) p) (allNodes tree) = false).
    { destruct (existsb _ _) eqn:Hex; [|reflexivity].
      apply existsb_exists in Hex as (n & Hin & Hp).
      now rewrite (find_none _ _ E n Hin) in Hp. }
    rewrite Hex. split; [assumption|].
    intros m Hm. destruct (IH2 m Hm). split; [assumption|now right].
Qed.

(** X16.  The recent files of the side bar are nodes of the tree; their
    paths are the first five recent paths that some node of the tree has,
    in the order of the recents list: a recent path with no node in the
    tree is skipped and does not use one of the five places. *)
Theorem recentFiles_spec (tree : list FileNode) (recents : list jsstring) :
  map path (recentFiles tree recents)
  = firstn 5 (filter (inTree tree) recents)
  /\ length (recentFiles tree recents) <= 5
  /\ Forall (fun n => In n (allNodes tree)) (recentFiles tree recents).
Proof.
  unfold recentFiles, sliceTo.
  destruct (filterMap_findByPath tree recents) as (H1 & H2).
  split; [|split].
  - now rewrite <- firstn_map, H1.
  - apply firstn_le_length.
  - apply Forall_forall. intros n Hn. apply (H2 n).
    rewrite <- (firstn_skipn 5 (filterMap (findByPath tree) recents)).
    apply in_or_app. now left.
Qed.

Lemma inTree_findByPath (tree : list FileNode) (p : jsstring) :
  inTree tree p = true ->
  exists n, findByPath tree p = Some n /\ path n = p /\ In n (allNodes tree).
Proof.
  unfold inTree. rewrite findByPath_find. intros H.
  destruct (find _ (allNodes tree)) as [n|] eqn:E.
  - apply find_some in E as (Hin & Hp). apply eqb_eq in Hp. now exists n.
  - apply existsb_exists in H as (n & Hin & Hp).
    now rewrite (find_none _ _ E n Hin) in Hp.
Qed.

(** X17.  After a note of the tree has been opened with success, the list of
    recent files of the side bar starts with the node of that note (the
    first node of the tree with its path). *)
Theorem opened_note_heads_recent_files (p : jsstring) (a : App) :
  loadNoteSucceeds p a ->
  inTree (files (store a)) p = true ->
  let s' := store (snd (loadNote p a)) in
  exists n,
    hd_error (recentFiles (files s') (recentNotes s')) = Some n
    /\ path n = p
    /\ findByPath (files (store a)) p = Some n.
Proof.
  intros Hok Hin. destruct (loadNote_success p a Hok) as (body & w & _ & E).
  cbv zeta. rewrite E.
  destruct (inTree_findByPath _ _ Hin) as (n & Hf & Hp & _).
  exists n. split; [|split; assumption].
  cbn [store]. destruct (store a) eqn:Es.
  cbn [files recentNotes withRecentNotes withIsLoading withIsDirty withContent
       withCurrentNote] in *.
  pose proof (pushRecent_head p recentNotes0) as Hh.
  destruct (pushRecent p recentNotes0) as [|q rest]; [discriminate|].
  injection Hh as ->.
  unfold recentFiles, sliceTo. cbn [filterMap]. now rewrite Hf.
Qed.

Lemma opened_note_heads_recent_files_witness :
  let p := str "/n/a.md" in
  let a := mkApp (withFilesOf sampleTree initialState) twoNotes in
  let s' := store (snd (loadNote p a)) in
  exists n,
    hd_error (recentFiles (files s') (recentNotes s')) = Some n
    /\ path n = p
    /\ findByPath (files (store a)) p = Some n.
Proof.
  apply (opened_note_heads_recent_files (str "/n/a.md")); reflexivity.
Defined.

(** X18.  Every folder that the move menu of an item offers is a directory
    of the tree, is not the item itself and is not the folder the item is
    in. *)
Theorem getAvailableFolders_spec (tree : list FileNode) (node f : FileNode) :
  In f (getAvailableFolders tree node) ->
  In f (allNodes tree)
  /\ isDirectory f = true
  /\ path f <> path node
  /\ path f <> parentOf (path node).
Proof.
  unfold getAvailableFolders. cbv zeta. intros H.
  apply filter_In in H as (H & Hp).
  unfold collectFolders in H. apply in_flat_map in H as (k & Hk & H).
  destruct (foldersOfNode_from _ _ _ H) as (H1 & H2 & H3).
  repeat split; try assumption.
  - apply in_flat_map. eauto.
  - intros Heq. unfold parentOf in Heq. rewrite <- Heq in Hp.
    now rewrite eqb_refl in Hp.
Qed.

Lemma getAvailableFolders_spec_witness :
  let node := mkFileNode (str "a.md") (str "/n/a.md") false None (Some false) in
  let f := mkFileNode (str "work") (str "/n/work") true
             (Some [mkFileNode (str "plan.md") (str "/n/work/plan.md") false
                      None (Some false)])
             (Some false) in
  In f (allNodes sampleTree)
  /\ isDirectory f = true
  /\ path f <> path node
  /\ path f <> parentOf (path node).
Proof.
  apply (getAvailableFolders_spec sampleTree). now left.
Defined.

(** X19.  A wiki link is resolved to the first file of the tree, in document
    order, whose name without its [.md] ending equals the name of the link
    when both are put in lower case; directories are never the answer, and
    the case of the link does not matter. *)
Theorem findNoteByName_spec (n : jsstring) (tree : list FileNode) :
  let matches x :=
    negb (isDirectory x)
    && Js.eqb (toLowerCase (stripMd (name x))) (toLowerCase n) in
  findNoteByName n tree = find matches (allNodes tree)
  /\ (forall x, findNoteByName n tree = Some x ->
        In x (allNodes tree) /\ isDirectory x = false
        /\ toLowerCase (stripMd (name x)) = toLowerCase n)
  /\ (findNoteByName n tree = None ->
      forall x, In x (allNodes tree) -> isDirectory x = false ->
                toLowerCase (stripMd (name x)) <> toLowerCase n)
  /\ (forall n', toLowerCase n' = toLowerCase n ->
        findNoteByName n' tree = findNoteByName n tree).
Proof.
  cbv zeta. rewrite findNoteByName_find. split; [reflexivity|split; [|split]].
  - intros x H. apply find_some in H as (Hin & H).
    apply andb_true_iff in H as (Hd & He). apply eqb_eq in He.
    destruct (isDirectory x); [discriminate|]. auto.
  - intros H x Hin Hd He. pose proof (find_none _ _ H x Hin) as Hx.
    cbv beta in Hx. rewrite Hd, He, eqb_refl in Hx. discriminate.
  - intros n' He. rewrite findNoteByName_find. now rewrite He.
Qed.

Lemma findNoteByName_spec_witness :
  findNoteByName (str "PLAN") sampleTree
  = Some (mkFileNode (str "plan.md") (str "/n/work/plan.md") false None
            (Some false))
  /\ findNoteByName (str "Plan") sampleTree
     = findNoteByName (str "PLAN") sampleTree.
Proof.
  destruct (findNoteByName_spec (str "PLAN") sampleTree) as (_ & _ & _ & H).
  split; [reflexivity|]. apply H. reflexivity.
Defined.

(** ** Word statistics *)

Lemma splitSpaces_head (s : jsstring) :
  exists piece rest,
    splitSpaces false s = piece :: rest
    /\ (piece = [] <->
        match s with [] => True | d :: _ => isSpace d = true end).
Proof.
  destruct s as [|c s]; cbn [splitSpaces].
  - exists [], []. now split.
  - destruct (isSpace c) eqn:E.
    + eexists _, _. split; [reflexivity|]. now split.
    + destruct (splitSpaces false s) as [|piece rest];
        eexists _, _; (split; [reflexivity|]); split; discriminate.
Qed.

Lemma wordsIn_wordRuns (r : bool) (s : jsstring) : wordsIn r s = wordRuns s.
Proof.
  revert r. induction s as [|c s IH]; intros r; [reflexivity|].
  unfold wordsIn in *. cbn [splitSpaces wordRuns].
  destruct (isSpace c) eqn:E; cbn [negb andb].
  - destruct r; cbn [filter length Nat.ltb Nat.leb]; apply IH.
  - rewrite <- (IH false).
    destruct (splitSpaces_head s) as (piece & rest & Es & Hp). rewrite Es.
    cbn [filter length]. replace (0 <? S (length piece)) with true by reflexivity.
    cbn [length].
    destruct piece as [|d piece].
    + assert (H : match s with [] => true | d :: _ => isSpace d end = true)
        by (destruct s; [reflexivity|now apply Hp]).
      rewrite H. reflexivity.
    + assert (H : match s with [] => true | d :: _ => isSpace d end = false).
      { destruct s as [|e s]; [now destruct Hp as (_ & Hp); specialize (Hp I)|].
        destruct (isSpace e); [|reflexivity].
        now destruct Hp as (_ & Hp); specialize (Hp eq_refl). }
      rewrite H. reflexivity.
Qed.

Lemma wordRuns_blank (s : jsstring) : isBlankText s -> wordRuns s = 0.
Proof.
  induction 1 as [|c s Hc _ IH]; [reflexivity|].
  cbn [wordRuns]. now rewrite Hc, IH.
Qed.

Lemma wordRuns_spaces_before (spaces s : jsstring) :
  isBlankText spaces -> wordRuns (spaces ++ s) = wordRuns s.
Proof.
  induction 1 as [|c t Hc _ IH]; [reflexivity|].
  cbn [wordRuns app]. now rewrite Hc, IH.
Qed.

Lemma wordRuns_space_between (a b : jsstring) (sp : ascii) :
  isSpace sp = true -> wordRuns (a ++ sp :: b) = wordRuns a + wordRuns b.
Proof.
  intros Hsp. induction a as [|c a IH].
  - cbn [app wordRuns]. now rewrite Hsp.
  - cbn [app wordRuns]. rewrite IH.
    destruct a as [|d a]; cbn [app]; [rewrite Hsp|]; lia.
Qed.

Lemma wordRuns_spaces_after (s spaces : jsstring) :
  isBlankText spaces -> wordRuns (s ++ spaces) = wordRuns s.
Proof.
  intros H. destruct spaces as [|sp spaces]; [now rewrite app_nil_r|].
  inversion H as [|? ? Hsp Hrest]; subst.
  rewrite wordRuns_space_between by assumption.
  rewrite (wordRuns_blank spaces Hrest). lia.
Qed.

Lemma wordRuns_trim (s : jsstring) : wordRuns (trim s) = wordRuns s.
Proof.
  unfold trim.
  destruct (trimStart_split s) as (sp1 & E1 & H1).
  destruct (trimEnd_split (trimStart s)) as (sp2 & E2 & H2).
  rewrite E1 at 2. rewrite wordRuns_spaces_before by assumption.
  rewrite E2 at 2. now rewrite wordRuns_spaces_after.
Qed.

Lemma trim_blank (s : jsstring) : trim s = [] <-> isBlankText s.
Proof.
  unfold trim. destruct (trimStart_split s) as (sp1 & E1 & H1).
  destruct (trimEnd_split (trimStart s)) as (sp2 & E2 & H2).
  split.
  - intros E. rewrite E in E2. cbn [app] in E2. rewrite E1, E2.
    apply Forall_app. now split.
  - intros Hb. clear sp2 E2 H2.
    assert (Ht : trimStart s = []).
    { clear sp1 E1 H1. induction Hb as [|c s Hc _ IH]; [reflexivity|].
      cbn [trimStart]. now rewrite Hc. }
    rewrite Ht. reflexivity.
Qed.

Lemma wordRuns_length (s : jsstring) : 2 * wordRuns s <= length s + 1.
Proof.
  assert (H : forall s,
             2 * wordRuns s + (match s with
                               | [] => 1
                               | d :: _ => if isSpace d then 1 else 0
                               end) <= length s + 1).
  { clear s. induction s as [|c s IH]; [cbn; lia|].
    cbn [wordRuns length].
    destruct (isSpace c) eqn:E; cbn [negb andb].
    - destruct s as [|d s]; [cbn in *; lia|].
      destruct (isSpace d); cbn [length] in *; lia.
    - destruct s as [|d s]; [cbn in *; lia|].
      destruct (isSpace d); cbn [length] in *; lia. }
  specialize (H s). lia.
Qed.

Lemma wordRuns_positive (s : jsstring) :
  ~ isBlankText s -> 1 <= wordRuns s.
Proof.
  induction s as [|c s IH]; intros Hn.
  - exfalso. apply Hn. constructor.
  - cbn [wordRuns]. destruct (isSpace c) eqn:E; cbn [negb andb].
    + apply IH. intros Hb. apply Hn. now constructor.
    + destruct s as [|d s]; [lia|].
      destruct (isSpace d) eqn:Ed; [lia|].
      cbn [Nat.add]. apply IH. intros Hb. inversion Hb; congruence.
Qed.

Lemma useWordCount_words (content : jsstring) :
  words (useWordCount content) = wordRuns content.
Proof.
  unfold useWordCount. cbv zeta.
  destruct (trim content) as [|c t] eqn:E.
  - cbn [words]. symmetry. apply wordRuns_blank. now apply trim_blank.
  - cbn [words]. rewrite <- E.
    change (wordsIn false (trim content) = wordRuns content).
    now rewrite wordsIn_wordRuns, wordRuns_trim.
Qed.

Lemma useWordCount_characters (content : jsstring) :
  characters (useWordCount content) = length (trim content).
Proof.
  unfold useWordCount. cbv zeta. now destruct (trim content).
Qed.

(** X20.  The word count is the number of maximal runs of code units that
    are not white space in the content, trimmed or not; it is zero exactly
    for a content of white space only; and with one white space between two
    texts it is the sum of their word counts. *)
Theorem useWordCount_counts_runs (content : jsstring) :
  words (useWordCount content) = wordRuns content
  /\ (words (useWordCount content) = 0 <-> isBlankText content)
  /\ words (useWordCount (trim content)) = words (useWordCount content)
  /\ (forall a b sp, isSpace sp = true ->
        words (useWordCount (a ++ sp :: b))
        = words (useWordCount a) + words (useWordCount b)).
Proof.
  rewrite !useWordCount_words. split; [reflexivity|split; [|split]].
  - split; [|apply wordRuns_blank].
    intros H.
    assert (Hd : {isBlankText content} + {~ isBlankText content}).
    { apply Forall_dec. intros c. destruct (isSpace c); [now left|now right]. }
    destruct Hd as [Hb|Hb]; [assumption|].
    apply wordRuns_positive in Hb. lia.
  - apply wordRuns_trim.
  - intros a b sp Hsp. rewrite !useWordCount_words.
    now apply wordRuns_space_between.
Qed.

Lemma useWordCount_counts_runs_witness :
  words (useWordCount (str "  two words ")) = 2
  /\ words (useWordCount (str "one two" ++ chr 10 :: str "three"))
     = words (useWordCount (str "one two"))
       + words (useWordCount (str "three")).
Proof.
  destruct (useWordCount_counts_runs (str "  two words ")) as (_ & _ & _ & H).
  split; [reflexivity|]. apply H. reflexivity.
Defined.

(** X21.  The character count is the length of the trimmed content: white
    space inside the text is counted, white space at the ends is not.  A
    text of [n] words has at least [2 n - 1] characters, and the two counts
    are zero together. *)
Theorem useWordCount_characters_spec (content : jsstring) :
  let stats := useWordCount content in
  characters stats = length (trim content)
  /\ characters stats <= length content
  /\ 2 * words stats <= characters stats + 1
  /\ (characters stats = 0 <-> words stats = 0).
Proof.
  cbv zeta. rewrite useWordCount_characters.
  assert (Hw : words (useWordCount content) = wordRuns (trim content))
    by (rewrite useWordCount_words; symmetry; apply wordRuns_trim).
  rewrite Hw. split; [reflexivity|split; [|split; [apply wordRuns_length|]]].
  - unfold trim.
    destruct (trimStart_split content) as (sp1 & E1 & _).
    destruct (trimEnd_split (trimStart content)) as (sp2 & E2 & _).
    rewrite E1 at 2. rewrite E2 at 2. rewrite !length_app. lia.
  - split.
    + intros H. destruct (trim content); [reflexivity|discriminate].
    + intros H. destruct (trim content) as [|c t] eqn:E; [reflexivity|].
      exfalso.
      assert (Hb : ~ isBlankText (trim content)).
      { rewrite <- trim_blank, trim_idempotent, E. discriminate. }
      apply wordRuns_positive in Hb. rewrite E in Hb. lia.
Qed.

(** X22.  The reading time is the decimal number of minutes followed by a
    space and [min], where the minutes are the least number of minutes that
    cover the words at two hundred words a minute. *)
Theorem useWordCount_readingTime (content : jsstring) :
  let stats := useWordCount content in
  exists minutes,
    readingTime stats = numberToString minutes ++ str " min"
    /\ words stats <= 200 * minutes
    /\ 200 * minutes < words stats + 200.
Proof.
  cbv zeta. unfold useWordCount. cbv zeta.
  destruct (trim content) as [|c t].
  - exists 0. cbn [words readingTime]. split; [reflexivity|lia].
  - set (w := length _). exists (ceilDiv w 200). cbn [words readingTime].
    split.
    + destruct (ceilDiv w 200 =? 1) eqn:E; [|reflexivity].
      apply Nat.eqb_eq in E. now rewrite E.
    + unfold ceilDiv. change (200 - 1) with 199.
      pose proof (Nat.div_mod (w + 199) 200 ltac:(discriminate)) as Hd.
      pose proof (Nat.mod_upper_bound (w + 199) 200 ltac:(discriminate)).
      lia.
Qed.

(** ** Full-text search *)

Section SearchProperties.
Import Search.

Lemma matchingLines_sound (q : jsstring) (lines : list jsstring) :
  forall index m,
    In m (matchingLines q lines index) ->
    exists l,
      index + 1 <= line m
      /\ nth_error lines (line m - 1 - index) = Some l
      /\ text m = trim l
      /\ includes (toLowerCase l) q = true.
Proof.
  induction lines as [|l lines IH]; intros index m; [intros []|].
  cbn [matchingLines]. intros H. apply in_app_or in H as [H|H].
  - destruct (includes (toLowerCase l) q) eqn:E; [|destruct H].
    destruct H as [<-|[]]. exists l. cbn [line text].
    replace (index + 1 - 1 - index) with 0 by lia. repeat split; auto.
  - destruct (IH _ _ H) as (l' & H1 & H2 & H3 & H4).
    exists l'. repeat split; auto; [lia|].
    replace (line m - 1 - index) with (S (line m - 1 - S index)) by lia.
    exact H2.
Qed.

Lemma matchingLines_complete (q : jsstring) (lines : list jsstring) :
  forall index j l,
    nth_error lines j = Some l ->
    includes (toLowerCase l) q = true ->
    In (mkMatch (index + j + 1) (trim l)) (matchingLines q lines index).
Proof.
  induction lines as [|l0 lines IH]; intros index j l Hn Hi;
    [now destruct j|].
  cbn [matchingLines]. apply in_or_app. destruct j as [|j].
  - injection Hn as ->. rewrite Hi. left. left. f_equal. lia.
  - right. replace (index + S j + 1) with (S index + j + 1) by lia.
    now apply IH.
Qed.

Lemma matchingLines_sorted (q : jsstring) (lines : list jsstring) :
  forall index, StronglySorted lt (map line (matchingLines q lines index)).
Proof.
  induction lines as [|l lines IH]; intros index; [constructor|].
  cbn [matchingLines].
  destruct (includes (toLowerCase l) q); cbn [app map]; [|apply IH].
  constructor; [apply IH|].
  apply Forall_forall. intros n Hn. apply in_map_iff in Hn as (m & <- & Hm).
  destruct (matchingLines_sound _ _ _ _ Hm) as (_ & H & _). cbn [line]. lia.
Qed.

Lemma StronglySorted_firstn {A} (R : A -> A -> Prop) (n : nat) (l : list A) :
  StronglySorted R l -> StronglySorted R (firstn n l).
Proof.
  revert n. induction l as [|x l IH]; intros n H; [now destruct n|].
  destruct n as [|n]; [constructor|]. cbn [firstn].
  apply StronglySorted_inv in H as (H1 & H2).
  constructor; [now apply IH|].
  rewrite Forall_forall in *. intros y Hy. apply H2.
  rewrite <- (firstn_skipn n l). apply in_or_app. now left.
Qed.

Lemma visitedNotes_nodesOf (node n : FileNode) :
  In n (visitedNotes node) ->
  In n (nodesOf node) /\ endsWith (path n) (str ".md") = true.
Proof.
  induction node as [x p d fav|x p d kids fav IH] using FileNode_induction;
    cbn [visitedNotes nodesOf children].
  - assert (H : In n (if endsWith p (str ".md")
                      then [mkFileNode x p d None fav] else []) ->
                (mkFileNode x p d None fav = n \/ False)
                /\ endsWith (path n) (str ".md") = true).
    { destruct (endsWith p (str ".md")) eqn:E; [|intros []].
      intros [<-|[]]. auto. }
    destruct d; intros Hn; destruct (H Hn) as ([<-|[]] & H2);
      (split; [now left|assumption]).
  - destruct d.
    + intros Hn. apply in_flat_map in Hn as (k & Hk & Hn).
      rewrite Forall_forall in IH. destruct (IH k Hk Hn) as (H1 & H2).
      split; [|assumption]. right. apply in_flat_map. eauto.
    + destruct (endsWith p (str ".md")) eqn:E; [|intros []].
      intros [<-|[]]. split; [now left|assumption].
Qed.

Lemma resultOf_ext (r1 r2 : jsstring -> Outcome jsstring) (q : jsstring)
      (l : list FileNode) :
  (forall p, r1 p = r2 p) ->
  flat_map (resultOf r1 q) l = flat_map (resultOf r2 q) l.
Proof.
  intros H. apply flat_map_ext. intros n. unfold resultOf. now rewrite H.
Qed.

Lemma journalReads_app (p1 p2 : list jsstring) (w : World) :
  journalReads (p1 ++ p2) w = journalReads p2 (journalReads p1 w).
Proof. unfold journalReads. apply fold_left_app. Qed.

Lemma searchNote_run (q : jsstring) (node : FileNode)
      (results : list SearchResult) (w : World) :
  searchNote q node (results, w)
  = (Resolved tt,
     (results ++ resultOf (reads w) q node,
      record (OpReadTextFile (path node)) w)).
Proof.
  unfold searchNote, resultOf, reads, disk, setLocal, readTextFile.
  unfold_monad. simpl.
  destruct (refused w _); simpl; [now rewrite app_nil_r|].
  destruct (textFiles w (path node)); simpl; [|now rewrite app_nil_r].
  destruct (_ || _); simpl; [reflexivity|now rewrite app_nil_r].
Qed.

Lemma searchInNode_run (q : jsstring) (node : FileNode) :
  forall results w,
    searchInNode q node (results, w)
    = (Resolved tt,
       (results ++ flat_map (resultOf (reads w) q) (visitedNotes node),
        journalReads (map path (visitedNotes node)) w)).
Proof.
  assert (note : forall n p d ch fav results w,
             (if endsWith p (str ".md")
              then searchNote q (mkFileNode n p d ch fav)
              else ret tt) (results, w)
             = (Resolved tt,
                (results ++
                 flat_map (resultOf (reads w) q)
                   (if endsWith p (str ".md")
                    then [mkFileNode n p d ch fav] else []),
                 journalReads
                   (map path (if endsWith p (str ".md")
                              then [mkFileNode n p d ch fav] else [])) w))).
  { intros n p d ch fav results w. destruct (endsWith p (str ".md")).
    - rewrite searchNote_run. cbn [flat_map]. now rewrite app_nil_r.
    - cbn [flat_map]. now rewrite app_nil_r. }
  induction node as [n p d fav|n p d kids fav IH] using FileNode_induction;
    intros results w.
  - cbn [searchInNode visitedNotes]. destruct d; apply note.
  - cbn [searchInNode visitedNotes]. destruct d; [|apply note].
    revert results w. induction IH as [|k kids Hk _ IHkids];
      intros results w; [cbn; now rewrite app_nil_r|].
    cbn [forEach flat_map]. unfold bind at 1. rewrite Hk, IHkids.
    rewrite flat_map_app, map_app, journalReads_app, <- app_assoc.
    now rewrite (resultOf_ext _ (reads w) q _
                   (reads_journalReads (map path (visitedNotes k)) w)).
Qed.

Lemma searchInFiles_run (q : jsstring) (nodes : list FileNode)
      (results : list SearchResult) (w : World) :
  searchInFiles q nodes (results, w)
  = (Resolved tt,
     (results ++ flat_map (resultOf (reads w) q) (flat_map visitedNotes nodes),
      journalReads (map path (flat_map visitedNotes nodes)) w)).
Proof.
  unfold searchInFiles.
  revert results w; induction nodes as [|k nodes IH]; intros results w;
    [cbn; now rewrite app_nil_r|].
  cbn [forEach flat_map]. unfold bind at 1. rewrite searchInNode_run, IH.
  rewrite flat_map_app, map_app, journalReads_app, <- app_assoc.
  now rewrite (resultOf_ext _ (reads w) q _
                 (reads_journalReads (map path (visitedNotes k)) w)).
Qed.

Lemma searchNotes_run (query folder : jsstring) (a : SearchApp) :
  searchNotes query folder a
  = (Resolved tt,
     match trim query with
     | [] => mkSearchApp (mkSearchState (searchQuery (search a)) [] false)
               (notes a)
     | _ :: _ =>
         mkSearchApp
           (mkSearchState query
              (flat_map
                 (resultOf (reads (world (notes a))) (toLowerCase query))
                 (flat_map visitedNotes (files (store (notes a)))))
              false)
           (mkApp (store (notes a))
              (journalReads
                 (map path (flat_map visitedNotes (files (store (notes a)))))
                 (world (notes a))))
     end).
Proof.
  unfold searchNotes. destruct (trim query) as [|c t]; [reflexivity|].
  unfold setSearch. unfold_monad. cbn [notes search store world].
  rewrite searchInFiles_run. reflexivity.
Qed.

Lemma resultOf_sound (w : World) (tree : list FileNode) (query : jsstring)
      (node : FileNode) (r : SearchResult) :
  In node (flat_map visitedNotes tree) ->
  In r (resultOf (reads w) (toLowerCase query) node) ->
  soundResult w tree query r.
Proof.
  intros Hnode Hr. apply in_flat_map in Hnode as (top & Htop & Hnode).
  apply visitedNotes_nodesOf in Hnode as (Hin & Hmd).
  unfold resultOf in Hr. destruct (reads w (path node)) as [body|] eqn:Hb;
    [|destruct Hr].
  cbv zeta in Hr.
  destruct (_ || _) eqn:Hor; [|destruct Hr]. destruct Hr as [<-|[]].
  exists node, body. cbn [resultPath resultName matches]. unfold sliceTo.
  repeat split; try assumption.
  - apply in_flat_map. eauto.
  - rewrite length_firstn. lia.
  - rewrite <- firstn_map. apply StronglySorted_firstn, matchingLines_sorted.
  - apply Forall_forall. intros m Hm.
    assert (Hm' : In m (matchingLines (toLowerCase query) (splitLines body) 0)).
    { rewrite <- (firstn_skipn 3 (matchingLines _ _ _)).
      apply in_or_app. now left. }
    destruct (matchingLines_sound _ _ _ _ Hm') as (l & H1 & H2 & H3 & H4).
    exists l. rewrite Nat.sub_0_r in H2. repeat split; auto.
  - intros Hnil. destruct (matchingLines _ _ _) as [|m ms]; [|discriminate].
    exact Hor.
Qed.

Lemma resultOf_paths (read : jsstring -> Outcome jsstring) (q : jsstring)
      (l : list FileNode) :
  map resultPath (flat_map (resultOf read q) l)
  = map path
      (filter (fun n => match resultOf read q n with
                        | [] => false
                        | _ :: _ => true
                        end) l).
Proof.
  induction l as [|n l IH]; [reflexivity|].
  cbn [flat_map filter]. rewrite map_app, IH.
  unfold resultOf at 1 3. destruct (read (path n)); [|reflexivity].
  cbv zeta. now destruct (_ || _).
Qed.

Lemma isSpace_lowerChar (c : ascii) : isSpace (lowerChar c) = isSpace c.
Proof.
  destruct c as [[] [] [] [] [] [] [] []]; reflexivity.
Qed.

Lemma isBlankText_toLowerCase (s : jsstring) :
  isBlankText (toLowerCase s) <-> isBlankText s.
Proof.
  unfold isBlankText, toLowerCase. rewrite Forall_map.
  split; apply Forall_impl; intros c; now rewrite isSpace_lowerChar.
Qed.

Lemma trim_not_blank (s : jsstring) :
  ~ isBlankText s -> exists c t, trim s = c :: t.
Proof.
  intros H. destruct (trim s) as [|c t] eqn:E; [|eauto].
  exfalso. apply H. now apply trim_blank.
Qed.

(** X23.  [searchNotes] never rejects, ends with [isSearching] false, and
    only reads from the disk.  A blank query empties the results without a
    read and keeps the stored query.  For any other query every result is
    backed by a note of the tree whose path ends with [.md] and whose file
    could be read: it shows at most three lines, in the order of the file,
    each one a trimmed line of the file, with its number counted from one,
    that holds the query whatever the case; a result without lines is a
    note whose name holds the query.  The results come in the order the
    notes are visited, at most one for a visit. *)
Theorem searchNotes_sound (query folder : jsstring) (a : SearchApp) :
  let a' := snd (searchNotes query folder a) in
  let tree := files (store (notes a)) in
  fst (searchNotes query folder a) = Resolved tt
  /\ isSearching (search a') = false
  /\ store (notes a') = store (notes a)
  /\ (exists paths, world (notes a') = journalReads paths (world (notes a)))
  /\ (isBlankText query ->
      search a' = mkSearchState (searchQuery (search a)) [] false
      /\ notes a' = notes a)
  /\ (~ isBlankText query ->
      searchQuery (search a') = query
      /\ Forall (soundResult (world (notes a)) tree query)
           (searchResults (search a'))
      /\ exists keep,
           map resultPath (searchResults (search a'))
           = map path (filter keep (flat_map visitedNotes tree))).
Proof.
  cbv zeta. rewrite searchNotes_run. cbn [fst snd].
  split; [reflexivity|].
  destruct (trim query) as [|c t] eqn:E.
  - cbn [search notes isSearching].
    split; [reflexivity|split; [reflexivity|split; [now exists []|split]]].
    + now intros _.
    + intros H. exfalso. apply H. now apply trim_blank.
  - cbn [search notes isSearching store world searchQuery searchResults].
    split; [reflexivity|split; [reflexivity|split; [eauto|split]]].
    + intros H. apply trim_blank in H. congruence.
    + intros _. split; [reflexivity|split].
      * apply Forall_forall. intros r Hr.
        apply in_flat_map in Hr as (node & Hnode & Hr).
        eapply resultOf_sound; eassumption.
      * eexists. apply resultOf_paths.
Qed.

Lemma searchNotes_sound_witness :
  let a := mkSearchApp initialSearch
             (mkApp (withFilesOf sampleTree initialState) twoNotes) in
  let a' := snd (searchNotes (str "# A") (str "/n") a) in
  searchQuery (search a') = str "# A"
  /\ Forall (soundResult (world (notes a)) sampleTree (str "# A"))
       (searchResults (search a'))
  /\ exists keep,
       map resultPath (searchResults (search a'))
       = map path (filter keep (flat_map visitedNotes sampleTree)).
Proof.
  refine (let H := searchNotes_sound (str "# A") (str "/n")
                     (mkSearchApp initialSearch
                        (mkApp (withFilesOf sampleTree initialState) twoNotes))
          in _).
  cbv zeta in H. destruct H as (_ & _ & _ & _ & _ & H).
  apply H. intros Hb. inversion Hb as [|? ? Hc _]. discriminate.
Defined.

(** X24.  No note is missed: for a query that is not blank, every note the
    search visits whose file can be read and whose name or one of whose
    lines holds the query, whatever the case, has a result with its path
    and name; and when a line holds the query the result shows a line. *)
Theorem searchNotes_finds (query folder : jsstring) (a : SearchApp)
        (node : FileNode) (body : jsstring) :
  ~ isBlankText query ->
  In node (flat_map visitedNotes (files (store (notes a)))) ->
  reads (world (notes a)) (path node) = Resolved body ->
  let inName := includes (toLowerCase (name node)) (toLowerCase query) in
  let inLine :=
    existsb (fun l => includes (toLowerCase l) (toLowerCase query))
      (splitLines body) in
  inName || inLine = true ->
  exists r,
    In r (searchResults (search (snd (searchNotes query folder a))))
    /\ resultPath r = path node
    /\ resultName r = name node
    /\ (inLine = true -> matches r <> []).
Proof.
  intros Hq Hnode Hbody inName inLine Hhold.
  rewrite searchNotes_run. cbn [snd].
  destruct (trim_not_blank query Hq) as (c & t & ->).
  cbn [search searchResults].
  assert (Hfound : inLine = true ->
            matchingLines (toLowerCase query) (splitLines body) 0 <> []).
  { unfold inLine. intros H. apply existsb_exists in H as (l & Hl & Hi).
    apply In_nth_error in Hl as (j & Hj).
    pose proof (matchingLines_complete _ _ 0 j l Hj Hi) as Hin.
    intros E. now rewrite E in Hin. }
  exists (mkSearchResult (path node) (name node)
            (sliceTo 3 (matchingLines (toLowerCase query) (splitLines body) 0))).
  cbn [resultPath resultName matches].
  split; [|split; [reflexivity|split; [reflexivity|]]].
  - apply in_flat_map. exists node. split; [assumption|].
    unfold resultOf. rewrite Hbody. cbv zeta.
    fold inName.
    assert (Hor : (0 <? length (matchingLines (toLowerCase query)
                                  (splitLines body) 0)) || inName = true).
    { destruct inName; [apply orb_true_r|].
      cbn [orb] in Hhold. specialize (Hfound Hhold).
      destruct (matchingLines _ _ _); [congruence|reflexivity]. }
    rewrite Hor. now left.
  - intros H. specialize (Hfound H). unfold sliceTo.
    destruct (matchingLines _ _ _); [congruence|discriminate].
Qed.

Lemma searchNotes_finds_witness :
  let a := mkSearchApp initialSearch
             (mkApp (withFilesOf sampleTree initialState) twoNotes) in
  exists r,
    In r (searchResults (search (snd (searchNotes (str "# A") (str "/n") a))))
    /\ resultPath r = str "/n/a.md"
    /\ resultName r = str "a.md"
    /\ (true = true -> matches r <> []).
Proof.
  apply (searchNotes_finds (str "# A") (str "/n")
           (mkSearchApp initialSearch
              (mkApp (withFilesOf sampleTree initialState) twoNotes))
           (mkFileNode (str "a.md") (str "/n/a.md") false None (Some false))
           (str "# a")).
  - intros Hb. inversion Hb as [|? ? Hc _]. discriminate.
  - right. now left.
  - reflexivity.
  - reflexivity.
Defined.

(** X25.  The case of the query does not matter to the results: two
    queries that are equal in lower case give the same results and make
    the same reads. *)
Theorem searchNotes_ignores_case (q1 q2 folder : jsstring) (a : SearchApp) :
  toLowerCase q1 = toLowerCase q2 ->
  searchResults (search (snd (searchNotes q1 folder a)))
  = searchResults (search (snd (searchNotes q2 folder a)))
  /\ notes (snd (searchNotes q1 folder a))
     = notes (snd (searchNotes q2 folder a)).
Proof.
  intros E. rewrite !searchNotes_run. cbn [snd].
  assert (Hb : isBlankText q1 <-> isBlankText q2)
    by (now rewrite <- (isBlankText_toLowerCase q1),
                    <- (isBlankText_toLowerCase q2), E).
  destruct (trim q1) as [|c1 t1] eqn:E1; destruct (trim q2) as [|c2 t2] eqn:E2.
  - now split.
  - exfalso. assert (H : trim q2 = []) by (apply trim_blank, Hb, trim_blank, E1).
    congruence.
  - exfalso. assert (H : trim q1 = []) by (apply trim_blank, Hb, trim_blank, E2).
    congruence.
  - cbn [search notes searchResults]. now rewrite E.
Qed.

Lemma searchNotes_ignores_case_witness :
  let a := mkSearchApp initialSearch
             (mkApp (withFilesOf sampleTree initialState) twoNotes) in
  searchResults (search (snd (searchNotes (str "# A") (str "/n") a)))
  = searchResults (search (snd (searchNotes (str "# a") (str "/n") a)))
  /\ notes (snd (searchNotes (str "# A") (str "/n") a))
     = notes (snd (searchNotes (str "# a") (str "/n") a)).
Proof.
  apply (searchNotes_ignores_case (str "# A") (str "# a")). reflexivity.
Defined.

End SearchProperties.

(** ** Shape of the tree *)

Lemma forallb_arraySort {A} (cmp : A -> A -> Z) (f : A -> bool) (l : list A) :
  forallb f l = true -> forallb f (arraySort cmp l) = true.
Proof.
  rewrite !forallb_forall. intros H x Hx. apply H.
  now apply arraySort_In in Hx.
Qed.

Lemma nodeOfEntry_builtUnder (localeCompare : jsstring -> jsstring -> Z)
      (entry : DirEntry) :
  forall dir node,
    nodeOfEntry localeCompare dir entry = Some node ->
    builtUnder dir node = true.
Proof.
  induction entry as [n|n|n entries IH] using DirEntry_induction;
    intros dir node; cbn [nodeOfEntry];
    destruct (startsWith n (str ".")) eqn:Edot; try discriminate.
  - destruct (endsWith n (str ".md")) eqn:Emd; cbn [negb]; [|discriminate].
    intros [= <-]. cbn [builtUnder]. now rewrite eqb_refl, Edot, Emd.
  - intros [= <-]. cbn [builtUnder readWith forallb].
    now rewrite eqb_refl, Edot.
  - intros [= <-]. cbn [builtUnder readWith].
    rewrite eqb_refl, Edot. cbn [negb andb].
    apply forallb_arraySort, forallb_forall. intros k Hk.
    apply filterMap_In in Hk as (e & He & Hk).
    rewrite Forall_forall in IH. exact (IH e He _ _ Hk).
Qed.

Lemma readNotesDirectory_builtUnder (localeCompare : jsstring -> jsstring -> Z)
      (dir : jsstring) (listing : option (list DirEntry)) :
  forallb (builtUnder dir) (readNotesDirectory localeCompare dir listing)
  = true.
Proof.
  unfold readNotesDirectory, readWith. destruct listing as [entries|];
    [|reflexivity].
  apply forallb_arraySort, forallb_forall. intros k Hk.
  apply filterMap_In in Hk as (e & He & Hk).
  exact (nodeOfEntry_builtUnder _ e _ _ Hk).
Qed.

Lemma builtUnder_markNode (favs : list jsstring) (node : FileNode) :
  forall dir, builtUnder dir (markNode favs node) = builtUnder dir node.
Proof.
  induction node as [n p d fav|n p d kids fav IH] using FileNode_induction;
    intros dir; cbn [markNode builtUnder]; [reflexivity|].
  do 2 f_equal.
  induction IH as [|k kids Hk _ IHkids]; [reflexivity|].
  cbn [map forallb]. now rewrite Hk, IHkids.
Qed.

Lemma endsWith_app (a n p : jsstring) :
  endsWith n p = true -> endsWith (a ++ n) p = true.
Proof.
  rewrite !endsWith_spec. intros [b ->]. exists (a ++ b).
  now rewrite app_assoc.
Qed.

Lemma visitedNotes_built (node : FileNode) :
  forall dir,
    builtUnder dir node = true ->
    visitedNotes node = filter (fun n => negb (isDirectory n)) (nodesOf node).
Proof.
  induction node as [n p d fav|n p d kids fav IH] using FileNode_induction;
    intros dir H; cbn [builtUnder] in H;
    apply andb_true_iff in H as (H & Hc);
    apply andb_true_iff in H as (Hp & Hdot).
  - apply andb_true_iff in Hc as (Hd & Hmd).
    destruct d; [discriminate|].
    apply eqb_eq in Hp. subst p.
    cbn [visitedNotes nodesOf children filter isDirectory negb].
    rewrite app_assoc. now rewrite (endsWith_app _ _ _ Hmd).
  - apply andb_true_iff in Hc as (Hd & Hkids). destruct d; [|discriminate].
    cbn [visitedNotes nodesOf children filter isDirectory negb].
    clear Hp Hdot Hd. induction IH as [|k kids Hk _ IHkids]; [reflexivity|].
    cbn [forallb] in Hkids. apply andb_true_iff in Hkids as (H1 & H2).
    cbn [flat_map]. now rewrite filter_app, (Hk _ H1), IHkids.
Qed.

Lemma visitedNotes_fileNodes (dir : jsstring) (tree : list FileNode) :
  forallb (builtUnder dir) tree = true ->
  flat_map visitedNotes tree = fileNodes tree.
Proof.
  unfold fileNodes, allNodes. induction tree as [|k tree IH]; [reflexivity|].
  cbn [forallb flat_map]. intros H. apply andb_true_iff in H as (H1 & H2).
  now rewrite filter_app, (visitedNotes_built _ _ H1), IH.
Qed.

Lemma notePaths_visitedNotes (node : FileNode) :
  notePaths node = map path (visitedNotes node).
Proof.
  induction node as [n p d fav|n p d kids fav IH] using FileNode_induction;
    cbn [notePaths visitedNotes].
  - destruct d; now destruct (endsWith p (str ".md")).
  - destruct d; [|now destruct (endsWith p (str ".md"))].
    induction IH as [|k kids Hk _ IHkids]; [reflexivity|].
    cbn [flat_map]. now rewrite map_app, Hk, IHkids.
Qed.

Lemma notePaths_visited (tree : list FileNode) :
  flat_map notePaths tree = map path (flat_map visitedNotes tree).
Proof.
  induction tree as [|k tree IH]; [reflexivity|].
  cbn [flat_map]. now rewrite map_app, notePaths_visitedNotes, IH.
Qed.

(** X26.  Whatever the collation, every node of the tree that a refresh
    puts in the store ([setFiles] on what [readNotesDirectory] returns) has
    the path of its folder, a slash and its name, and a name that does not
    start with a dot; directories have children and files have none and a
    name that ends with [.md].  On such a tree the scans of the store
    (search, backlinks, tags) visit every file of the tree, in document
    order. *)
Theorem refreshed_tree_shape (localeCompare : jsstring -> jsstring -> Z)
        (dir : jsstring) (listing : option (list DirEntry)) (a : App) :
  let tree :=
    files (store (snd (setFiles
      (readNotesDirectory localeCompare dir listing) a))) in
  forallb (builtUnder dir) tree = true
  /\ flat_map visitedNotes tree = fileNodes tree
  /\ flat_map notePaths tree = map path (fileNodes tree).
Proof.
  cbv zeta.
  assert (E : files (store (snd (setFiles
                (readNotesDirectory localeCompare dir listing) a)))
              = markFavorites (favorites (store a))
                  (readNotesDirectory localeCompare dir listing))
    by reflexivity.
  rewrite E.
  assert (H : forallb (builtUnder dir)
                (markFavorites (favorites (store a))
                   (readNotesDirectory localeCompare dir listing)) = true).
  { unfold markFavorites. rewrite forallb_forall. intros n Hn.
    apply in_map_iff in Hn as (m & <- & Hm). rewrite builtUnder_markNode.
    pose proof (readNotesDirectory_builtUnder localeCompare dir listing) as Hb.
    rewrite forallb_forall in Hb. now apply Hb. }
  split; [exact H|split; [now apply (visitedNotes_fileNodes dir)|]].
  rewrite <- (visitedNotes_fileNodes dir) by exact H.
  apply notePaths_visited.
Qed.

(** ** The move menu *)

Lemma slash_split (a b n r : jsstring) :
  a ++ str "/" ++ n = b ++ str "/" ++ r ->
  ~ In (chr 47) n ->
  (a = b /\ n = r) \/ exists r', a = b ++ str "/" ++ r'.
Proof.
  change (str "/") with [chr 47]. cbn [app]. intros E Hn.
  apply app_eq_app in E as (l & [(Ea & El)|(Eb & El)]).
  - destruct l as [|c l]; cbn [app] in El.
    + injection El as <-. left. rewrite app_nil_r in Ea. now split.
    + injection El as <- _. right. now exists l.
  - destruct l as [|c l]; cbn [app] in El.
    + injection El as <-. left. rewrite app_nil_r in Eb. now split.
    + injection El as _ El. exfalso. apply Hn. rewrite El.
      apply in_or_app. right. now left.
Qed.

Lemma builtUnder_inv (dir : jsstring) (node : FileNode) :
  builtUnder dir node = true ->
  path node = dir ++ str "/" ++ name node
  /\ match children node with
     | Some kids => forallb (builtUnder (path node)) kids = true
     | None => True
     end.
Proof.
  destruct node as [n p d ch fav]. cbn [builtUnder path name children].
  intros H. apply andb_true_iff in H as (H & Hc).
  apply andb_true_iff in H as (Hp & _). apply eqb_eq in Hp.
  split; [assumption|]. destruct ch as [kids|]; [|exact I].
  now apply andb_true_iff in Hc as (_ & Hc).
Qed.

Lemma built_paths (node : FileNode) :
  forall dir n,
    builtUnder dir node = true ->
    In n (nodesOf node) ->
    (exists rest, path n = dir ++ str "/" ++ rest)
    /\ exists parent, path n = parent ++ str "/" ++ name n.
Proof.
  induction node as [x p d fav|x p d kids fav IH] using FileNode_induction;
    intros dir n Hb Hn; destruct (builtUnder_inv _ _ Hb) as (Hp & Hkids);
    cbn [nodesOf children path name] in *.
  - destruct Hn as [<-|[]]. cbn [path name]. split; eauto.
  - destruct Hn as [<-|Hn]; [cbn [path name]; split; eauto|].
    apply in_flat_map in Hn as (k & Hk & Hn).
    rewrite Forall_forall in IH. rewrite forallb_forall in Hkids.
    destruct (IH k Hk p n (Hkids k Hk) Hn) as ((rest & E) & Hparent).
    split; [|assumption].
    exists (x ++ str "/" ++ rest). rewrite E, Hp. now rewrite <- !app_assoc.
Qed.

Lemma folders_outside (cur : jsstring) (node : FileNode) :
  forall dir f,
    builtUnder dir node = true ->
    (forall n, In n (nodesOf node) -> ~ In (chr 47) (name n)) ->
    dir <> cur ->
    startsWith dir (cur ++ str "/") = false ->
    In f (foldersOfNode cur node) ->
    path f <> cur /\ startsWith (path f) (cur ++ str "/") = false.
Proof.
  induction node as [x p d fav|x p d kids fav IH] using FileNode_induction;
    intros dir f Hb Hnames Hdir Hst Hf;
    destruct (builtUnder_inv _ _ Hb) as (Hp & Hkids);
    cbn [foldersOfNode children path name isDirectory] in *;
    (destruct d; cbn [andb] in Hf; [|destruct Hf]);
    (destruct (Js.eqb p cur) eqn:Ecur; cbn [negb] in Hf; [destruct Hf|]);
    apply eqb_neq in Ecur;
    assert (Hout : startsWith p (cur ++ str "/") = false)
      by (destruct (startsWith p (cur ++ str "/")) eqn:E; [|reflexivity];
          apply startsWith_spec in E as (rest & E);
          rewrite Hp, <- app_assoc in E;
          apply slash_split in E as [(E1 & _)|(r' & E1)];
          [congruence
          |exfalso; assert (Hs : startsWith dir (cur ++ str "/") = true)
             by (apply startsWith_spec; exists r'; now rewrite <- app_assoc);
           congruence
          |match goal with
           | H : forall n, In n (nodesOf ?nd) -> _ |- _ =>
               apply (H nd); now left
           end]).
  - destruct Hf as [<-|[]]. now split.
  - destruct Hf as [<-|Hf]; [now split|].
    apply in_flat_map in Hf as (k & Hk & Hf).
    rewrite Forall_forall in IH. rewrite forallb_forall in Hkids.
    apply (IH k Hk p f (Hkids k Hk)); try assumption.
    intros n Hn. apply Hnames. right. apply in_flat_map. eauto.
Qed.

Lemma moveItem_run (sourcePath targetFolder : jsstring) (w : World) :
  let target := targetFolder ++ str "/" ++ baseName sourcePath in
  isValidName (baseName sourcePath) = true ->
  targetFolder <> sourcePath ->
  startsWith targetFolder (sourcePath ++ str "/") = false ->
  target <> sourcePath ->
  refused w (OpExists target) = false ->
  present w target = false ->
  refused w (OpRename sourcePath target) = false ->
  present w sourcePath = true ->
  fst (moveItem sourcePath targetFolder w) = Resolved (Some target).
Proof.
  intros target Hv H1 H2 H3 R1 P1 R2 P2.
  unfold moveItem. fold (baseName sourcePath). fold target.
  rewrite Hv. cbn [negb].
  apply eqb_neq in H1, H3. rewrite H1, H2, H3. cbn [orb].
  unfold tryCatch, bind, ret, exists_, rename, call.
  rewrite R1. cbn [fst snd present record refused]. rewrite P1.
  cbn [fst snd present record refused]. rewrite R2, P2. reflexivity.
Qed.

(** X27.  On a tree as a refresh builds it, with names that hold no slash,
    every folder that the move menu of an item offers passes the guards of
    [moveItem]: it is neither the item nor below it, and the new path is
    not the old one.  So when the item has a valid name and is on the
    disk, nothing is at the new path and no call is refused, choosing the
    folder moves the item there. *)
Theorem move_menu_target_moves (dir : jsstring) (tree : list FileNode)
        (node f : FileNode) (w : World) :
  forallb (builtUnder dir) tree = true ->
  (forall n, In n (allNodes tree) -> ~ In (chr 47) (name n)) ->
  In node (allNodes tree) ->
  In f (getAvailableFolders tree node) ->
  let target := path f ++ str "/" ++ name node in
  path f <> path node
  /\ startsWith (path f) (path node ++ str "/") = false
  /\ target <> path node
  /\ (isValidName (name node) = true ->
      present w (path node) = true ->
      present w target = false ->
      refused w (OpExists target) = false ->
      refused w (OpRename (path node) target) = false ->
      fst (moveItem (path node) (path f) w) = Resolved (Some target)).
Proof.
  intros Hb Hnames Hnode Hf target.
  rewrite forallb_forall in Hb.
  unfold allNodes in Hnode. apply in_flat_map in Hnode as (top & Htop & Hnode).
  destruct (built_paths top dir node (Hb top Htop) Hnode)
    as ((rest & Hrest) & (parent & Hparent)).
  assert (Hslash : ~ In (chr 47) (name node))
    by (apply Hnames, in_flat_map; eauto).
  assert (Hbase : baseName (path node) = name node)
    by (rewrite Hparent; now apply baseName_split).
  assert (Hpar : parentOf (path node) = parent)
    by (rewrite Hparent; now apply parentOf_split).
  unfold getAvailableFolders in Hf. cbv zeta in Hf.
  fold (parentOf (path node)) in Hf.
  apply filter_In in Hf as (Hf & Hnp).
  apply negb_true_iff, eqb_neq in Hnp.
  unfold collectFolders in Hf. apply in_flat_map in Hf as (top' & Htop' & Hf).
  assert (Hdir : dir <> path node).
  { intros E. apply (f_equal (@length ascii)) in Hrest.
    rewrite <- E, !length_app in Hrest.
    change (length (str "/")) with 1 in Hrest. lia. }
  assert (Hst : startsWith dir (path node ++ str "/") = false).
  { destruct (startsWith dir (path node ++ str "/")) eqn:E; [|reflexivity].
    apply startsWith_spec in E as (r & E).
    apply (f_equal (@length ascii)) in E. rewrite Hrest in E.
    rewrite !length_app in E. change (length (str "/")) with 1 in E. lia. }
  destruct (folders_outside (path node) top' dir f (Hb top' Htop')) as (H1 & H2);
    try assumption.
  { intros n Hn. apply Hnames, in_flat_map. eauto. }
  assert (H3 : target <> path node).
  { unfold target. rewrite Hparent. intros E.
    apply app_inv_tail in E. congruence. }
  split; [assumption|split; [assumption|split; [assumption|]]].
  intros Hv P2 P1 R1 R2.
  pose proof (moveItem_run (path node) (path f) w) as Hrun.
  cbv zeta in Hrun. rewrite Hbase in Hrun. now apply Hrun.
Qed.

Lemma move_menu_target_moves_witness :
  let node := mkFileNode (str "plan.md") (str "/n/work/plan.md") false None
                (Some false) in
  let f := mkFileNode (str "archive") (str "/n/archive") true (Some [])
             (Some false) in
  let tree := f :: sampleTree in
  let w := noteWorld [(str "/n/work/plan.md", str "# plan")] in
  let target := str "/n/archive/plan.md" in
  path f <> path node
  /\ startsWith (path f) (path node ++ str "/") = false
  /\ target <> path node
  /\ fst (moveItem (path node) (path f) w) = Resolved (Some target).
Proof.
  cbv zeta.
  set (f := mkFileNode (str "archive") (str "/n/archive") true (Some [])
              (Some false)).
  set (node := mkFileNode (str "plan.md") (str "/n/work/plan.md") false None
                 (Some false)).
  assert (H1 : forallb (builtUnder (str "/n")) (f :: sampleTree) = true)
    by reflexivity.
  assert (H2 : forall n, In n (allNodes (f :: sampleTree)) ->
                         ~ In (chr 47) (name n)).
  { intros n Hn. cbn in Hn.
    repeat (destruct Hn as [<-|Hn];
            [intros Hs; vm_compute in Hs; intuition discriminate|]).
    destruct Hn. }
  assert (H3 : In node (allNodes (f :: sampleTree))) by (cbn; tauto).
  assert (H4 : In f (getAvailableFolders (f :: sampleTree) node))
    by (now left).
  destruct (move_menu_target_moves (str "/n") (f :: sampleTree) node f
              (noteWorld [(str "/n/work/plan.md", str "# plan")])
              H1 H2 H3 H4) as (A & B & C & D).
  split; [exact A|split; [exact B|split; [exact C|apply D; reflexivity]]].
Defined.

(** ** Backlinks that are found *)

Lemma matchesHere_spec (lit s : jsstring) :
  matchesHere lit s = true ->
  exists mid post,
    s = mid ++ post /\ map canonicalize mid = map canonicalize lit.
Proof.
  revert s. induction lit as [|x lit IH]; intros s H.
  - now exists [], s.
  - destruct s as [|y s]; cbn [matchesHere] in H; [discriminate|].
    apply andb_true_iff in H as (Hc & H). apply Nat.eqb_eq in Hc.
    destruct (IH s H) as (mid & post & -> & E).
    exists (y :: mid), post. cbn [map app]. split; [reflexivity|].
    now rewrite E, Hc.
Qed.

Lemma firstMatch_spec (lit s : jsstring) :
  forall i j,
    firstMatch lit s i = Some j ->
    exists pre mid post,
      s = pre ++ mid ++ post /\ map canonicalize mid = map canonicalize lit.
Proof.
  induction s as [|c s IH]; intros i j; cbn [firstMatch];
    destruct (matchesHere lit _) eqn:E.
  - intros _. destruct (matchesHere_spec _ _ E) as (mid & post & Es & Em).
    now exists [], mid, post.
  - discriminate.
  - intros _. destruct (matchesHere_spec _ _ E) as (mid & post & Es & Em).
    now exists [], mid, post.
  - intros H. destruct (IH _ _ H) as (pre & mid & post & -> & Em).
    now exists (c :: pre), mid, post.
Qed.

Lemma test_hit (lit l : jsstring) (k e : nat) :
  test lit l k = (true, e) ->
  exists pre mid post,
    l = pre ++ mid ++ post /\ map canonicalize mid = map canonicalize lit.
Proof.
  unfold test. destruct (length l <? k); [discriminate|].
  destruct (firstMatch lit (skipn k l) k) as [j|] eqn:E; [|discriminate].
  intros _. destruct (firstMatch_spec _ _ _ _ E) as (pre & mid & post & Es & Em).
  exists (firstn k l ++ pre), mid, post. split; [|assumption].
  now rewrite <- app_assoc, <- Es, firstn_skipn.
Qed.

Lemma firstMatchingLine_hit (lit : jsstring) (lines : list jsstring) :
  forall k l e,
    firstMatchingLine lit lines k = (Some l, e) ->
    In l lines
    /\ exists pre mid post,
         l = pre ++ mid ++ post
         /\ map canonicalize mid = map canonicalize lit.
Proof.
  induction lines as [|l0 lines IH]; intros k l e; cbn [firstMatchingLine];
    [discriminate|].
  destruct (test lit l0 k) as [hit k'] eqn:E. destruct hit.
  - intros [= <- <-]. split; [now left|]. exact (test_hit _ _ _ _ E).
  - intros H. destruct (IH _ _ _ H) as (Hin & Hm). split; [now right|assumption].
Qed.

Lemma scanNote_ok (w0 : World) (noteName : jsstring)
      (allowed : FileNode -> Prop) (bound : nat) (node : FileNode)
      (s : BacklinkScan * World) :
  allowed node ->
  backlinkScanOk w0 noteName allowed bound s ->
  fst (scanNote (str "[[" ++ noteName ++ str "]]") node s) = Resolved tt
  /\ backlinkScanOk w0 noteName allowed (S bound)
       (snd (scanNote (str "[[" ++ noteName ++ str "]]") node s)).
Proof.
  intros Hnode (Hw & Hlen & Hall). destruct s as [st w]. cbn [fst snd] in *.
  pose proof (Hw (path node)) as Hread.
  unfold scanNote, disk, setLocal, local. unfold_monad. cbn [fst snd].
  unfold reads in Hread. 
  pose proof (readTextFile_world (path node) w) as Hw'.
  destruct (readTextFile (path node) w) as [[body|] w'] eqn:Er;
    cbn [fst snd] in *; subst w'.
  - destruct (firstMatchingLine _ (splitLines body) (lastIndex st))
      as [[l|] e] eqn:Ef; cbn [fst snd found].
    + split; [reflexivity|]. split; [|split]; cbn [fst snd found].
      * intros p. cbn [snd]. rewrite reads_record. apply Hw.
      * rewrite length_app. cbn [length]. lia.
      * apply Forall_app. split; [assumption|]. constructor; [|constructor].
        destruct (firstMatchingLine_hit _ _ _ _ _ Ef) as (Hin & Hm).
        exists node, body, l. cbn [Backlink.path Backlink.name Backlink.context].
        repeat split; auto; now rewrite Hread.
    + split; [reflexivity|]. split; [|split; cbn [fst snd found]; [lia|assumption]].
      intros p. cbn [snd]. rewrite reads_record. apply Hw.
  - split; [reflexivity|]. split; [|split; cbn [fst snd found]; [lia|assumption]].
    intros p. cbn [snd]. rewrite reads_record. apply Hw.
Qed.

Lemma backlinkScanOk_weaken (w0 : World) (noteName : jsstring)
      (allowed : FileNode -> Prop) (b1 b2 : nat) (s : BacklinkScan * World) :
  b1 <= b2 ->
  backlinkScanOk w0 noteName allowed b1 s ->
  backlinkScanOk w0 noteName allowed b2 s.
Proof.
  intros Hb (H1 & H2 & H3). split; [assumption|split; [lia|assumption]].
Qed.

Lemma searchInNode_ok (w0 : World) (noteName : jsstring)
      (allowed : FileNode -> Prop) (node : FileNode) :
  forall bound s,
    (forall n, In n (visitedNotes node) -> allowed n) ->
    backlinkScanOk w0 noteName allowed bound s ->
    fst (searchInNode (str "[[" ++ noteName ++ str "]]") node s) = Resolved tt
    /\ backlinkScanOk w0 noteName allowed
         (bound + length (visitedNotes node))
         (snd (searchInNode (str "[[" ++ noteName ++ str "]]") node s)).
Proof.
  assert (note : forall n p d ch fav bound s,
             (forall x, In x (if endsWith p (str ".md")
                              then [mkFileNode n p d ch fav] else []) ->
                        allowed x) ->
             backlinkScanOk w0 noteName allowed bound s ->
             fst ((if endsWith p (str ".md")
                   then scanNote (str "[[" ++ noteName ++ str "]]")
                          (mkFileNode n p d ch fav)
                   else ret tt) s) = Resolved tt
             /\ backlinkScanOk w0 noteName allowed
                  (bound + length (if endsWith p (str ".md")
                                   then [mkFileNode n p d ch fav] else []))
                  (snd ((if endsWith p (str ".md")
                         then scanNote (str "[[" ++ noteName ++ str "]]")
                                (mkFileNode n p d ch fav)
                         else ret tt) s))).
  { intros n p d ch fav bound s Hal Hok. destruct (endsWith p (str ".md")).
    - cbn [length]. replace (bound + 1) with (S bound) by lia.
      apply scanNote_ok; [|assumption]. apply Hal. now left.
    - cbn [length]. rewrite Nat.add_0_r. now split. }
  induction node as [n p d fav|n p d kids fav IH] using FileNode_induction;
    intros bound s Hal Hok.
  - cbn [searchInNode visitedNotes] in *. destruct d; now apply note.
  - cbn [searchInNode visitedNotes] in *. destruct d; [|now apply note].
    revert bound s Hal Hok.
    induction IH as [|k kids Hk _ IHkids]; intros bound s Hal Hok.
    + cbn [forEach flat_map length]. rewrite Nat.add_0_r. now split.
    + cbn [forEach flat_map]. unfold bind.
      destruct (Hk bound s) as (H1 & H2); [|assumption|].
      { intros x Hx. apply Hal. cbn [flat_map]. apply in_or_app. now left. }
      destruct (searchInNode _ k s) as [o s1]. cbn [fst snd] in H1, H2.
      subst o.
      destruct (IHkids (bound + length (visitedNotes k)) s1) as (H3 & H4);
        [|assumption|].
      { intros x Hx. apply Hal. cbn [flat_map]. apply in_or_app. now right. }
      split; [assumption|]. rewrite length_app, Nat.add_assoc. exact H4.
Qed.

Lemma searchInFiles_ok (w0 : World) (noteName : jsstring)
      (allowed : FileNode -> Prop) (nodes : list FileNode) :
  forall bound s,
    (forall n, In n (flat_map visitedNotes nodes) -> allowed n) ->
    backlinkScanOk w0 noteName allowed bound s ->
    fst (searchInFiles (str "[[" ++ noteName ++ str "]]") nodes s)
    = Resolved tt
    /\ backlinkScanOk w0 noteName allowed
         (bound + length (flat_map visitedNotes nodes))
         (snd (searchInFiles (str "[[" ++ noteName ++ str "]]") nodes s)).
Proof.
  unfold searchInFiles.
  induction nodes as [|k nodes IH]; intros bound s Hal Hok.
  - cbn [forEach flat_map length]. rewrite Nat.add_0_r. now split.
  - cbn [forEach flat_map]. unfold bind.
    destruct (searchInNode_ok w0 noteName allowed k bound s) as (H1 & H2);
      [|assumption|].
    { intros x Hx. apply Hal. cbn [flat_map]. apply in_or_app. now left. }
    destruct (searchInNode _ k s) as [o s1]. cbn [fst snd] in H1, H2.
    subst o.
    destruct (IH (bound + length (visitedNotes k)) s1) as (H3 & H4);
      [|assumption|].
    { intros x Hx. apply Hal. cbn [flat_map]. apply in_or_app. now right. }
    split; [assumption|]. rewrite length_app, Nat.add_assoc. exact H4.
Qed.

(** X28.  [findBacklinks] never rejects and only reads from the disk, and
    no backlink is made up: every backlink it records has the path of a
    note the scan visits and its name without the [.md] ending, the file
    of that note could be read, and the context is a line of that file
    that holds the wiki link to the note name, whatever the case, trimmed
    and cut to a hundred code units.  There are no more backlinks than
    notes visited. *)
Theorem findBacklinks_sound (noteName : jsstring) (a : App) :
  let a' := snd (findBacklinks noteName a) in
  let tree := files (store a) in
  fst (findBacklinks noteName a) = Resolved tt
  /\ store a' = withBacklinks (backlinks (store a')) (store a)
  /\ sameBodies (world a') (world a)
  /\ Forall (soundBacklink (world a) tree noteName) (backlinks (store a'))
  /\ Forall (fun b => length (Backlink.context b) <= 100)
       (backlinks (store a'))
  /\ length (backlinks (store a')) <= length (flat_map visitedNotes tree).
Proof.
  cbv zeta. unfold findBacklinks, NoteStore.get, gets, bind.
  rewrite searchPattern_literal.
  destruct (searchInFiles_ok (world a) noteName
              (fun n => In n (flat_map visitedNotes (files (store a))))
              (files (store a)) 0 (mkBacklinkScan [] 0, world a))
    as (H1 & H2 & H3 & H4).
  { auto. }
  { split; [intros p; reflexivity|split; [cbn; lia|constructor]]. }
  destruct (searchInFiles _ (files (store a)) _) as [o r].
  cbn [fst snd] in *. cbn [store world backlinks].
  split; [reflexivity|].
  split; [now destruct (store a)|].
  split; [exact H2|].
  assert (Hb : backlinks (withBacklinks (found (fst r)) (store a))
               = found (fst r)) by reflexivity.
  rewrite Hb. split; [exact H4|split; [|exact H3]].
  apply Forall_forall. intros b Hb'. rewrite Forall_forall in H4.
  destruct (H4 b Hb') as (node & body & l & _ & _ & _ & _ & _ & _ & ->).
  unfold sliceTo. rewrite length_firstn. lia.
Qed.

(** ** Ids of the headings *)

Lemma dashRuns_chars (s : jsstring) :
  forall r d,
    In d (dashRuns r s) -> d = chr 45 \/ (In d s /\ isSpace d = false).
Proof.
  induction s as [|c s IH]; intros r d; cbn [dashRuns]; [intros []|].
  destruct (isSpace c) eqn:E.
  - destruct r.
    + intros H. destruct (IH _ _ H) as [->|(H1 & H2)]; [now left|].
      right. split; [now right|assumption].
    + intros [<-|H]; [now left|].
      destruct (IH _ _ H) as [->|(H1 & H2)]; [now left|].
      right. split; [now right|assumption].
  - intros [<-|H]; [right; split; [now left|assumption]|].
    destruct (IH _ _ H) as [->|(H1 & H2)]; [now left|].
    right. split; [now right|assumption].
Qed.

Lemma lowerChar_anchor (c : ascii) :
  isStripped (lowerChar c) = false -> isSpace (lowerChar c) = false ->
  isAnchorChar (lowerChar c) = true.
Proof.
  destruct c as [[] [] [] [] [] [] [] []]; vm_compute; congruence.
Qed.

Lemma slug_chars (text : jsstring) :
  forallb isAnchorChar (slug text) = true.
Proof.
  apply forallb_forall. intros d Hd. unfold slug in Hd.
  apply dashRuns_chars in Hd as [->|(Hin & Hsp)]; [reflexivity|].
  unfold removeAll in Hin. apply filter_In in Hin as (Hin & Hst).
  unfold toLowerCase in Hin. apply in_map_iff in Hin as (c & <- & _).
  apply negb_true_iff in Hst. now apply lowerChar_anchor.
Qed.

(** X29.  The id of every heading is made of lower-case ASCII letters,
    digits, underscores and hyphens only, whatever the content: it holds
    no white space, no upper-case letter and no character outside ASCII.
    The level of a heading is between one and six and its text has no
    white space at either end. *)
Theorem heading_ids_are_anchors (content : jsstring) (h : Heading.t) :
  In h (useMarkdownHeadings content) ->
  forallb isAnchorChar (Heading.id h) = true
  /\ 1 <= Heading.level h <= 6
  /\ trim (Heading.text h) = Heading.text h.
Proof.
  unfold useMarkdownHeadings. rewrite headingsFrom_In.
  intros (n & l & _ & _ & Hm & ->).
  split; [apply slug_chars|].
  destruct Hm as (spaces & rest & _ & Hlevel & _ & _ & _ & _ & ->).
  split; [assumption|apply trim_idempotent].
Qed.

Lemma heading_ids_are_anchors_witness :
  let h := Heading.mk (str "whats-new_in-2") (str "What's  NEW_in 2?") 2 1 in
  forallb isAnchorChar (Heading.id h) = true
  /\ 1 <= Heading.level h <= 6
  /\ trim (Heading.text h) = Heading.text h.
Proof.
  apply (heading_ids_are_anchors (str "## What's  NEW_in 2?")). now left.
Defined.

(** ** Tags that are recorded *)

Lemma takeWhile_forallb (f : ascii -> bool) (l : jsstring) :
  forallb f (takeWhile f l) = true.
Proof.
  induction l as [|x l IH]; [reflexivity|].
  cbn [takeWhile]. destruct (f x) eqn:E; [|reflexivity].
  cbn [forallb]. now rewrite E.
Qed.

Lemma lowerChar_tagChar (c : ascii) :
  isTagChar c = true -> isAnchorChar (lowerChar c) = true.
Proof.
  destruct c as [[] [] [] [] [] [] [] []]; vm_compute; congruence.
Qed.

Lemma lowerChar_letter (c : ascii) :
  isLetter c = true ->
  (97 <=? code (lowerChar c)) && (code (lowerChar c) <=? 122) = true.
Proof.
  destruct c as [[] [] [] [] [] [] [] []]; vm_compute; congruence.
Qed.

Lemma tagAt_shape (prev : option ascii) (s group : jsstring) :
  tagAt prev s = Some group -> isTagName (toLowerCase group) = true.
Proof.
  unfold tagAt. destruct s as [|h rest]; [discriminate|].
  destruct (_ && _); [|discriminate].
  destruct rest as [|d rest]; [discriminate|].
  destruct (isLetter d) eqn:E; [|discriminate].
  intros [= <-]. cbn [takeWhile].
  assert (Ht : isTagChar d = true) by (unfold isTagChar; now rewrite E).
  rewrite Ht. cbn [toLowerCase map isTagName].
  rewrite (lowerChar_letter d E). cbn [andb forallb].
  rewrite (lowerChar_tagChar d Ht). cbn [andb].
  apply forallb_forall. intros c Hc. apply in_map_iff in Hc as (c' & <- & Hc').
  apply lowerChar_tagChar.
  pose proof (takeWhile_forallb isTagChar rest) as Hall.
  rewrite forallb_forall in Hall. now apply Hall.
Qed.

Lemma execFrom_shape (s : jsstring) :
  forall prev i group e,
    execFrom prev s i = Some (group, e) ->
    isTagName (toLowerCase group) = true.
Proof.
  induction s as [|c s IH]; intros prev i group e; cbn [execFrom];
    destruct (tagAt prev _) as [g|] eqn:E.
  - intros [= <- _]. exact (tagAt_shape _ _ _ E).
  - discriminate.
  - intros [= <- _]. exact (tagAt_shape _ _ _ E).
  - apply IH.
Qed.

Lemma exec_shape (content : jsstring) (i : nat) (group : jsstring) (e : nat) :
  exec content i = (Some group, e) -> isTagName (toLowerCase group) = true.
Proof.
  unfold exec. destruct (length content <? i); [discriminate|].
  destruct (execFrom _ _ i) as [[g e']|] eqn:E; [|discriminate].
  intros [= <- _]. exact (execFrom_shape _ _ _ _ _ E).
Qed.

Lemma mapSet_tagEntries (m : TagMap) (k : jsstring) (v : nat) :
  isTagName k = true -> 1 <= v -> tagEntries m -> tagEntries (mapSet m k v).
Proof.
  intros Hk Hv. unfold tagEntries.
  induction m as [|[k' v'] m IH]; intros H; cbn [mapSet].
  - now repeat constructor.
  - inversion H as [|? ? (H1 & H2) H3]; subst. cbn [fst snd] in *.
    destruct (Js.eqb k' k).
    + constructor; [now split|assumption].
    + constructor; [now split|now apply IH].
Qed.

Lemma execAll_tagEntries (fuel : nat) (body : jsstring) :
  forall st, tagEntries (tagCounts st) ->
             tagEntries (tagCounts (execAll fuel body st)).
Proof.
  induction fuel as [|fuel IH]; intros st H; cbn [execAll]; [exact H|].
  destruct (exec body (tagLastIndex st)) as [[g|] e] eqn:E; [|exact H].
  apply IH. cbn [tagCounts].
  apply mapSet_tagEntries; [exact (exec_shape _ _ _ _ E)|lia|exact H].
Qed.

Lemma countNotes_tagEntries (read : jsstring -> Outcome jsstring)
      (paths : list jsstring) :
  forall st, tagEntries (tagCounts st) ->
             tagEntries (tagCounts (fold_left (countNote read) paths st)).
Proof.
  induction paths as [|p paths IH]; intros st H; cbn [fold_left]; [exact H|].
  apply IH. unfold countNote. destruct (read p); [|exact H].
  now apply execAll_tagEntries.
Qed.

(** X30.  Every tag that [scanAllTags] leaves in the store was counted at
    least once and has the shape of a tag in lower case: a lower-case ASCII
    letter followed by lower-case ASCII letters, digits, underscores and
    hyphens.  The hash is not part of the tag, and the scan only reads from
    the disk. *)
Theorem scanAllTags_tags_shape (a : App) :
  let a' := snd (scanAllTags a) in
  fst (scanAllTags a) = Resolved tt
  /\ sameBodies (world a') (world a)
  /\ Forall (fun t => isTagName (TagInfo.tag t) = true /\ 1 <= TagInfo.count t)
       (allTags (store a')).
Proof.
  cbv zeta. rewrite scanAllTags_run. cbn [fst snd store world].
  split; [reflexivity|split].
  - intros p. apply reads_journalReads.
  - assert (E : allTags (withAllTags (tagsOf (reads (world a)) (files (store a)))
                           (store a))
                = tagsOf (reads (world a)) (files (store a))) by reflexivity.
    rewrite E. unfold tagsOf. apply Forall_forall. intros t Ht.
    apply arraySort_In in Ht. apply in_map_iff in Ht as ([k v] & <- & Hin).
    cbn [TagInfo.tag TagInfo.count fst snd].
    pose proof (countNotes_tagEntries (reads (world a))
                  (flat_map notePaths (files (store a))) (mkTagScan [] 0)
                  (Forall_nil _)) as Hall.
    unfold tagEntries in Hall. rewrite Forall_forall in Hall.
    apply (Hall (k, v) Hin).
Qed.
